(** * emmett-google-pubsub: a shallow embedding of the message bus

    Part I is the model.  It follows the layout of [src/messageBus]:

    - [Js]               the fragment of the JavaScript runtime the code relies
                         on (strings, thrown values, structured values, [Date],
                         JSON);
    - [Serialization]    serialization.ts;
    - [Effects]          the calls the code awaits (handlers, the Pub/Sub
                         client) and the runs of an asynchronous computation;
    - [MessageHandler]   messageHandler.ts ([shouldRetry],
                         [handleCommandMessage], [handleEventMessage]);
    - [TopicManager]     topicManager.ts;
    - [Scheduler]        scheduler.ts;
    - [PubSubMessageBus] pubsubMessageBus.ts;
    - [MessageIds]       serialization.ts once more: [attachMessageId],
                         [extractMessageId], and where the [Date]s of a value
                         sit;
    - [Protocol]         words for traces;
    - [Publication]      the contract of [publishMessage];
    - [Registry]         the maps and sets of a bus under [handle] and
                         [subscribe], and what [start] provisions for a type;
    - [Delivery]         [createMessageListener], [deleteSubscription] and
                         [createSubscriptionForType].

    Part II holds the facts, one module of facts for each module of the model,
    and [EndToEndFacts] for what links the publisher to the handlers.

    Console output is not modelled.  The clock and [randomUUID] are read by
    the caller and passed in ([now], [uuid]).  [start], [close] and
    [deleteSubscriptions] await several promises at once, [close] against a
    timer; of these only the loop of [start] that decides what to provision is
    modelled. *)

From Stdlib Require Import ZArith Ascii String DecimalString DecimalZ.
From stdpp Require Import gmap strings list.

Local Open Scope string_scope.
Local Open Scope Z_scope.

(* ===================================================================== *)
(** * Part I: the model                                                   *)
(* ===================================================================== *)

(** ** The JavaScript fragment *)

Module Js.

(** ** Strings.  A string is a sequence of ASCII code units. *)

(** [c.toLowerCase()] on one code unit. *)
Definition lowerChar (c : ascii) : ascii :=
  let n := nat_of_ascii c in
  if (Nat.leb 65 n && Nat.leb n 90)%bool then ascii_of_nat (n + 32) else c.

(** [s.toLowerCase()] *)
Fixpoint toLowerCase (s : string) : string :=
  match s with
  | EmptyString => EmptyString
  | String c r => String (lowerChar c) (toLowerCase r)
  end.

(** [s.startsWith(needle)] *)
Fixpoint startsWith (s needle : string) : bool :=
  match needle, s with
  | EmptyString, _ => true
  | String _ _, EmptyString => false
  | String a n, String b r => (Ascii.eqb a b && startsWith r n)%bool
  end.

(** [s.includes(needle)] *)
Fixpoint includes (s needle : string) : bool :=
  (startsWith s needle
   || match s with
      | EmptyString => false
      | String _ r => includes r needle
      end)%bool.

(** Does the code unit [c] occur in [s]? *)
Fixpoint occurs (c : ascii) (s : string) : bool :=
  match s with
  | EmptyString => false
  | String a r => (Ascii.eqb c a || occurs c r)%bool
  end.

(** ** Thrown values.  Anything can be thrown; the code only ever asks
    whether the value is an [Error], whether it is an [EmmettError] (a subclass
    of [Error]), for its [message], for [String(error)] and for its [code]. *)

Inductive thrown : Type :=
| ErrorObject (emmett : bool) (message : string) (code : option Z)
| OtherValue (text : string) (code : option Z).

(** [new Error(msg)] and [new EmmettError(msg)] *)
Definition Error (msg : string) : thrown := ErrorObject false msg None.
Definition EmmettError (msg : string) : thrown := ErrorObject true msg None.

(** [error instanceof Error] *)
Definition instanceofError (e : thrown) : bool :=
  match e with ErrorObject _ _ _ => true | OtherValue _ _ => false end.

(** [error instanceof EmmettError] *)
Definition instanceofEmmettError (e : thrown) : bool :=
  match e with ErrorObject emmett _ _ => emmett | OtherValue _ _ => false end.

(** [error.code] *)
Definition codeOf (e : thrown) : option Z :=
  match e with ErrorObject _ _ c => c | OtherValue _ c => c end.

(** [error instanceof Error ? error.message : String(error)] *)
Definition describe (e : thrown) : string :=
  match e with ErrorObject _ m _ => m | OtherValue t _ => t end.

(** The outcome of a call that may throw. *)
Inductive result (A : Type) : Type :=
| Ok (a : A)
| Throw (e : thrown).
Arguments Ok {A} a.
Arguments Throw {A} e.

(** Sequencing stops at the first throw: [x ← r; k] is stdpp's notation. *)
#[global] Instance result_bind : MBind result := fun A B k r =>
  match r with Ok a => k a | Throw e => Throw e end.
#[global] Instance result_ret : MRet result := fun A a => Ok a.

(** ** Structured values: what a message's [data] and [metadata] hold.
    A value is a finite tree: no array or object holds itself.  [VNum n] is
    the finite number [n], an integer other than [-0] (the code does not
    compute with the numbers of a message); [-0], [NaN] and the two infinities
    have constructors of their own, and so has a [BigInt].  A [Date] holds a
    time value in milliseconds since the epoch, or no time value (an Invalid
    Date).  An array has no holes.  The entries of an object are its own
    properties in [Object.entries] order; their keys are distinct; an own
    property may be named [__proto__], as in what [JSON.parse] returns. *)

#[local] Unset Elimination Schemes.

Inductive value : Type :=
| VUndefined
| VNull
| VBool (b : bool)
| VNum (n : Z)
| VNegZero
| VNaN
| VInfinity (negative : bool)
| VBigInt (n : Z)
| VStr (s : string)
| VDate (t : option Z)
| VArr (items : list value)
| VObj (entries : list (string * value)).

#[local] Set Elimination Schemes.

(** Structural induction that reaches the elements of arrays and the
    members of objects. *)
Definition value_induction (P : value -> Prop)
    (Pundefined : P VUndefined) (Pnull : P VNull)
    (Pbool : forall b, P (VBool b)) (Pnum : forall n, P (VNum n))
    (Pnegzero : P VNegZero) (Pnan : P VNaN)
    (Pinfinity : forall negative, P (VInfinity negative))
    (Pbigint : forall n, P (VBigInt n))
    (Pstr : forall s, P (VStr s)) (Pdate : forall t, P (VDate t))
    (Parr : forall items, Forall P items -> P (VArr items))
    (Pobj : forall entries, Forall (fun e => P (snd e)) entries -> P (VObj entries)) :
    forall v, P v :=
  fix go (v : value) : P v :=
    match v with
    | VUndefined => Pundefined
    | VNull => Pnull
    | VBool b => Pbool b
    | VNum n => Pnum n
    | VNegZero => Pnegzero
    | VNaN => Pnan
    | VInfinity negative => Pinfinity negative
    | VBigInt n => Pbigint n
    | VStr s => Pstr s
    | VDate t => Pdate t
    | VArr items =>
        Parr items
          ((fix all (l : list value) : Forall P l :=
              match l with
              | [] => List.Forall_nil P
              | x :: r => List.Forall_cons P x r (go x) (all r)
              end) items)
    | VObj entries =>
        Pobj entries
          ((fix all (l : list (string * value)) : Forall (fun e => P (snd e)) l :=
              match l with
              | [] => List.Forall_nil _
              | e :: r => List.Forall_cons (fun e => P (snd e)) e r (go (snd e)) (all r)
              end) entries)
    end.

(** Own properties of an object, as [Object.entries] lists them, by key. *)
Fixpoint lookupKey {A} (k : string) (entries : list (string * A)) : option A :=
  match entries with
  | [] => None
  | (k', v) :: r => if String.eqb k k' then Some v else lookupKey k r
  end.

(** [k in v], for a [v] that is not a primitive. *)
Definition hasProperty (k : string) (v : value) : bool :=
  match v with
  | VObj entries => match lookupKey k entries with Some _ => true | None => false end
  | _ => false
  end.

(** [v.k], for a [v] that is neither [null] nor [undefined]. *)
Definition getProperty (k : string) (v : value) : value :=
  match v with
  | VObj entries => match lookupKey k entries with Some x => x | None => VUndefined end
  | _ => VUndefined
  end.

(** Truthiness, as [v ? a : b] and [!v] read it. *)
Definition truthy (v : value) : bool :=
  match v with
  | VUndefined | VNull => false
  | VBool b => b
  | VNum n | VBigInt n => negb (n =? 0)
  | VNegZero | VNaN => false
  | VInfinity _ => true
  | VStr s => negb (String.eqb s "")
  | VDate _ | VArr _ | VObj _ => true
  end.

(** ** The engine's [Date] formatting and parsing.
    [toISOString] renders a time value; [dateParse s] is the time value of
    [new Date(s)], if any.  ECMAScript requires [Date.parse] to read back what
    [toISOString] wrote. *)

Class DateApi : Type := {
  toISOString : Z -> string;
  dateParse : string -> option Z;
  dateParse_toISOString : forall t, dateParse (toISOString t) = Some t
}.

(** The largest time value a [Date] holds (TimeClip). *)
Definition maxTime : Z := 8640000000000000.

(** [new Date(t)] for a number [t] *)
Definition newDate (t : Z) : option Z :=
  if (Z.abs t <=? maxTime) then Some t else None.

(** ** JSON documents, [JSON.stringify] and [JSON.parse].  A document is
    what a JSON text denotes; the names of the members of an object are
    distinct.  [JNum n] is a number literal that denotes the integer [n];
    literals that denote other numbers are left out. *)

#[local] Unset Elimination Schemes.

Inductive json : Type :=
| JNull
| JBool (b : bool)
| JNum (n : Z)
| JStr (s : string)
| JArr (items : list json)
| JObj (members : list (string * json)).

#[local] Set Elimination Schemes.

Section Json.
Context {api : DateApi}.

(** The [TypeError] of [JSON.stringify] on a [BigInt]. *)
Definition bigIntError : thrown := Error "Do not know how to serialize a BigInt".

(** [JSON.stringify v], as a document: [None] where it yields [undefined].
    An [undefined] member of an object is left out, an [undefined] element of
    an array is written [null], a [Date] is written through its [toJSON];
    [-0] is written [0], [NaN] and the infinities are written [null], and a
    [BigInt] makes the call throw. *)
Fixpoint stringify (v : value) : result (option json) :=
  match v with
  | VUndefined => Ok None
  | VNull => Ok (Some JNull)
  | VBool b => Ok (Some (JBool b))
  | VNum n => Ok (Some (JNum n))
  | VNegZero => Ok (Some (JNum 0))
  | VNaN | VInfinity _ => Ok (Some JNull)
  | VBigInt _ => Throw bigIntError
  | VStr s => Ok (Some (JStr s))
  | VDate (Some t) => Ok (Some (JStr (toISOString t)))
  | VDate None => Ok (Some JNull)
  | VArr items =>
      items' ← mapM (fun x => j ← stringify x; Ok (default JNull j)) items;
      Ok (Some (JArr items'))
  | VObj entries =>
      members ← mapM (fun e => j ← stringify (snd e); Ok (m ← j; Some (fst e, m))) entries;
      Ok (Some (JObj (omap id members)))
  end.

(** The element of an array and the member of an object, as [stringify]
    writes them. *)
Definition stringifyItem (x : value) : result json :=
  j ← stringify x; Ok (default JNull j).

Definition stringifyMember (e : string * value) : result (option (string * json)) :=
  j ← stringify (snd e); Ok (m ← j; Some (fst e, m)).

(** [JSON.parse(text, reviver)] on the document [text] denotes: the reviver is
    applied bottom-up, to every element and member and last to the root.  (The
    reviver's key argument is left out: [dateReviver] ignores it.) *)
Fixpoint parseWith (reviver : value -> value) (j : json) : value :=
  match j with
  | JNull => reviver VNull
  | JBool b => reviver (VBool b)
  | JNum n => reviver (VNum n)
  | JStr s => reviver (VStr s)
  | JArr items => reviver (VArr (List.map (parseWith reviver) items))
  | JObj members =>
      reviver (VObj (List.map (fun m => (fst m, parseWith reviver (snd m))) members))
  end.

End Json.

(** A byte buffer: the UTF-8 text of a JSON document, or bytes that
    [JSON.parse] rejects with the given message. *)
Inductive Buffer : Type :=
| JsonText (doc : json)
| Malformed (syntaxError : string).

(** A [DateApi] to evaluate the definitions with: time values are written in
    decimal.  It stands in for the engine's ISO-8601 formatter, of which only the
    law [dateParse_toISOString] is used. *)
#[refine] Instance decimalDates : DateApi := {
  toISOString t := NilEmpty.string_of_int (Z.to_int t);
  dateParse s := Z.of_int <$> NilEmpty.int_of_string s
}.
Proof.
  intros t. rewrite NilEmpty.isi. simpl. f_equal. apply DecimalZ.of_to.
Defined.

End Js.

(** ** serialization.ts *)

Module Serialization.
Import Js.

(** A logical message.  [metadata = None] when the message has no
    [metadata] property at all. *)
Record Message : Type := {
  type : string;
  data : value;
  metadata : option value
}.

(** The message as the object a handler receives. *)
Definition messageObject (m : Message) : value :=
  VObj ([("type", VStr (type m)); ("data", data m)]
        ++ match metadata m with Some md => [("metadata", md)] | None => [] end).

(** The [DateMarker] for an ISO string. *)
Definition dateMarker (iso : string) : value :=
  VObj [("__type", VStr "Date"); ("value", VStr iso)].

(** [isDateMarker]: an object with [__type === 'Date'] and a string [value]. *)
Definition isDateMarker (v : value) : bool :=
  match v with
  | VObj _ =>
      hasProperty "__type" v
      && match getProperty "__type" v with
         | VStr t => String.eqb t "Date"
         | _ => false
         end
      && hasProperty "value" v
      && match getProperty "value" v with
         | VStr _ => true
         | _ => false
         end
  | _ => false
  end.

(** [getMessageKind], on the message's type. *)
Inductive MessageKind : Type := command | event.

Definition kindName (k : MessageKind) : string :=
  match k with command => "command" | event => "event" end.

Definition getMessageKind (messageType : string) : MessageKind :=
  if includes (toLowerCase messageType) "command" then command else event.

Section Codec.
Context {api : DateApi}.

(** [result[key] = value] on the fresh object [{}] adds an own property,
    except for the key [__proto__]: that assignment goes to the setter of
    [Object.prototype], which changes the prototype of [result] or does
    nothing, and adds no property. *)
Definition assignable (e : string * value) : bool :=
  negb (String.eqb (fst e) "__proto__").

(** [transformDatesToMarkers]; [toISOString] throws a [RangeError] on an
    Invalid Date.  Every entry of an object is transformed, in order, before
    its assignment to the result. *)
Fixpoint transformDatesToMarkers (obj : value) : result value :=
  match obj with
  | VDate (Some t) => Ok (dateMarker (toISOString t))
  | VDate None => Throw (Error "Invalid time value")
  | VArr items =>
      items' ← mapM transformDatesToMarkers items; Ok (VArr items')
  | VObj entries =>
      entries' ← mapM (fun e => v ← transformDatesToMarkers (snd e); Ok (fst e, v)) entries;
      Ok (VObj (List.filter assignable entries'))
  | _ => Ok obj
  end.

(** [dateReviver] *)
Definition dateReviver (v : value) : value :=
  if isDateMarker v then
    match getProperty "value" v with
    | VStr s => VDate (dateParse s)
    | _ => v
    end
  else v.

(** [serialize]; [now] is what [new Date()] reads and [uuid] what
    [randomUUID()] draws. *)
Definition serialize (now : Z) (uuid : string) (message : Message) : result Buffer :=
  d ← transformDatesToMarkers (data message);
  md ← match metadata message with
       | Some m => transformDatesToMarkers m
       | None => Ok VUndefined
       end;
  let envelope :=
    VObj [("type", VStr (type message));
          ("kind", VStr (kindName (getMessageKind (type message))));
          ("data", d);
          ("metadata", md);
          ("timestamp", VStr (toISOString now));
          ("messageId", VStr uuid)] in
  json ← stringify envelope;
  match json with
  | Some doc => Ok (JsonText doc)
  | None => Throw (Error "The first argument must be of type string")
  end.

(** [deserialize]: every exception is caught and rethrown wrapped. *)
Definition deserialize (buffer : Buffer) : result value :=
  match buffer with
  | Malformed syntaxError =>
      Throw (Error ("Failed to deserialize message: " +:+ syntaxError))
  | JsonText doc =>
      let envelope := parseWith dateReviver doc in
      match envelope with
      | VNull =>
          Throw (Error ("Failed to deserialize message: "
                        +:+ "Cannot read properties of null (reading 'type')"))
      | _ =>
          Ok (VObj ([("type", getProperty "type" envelope);
                     ("data", getProperty "data" envelope)]
                    ++ if truthy (getProperty "metadata" envelope)
                       then [("metadata", getProperty "metadata" envelope)]
                       else []))
      end
  end.

End Codec.

(** No object anywhere in [v] has the shape of a [DateMarker]. *)
Fixpoint markerFree (v : value) : bool :=
  match v with
  | VArr items => forallb markerFree items
  | VObj entries =>
      negb (isDateMarker (VObj entries)) && forallb (fun e => markerFree (snd e)) entries
  | _ => true
  end.

(** [v] is a JSON tree with valid [Date]s at some leaves: nothing is
    [undefined]; every number is finite and not [-0]; there is no [BigInt];
    no [Date] is invalid; no object has an own property named [__proto__], and
    none has the shape of a [DateMarker]. *)
Fixpoint faithful (v : value) : bool :=
  match v with
  | VUndefined | VNegZero | VNaN | VInfinity _ | VBigInt _ => false
  | VDate t => bool_decide (is_Some t)
  | VArr items => forallb faithful items
  | VObj entries =>
      negb (isDateMarker (VObj entries))
      && forallb (fun e => assignable e && faithful (snd e)) entries
  | _ => true
  end.

(** The [metadata] of a message survives [deserialize]'s truthiness test. *)
Definition metadataKept (m : Message) : bool :=
  match metadata m with
  | Some md => faithful md && truthy md
  | None => true
  end.

(** An order whose [createdAt] is a plain object shaped like a [DateMarker]. *)
Definition markerShapedOrder : Message :=
  {| type := "OrderCreated";
     data := VObj [("createdAt",
                    VObj [("__type", VStr "Date");
                          ("value", VStr "2024-01-15T10:00:00.000Z")])];
     metadata := None |}.

(** A message whose [data] holds, under the key [k], a plain object shaped
    like a [DateMarker] with the string [s]; and what comes back for it. *)
Definition markerShaped (messageType k s : string) : Message :=
  {| type := messageType;
     data := VObj [(k, VObj [("__type", VStr "Date"); ("value", VStr s)])];
     metadata := None |}.

Definition markerShapedRevived {api : DateApi} (messageType k s : string) : value :=
  VObj [("type", VStr messageType); ("data", VObj [(k, VDate (dateParse s))])].

(** ** Notions used to state the round trip *)

Section RoundTrip.
Context {api : DateApi}.

(** One entry of an object under [transformDatesToMarkers], and one member
    of a JSON object under the reviving parse. *)
Definition transformEntry (e : string * value) : result (string * value) :=
  v ← transformDatesToMarkers (snd e); Ok (fst e, v).

Definition parseMember (m : string * json) : string * value :=
  (fst m, parseWith dateReviver (snd m)).

(** The round trip of one value: through [transformDatesToMarkers], the JSON
    text and the reviving parse. *)
Definition comesBack (v : value) : Prop :=
  exists v' j,
    transformDatesToMarkers v = Ok v' /\ stringify v' = Ok (Some j)
    /\ parseWith dateReviver j = v.

(** What [deserialize] reads for a member of the envelope that [stringify]
    wrote as [j], or left out. *)
Definition revived (j : option json) : value :=
  match j with
  | Some doc => parseWith dateReviver doc
  | None => VUndefined
  end.

(** The members of the envelope [serialize] writes, given what [stringify]
    made of the transformed [data] and [metadata]. *)
Definition envelopeMembers (now : Z) (uuid : string) (message : Message)
    (jd jmd : option json) : list (string * json) :=
  [("type", JStr (type message));
   ("kind", JStr (kindName (getMessageKind (type message))))]
  ++ match jd with Some j => [("data", j)] | None => [] end
  ++ match jmd with Some j => [("metadata", j)] | None => [] end
  ++ [("timestamp", JStr (toISOString now)); ("messageId", JStr uuid)].

End RoundTrip.

(** An order with [Date]s nested in its [data] and in its [metadata]. *)
Definition datedOrder : Message :=
  {| type := "OrderCreated";
     data := VObj [("orderId", VStr "123");
                   ("createdAt", VDate (Some 1705314600000));
                   ("lines", VArr [VObj [("sku", VNum 7);
                                         ("shipBy", VDate (Some 1705401000000))];
                                   VNull])];
     metadata := Some (VObj [("now", VDate (Some 0))]) |}.

End Serialization.

(** ** Awaited calls and their traces *)

Module Effects.
Import Js.

(** A registered handler is a callback; it is known by reference only. *)
Inductive handler : Type := HandlerRef (id : nat).

(** [SubscriptionOptions] of types.ts; a field is [None] when it is absent. *)
Record RetryPolicy : Type := {
  minimumBackoff : option Z;
  maximumBackoff : option Z
}.

Record DeadLetterPolicy : Type := {
  deadLetterTopic : option string;
  maxDeliveryAttempts : option Z
}.

Record SubscriptionOptions : Type := {
  ackDeadlineSeconds : option Z;
  retryPolicy : option RetryPolicy;
  deadLetterPolicy : option DeadLetterPolicy
}.

(** What the code awaits: a handler, or an operation of the Pub/Sub client. *)
Inductive call : Type :=
| InvokeHandler (h : handler) (message : value)
| TopicExists (topic : string)
| TopicCreate (topic : string)
| TopicPublish (topic : string) (payload : Buffer) (attributes : list (string * string))
| SubscriptionExists (topic subscription : string)
| SubscriptionCreate (topic subscription : string) (config : SubscriptionOptions).

(** How an awaited promise settles. *)
Inductive answer : Type :=
| Resolved (v : value)
| Rejected (e : thrown).

(** An asynchronous computation: it returns, or awaits a call and goes on
    with the answer. *)
Inductive prog (A : Type) : Type :=
| Ret (a : A)
| Await (c : call) (k : answer -> prog A).
Arguments Ret {A} a.
Arguments Await {A} c k.

Fixpoint bind {A B} (p : prog A) (f : A -> prog B) : prog B :=
  match p with
  | Ret a => f a
  | Await c k => Await c (fun ans => bind (k ans) f)
  end.

#[global] Instance prog_bind : MBind prog := fun A B f p => bind p f.
#[global] Instance prog_ret : MRet prog := fun A a => Ret a.

(** [await call], the rejection becoming a throw. *)
Definition await (c : call) : prog (result value) :=
  Await c (fun ans =>
    match ans with
    | Resolved v => Ret (Ok v)
    | Rejected e => Ret (Throw e)
    end).

(** Sequencing inside a [try] block: a throw skips the rest. *)
Definition andThen {A B} (p : prog (result A)) (f : A -> prog (result B)) : prog (result B) :=
  r ← p;
  match r with
  | Ok a => f a
  | Throw e => Ret (Throw e)
  end.

(** [try { p } catch (error) { h error }] *)
Definition tryCatch {A} (p : prog (result A)) (h : thrown -> prog A) : prog A :=
  r ← p;
  match r with
  | Ok a => Ret a
  | Throw e => h e
  end.

(** One awaited call with the answer it got, and the runs of a computation:
    [runs p tr a] when [p] returns [a] after exactly the calls of [tr],
    answered as [tr] says. *)
Definition event : Type := call * answer.

Inductive runs {A : Type} : prog A -> list event -> A -> Prop :=
| runs_Ret a : runs (Ret a) [] a
| runs_Await c k ans tr a :
    runs (k ans) tr a -> runs (Await c k) ((c, ans) :: tr) a.

(** Running against an environment that answers the [n]-th call. *)
Fixpoint exec {A} (env : nat -> call -> answer) (n : nat) (p : prog A) : list event * A :=
  match p with
  | Ret a => ([], a)
  | Await c k =>
      let ans := env n c in
      let (tr, a) := exec env (S n) (k ans) in
      ((c, ans) :: tr, a)
  end.

End Effects.

(** ** messageHandler.ts *)

Module MessageHandler.
Import Js Effects.

(** The message the subscription delivers. *)
Record PubSubMessage : Type := {
  data : Buffer;
  deliveryAttempt : Z
}.

Inductive AckOrNack : Type := ack | nack.

(** [shouldRetry] *)
Definition shouldRetry (error : thrown) : bool :=
  match error with
  | OtherValue _ _ => true
  | ErrorObject emmett message _ =>
      let errorMessage := toLowerCase message in
      if includes errorMessage "network"
         || includes errorMessage "timeout"
         || includes errorMessage "econnrefused"
         || includes errorMessage "enotfound"
         || includes errorMessage "unavailable"
      then true
      else if emmett then false
      else if includes errorMessage "validation"
              || includes errorMessage "invalid"
              || includes errorMessage "not found"
              || includes errorMessage "already exists"
      then false
      else true
  end.

(** The [catch] blocks of both dispatchers end the same way. *)
Definition ackUnlessRetriable (error : thrown) : AckOrNack :=
  if shouldRetry error then nack else ack.

Section Dispatch.
Context {api : DateApi}.

(** [handleCommandMessage] *)
Definition handleCommandMessage (message : PubSubMessage)
    (handlers : gmap string (list handler)) (commandType : string) : prog AckOrNack :=
  tryCatch
    (match handlers !! commandType with
     | None | Some [] =>
         Ret (Throw (EmmettError
           ("No handler registered for command " +:+ commandType +:+ "!")))
     | Some (_ :: _ :: _) =>
         Ret (Throw (EmmettError
           ("Multiple handlers registered for command " +:+ commandType +:+ ". "
            +:+ "Commands must have exactly one handler.")))
     | Some [handler] =>
         andThen (Ret (Serialization.deserialize (data message))) (fun command =>
         andThen (await (InvokeHandler handler command)) (fun _ =>
         Ret (Ok ack)))
     end)
    (fun error => Ret (ackUnlessRetriable error)).

(** The [for] loop of [handleEventMessage]: each handler in turn, inside
    its own [try]. *)
Fixpoint runEventHandlers (eventHandlers : list handler) (event : value) : prog (result AckOrNack) :=
  match eventHandlers with
  | [] => Ret (Ok ack)
  | handler :: rest =>
      r ← await (InvokeHandler handler event);
      match r with
      | Ok _ => runEventHandlers rest event
      | Throw error =>
          if shouldRetry error then Ret (Ok nack)
          else runEventHandlers rest event
      end
  end.

(** [handleEventMessage] *)
Definition handleEventMessage (message : PubSubMessage)
    (handlers : gmap string (list handler)) (eventType : string) : prog AckOrNack :=
  tryCatch
    (match handlers !! eventType with
     | None | Some [] => Ret (Ok ack)
     | Some eventHandlers =>
         andThen (Ret (Serialization.deserialize (data message))) (fun event =>
         runEventHandlers eventHandlers event)
     end)
    (fun error => Ret (ackUnlessRetriable error)).

End Dispatch.

(** ** The dispatch policy in words *)

(** The markers [shouldRetry] looks for in the lower-cased message. *)
Definition retryMarkers : list string :=
  ["network"; "timeout"; "econnrefused"; "enotfound"; "unavailable"].

Definition permanentMarkers : list string :=
  ["validation"; "invalid"; "not found"; "already exists"].

Definition mentions (markers : list string) (text : string) : bool :=
  existsb (includes (toLowerCase text)) markers.

(** The walk over the handlers of an event, as the specification words it: a
    handler that returns, or fails with a permanent error, lets the walk go on;
    the first retriable failure ends it with [nack]; the end of the list gives
    [ack]. *)
Inductive walk (event : value) : list handler -> list Effects.event -> AckOrNack -> Prop :=
| walk_end : walk event [] [] ack
| walk_returned h rest v tr r :
    walk event rest tr r ->
    walk event (h :: rest) ((InvokeHandler h event, Resolved v) :: tr) r
| walk_permanent h rest e tr r :
    shouldRetry e = false ->
    walk event rest tr r ->
    walk event (h :: rest) ((InvokeHandler h event, Rejected e) :: tr) r
| walk_retriable h rest e :
    shouldRetry e = true ->
    walk event (h :: rest) [(InvokeHandler h event, Rejected e)] nack.

(** A settled answer lets the walk go on. *)
Definition settled (e : Effects.event) : bool :=
  match snd e with
  | Resolved _ => true
  | Rejected error => negb (shouldRetry error)
  end.

(** A delivery of [{ type: 'ProductItemAdded', data: { productId: '123' } }]. *)
Definition productItemAdded : PubSubMessage :=
  {| data := JsonText (JObj [("type", JStr "ProductItemAdded");
                             ("kind", JStr "event");
                             ("data", JObj [("productId", JStr "123")]);
                             ("timestamp", JStr "0");
                             ("messageId", JStr "id-1")]);
     deliveryAttempt := 1 |}.

Definition productItemAddedEvent : value :=
  VObj [("type", VStr "ProductItemAdded");
        ("data", VObj [("productId", VStr "123")])].

(** Four subscribers of [ProductItemAdded], and a delivery in which the first
    returns, the second fails permanently and the third fails with a network
    error. *)
Definition fourSubscribers : gmap string (list handler) :=
  {[ "ProductItemAdded" := [HandlerRef 1; HandlerRef 2; HandlerRef 3; HandlerRef 4] ]}.

Definition interruptedDelivery : list Effects.event :=
  [(InvokeHandler (HandlerRef 1) productItemAddedEvent, Resolved VUndefined);
   (InvokeHandler (HandlerRef 2) productItemAddedEvent,
    Rejected (EmmettError "Product not found"));
   (InvokeHandler (HandlerRef 3) productItemAddedEvent,
    Rejected (Error "Network unreachable"))].

End MessageHandler.

(** ** topicManager.ts *)

Module TopicManager.
Import Js Effects.

(** The default [prefix] of the naming functions. *)
Definition defaultPrefix : string := "emmett".

Definition getCommandTopicName (commandType prefix : string) : string :=
  prefix +:+ "-cmd-" +:+ commandType.

Definition getEventTopicName (eventType prefix : string) : string :=
  prefix +:+ "-evt-" +:+ eventType.

Definition getCommandSubscriptionName (commandType instanceId prefix : string) : string :=
  prefix +:+ "-cmd-" +:+ commandType +:+ "-" +:+ instanceId.

Definition getEventSubscriptionName (eventType subscriptionId prefix : string) : string :=
  prefix +:+ "-evt-" +:+ eventType +:+ "-" +:+ subscriptionId.

(** [pubsub.topic(name)] and [topic.subscription(name)] build local references. *)
Record Topic : Type := { topicName : string }.

Record Subscription : Type := {
  subscriptionTopic : Topic;
  subscriptionName : string
}.

(** [try { p } catch (error) { h error }] where the handler may throw in turn. *)
Definition tryCatchRethrow {A} (p : prog (result A)) (h : thrown -> prog (result A)) :
    prog (result A) :=
  r ← p;
  match r with
  | Ok a => Ret (Ok a)
  | Throw e => h e
  end.

(** The inner [catch] of both functions: only code 6, ALREADY_EXISTS, is ignored. *)
Definition ignoreAlreadyExists (createError : thrown) : prog (result unit) :=
  if bool_decide (codeOf createError <> Some 6)
  then Ret (Throw createError)
  else Ret (Ok tt).

(** [getOrCreateTopic] *)
Definition getOrCreateTopic (name : string) : prog (result Topic) :=
  let topic := {| topicName := name |} in
  tryCatchRethrow
    (andThen (await (TopicExists name)) (fun exists_ =>
     andThen (if negb (truthy exists_)
              then tryCatchRethrow
                     (andThen (await (TopicCreate name)) (fun _ => Ret (Ok tt)))
                     ignoreAlreadyExists
              else Ret (Ok tt)) (fun _ =>
     Ret (Ok topic))))
    (fun error =>
       Ret (Throw (Error ("Failed to get or create topic " +:+ name +:+ ": "
                          +:+ describe error)))).

(** A field spread into the configuration only when it is truthy. *)
Definition whenNonZero (n : option Z) : option Z :=
  match n with
  | Some 0 => None
  | _ => n
  end.

Definition whenNonEmpty (s : option string) : option string :=
  match s with
  | Some EmptyString => None
  | _ => s
  end.

(** The [config] object of [getOrCreateSubscription]. *)
Definition subscriptionConfig (options : option SubscriptionOptions) : SubscriptionOptions :=
  {| ackDeadlineSeconds := o ← options; whenNonZero (ackDeadlineSeconds o);
     retryPolicy :=
       o ← options; policy ← retryPolicy o;
       Some {| minimumBackoff := minimumBackoff policy;
               maximumBackoff := maximumBackoff policy |};
     deadLetterPolicy :=
       o ← options; policy ← deadLetterPolicy o;
       Some {| deadLetterTopic := whenNonEmpty (deadLetterTopic policy);
               maxDeliveryAttempts := whenNonZero (maxDeliveryAttempts policy) |} |}.

(** [getOrCreateSubscription] *)
Definition getOrCreateSubscription (topic : Topic) (name : string)
    (options : option SubscriptionOptions) : prog (result Subscription) :=
  let subscription := {| subscriptionTopic := topic; subscriptionName := name |} in
  tryCatchRethrow
    (andThen (await (SubscriptionExists (topicName topic) name)) (fun exists_ =>
     andThen (if negb (truthy exists_)
              then
                let config := subscriptionConfig options in
                tryCatchRethrow
                  (andThen (await (SubscriptionCreate (topicName topic) name config))
                     (fun _ => Ret (Ok tt)))
                  ignoreAlreadyExists
              else Ret (Ok tt)) (fun _ =>
     Ret (Ok subscription))))
    (fun error =>
       Ret (Throw (Error ("Failed to get or create subscription " +:+ name +:+ ": "
                          +:+ describe error)))).

(** ** The provisioning contract in words *)

(** Ensuring a resource: the existence check, then the creation if the
    resource is absent.  One failure is absorbed, a creation rejected with code
    6; every other failure comes out wrapped. *)
Inductive ensured {R : Type} (existsCall createCall : call) (resource : R)
    (wrap : thrown -> thrown) : list event -> result R -> Prop :=
| ensured_present v :
    truthy v = true ->
    ensured existsCall createCall resource wrap
      [(existsCall, Resolved v)] (Ok resource)
| ensured_created v w :
    truthy v = false ->
    ensured existsCall createCall resource wrap
      [(existsCall, Resolved v); (createCall, Resolved w)] (Ok resource)
| ensured_raced v e :
    truthy v = false -> codeOf e = Some 6 ->
    ensured existsCall createCall resource wrap
      [(existsCall, Resolved v); (createCall, Rejected e)] (Ok resource)
| ensured_check_failed e :
    ensured existsCall createCall resource wrap
      [(existsCall, Rejected e)] (Throw (wrap e))
| ensured_create_failed v e :
    truthy v = false -> codeOf e <> Some 6 ->
    ensured existsCall createCall resource wrap
      [(existsCall, Resolved v); (createCall, Rejected e)] (Throw (wrap e)).

Definition wrapTopicError (name : string) (error : thrown) : thrown :=
  Error ("Failed to get or create topic " +:+ name +:+ ": " +:+ describe error).

Definition wrapSubscriptionError (name : string) (error : thrown) : thrown :=
  Error ("Failed to get or create subscription " +:+ name +:+ ": " +:+ describe error).

(** The shape both functions share. *)
Definition ensureResource {R} (existsCall createCall : call) (resource : R)
    (wrap : thrown -> thrown) : prog (result R) :=
  tryCatchRethrow
    (andThen (await existsCall) (fun exists_ =>
     andThen (if negb (truthy exists_)
              then tryCatchRethrow
                     (andThen (await createCall) (fun _ => Ret (Ok tt)))
                     ignoreAlreadyExists
              else Ret (Ok tt)) (fun _ =>
     Ret (Ok resource))))
    (fun error => Ret (Throw (wrap error))).

(** Two instances start together: the second finds the topic created under
    its feet; and a creation refused for lack of permission. *)
Definition alreadyExists : thrown :=
  ErrorObject false "6 ALREADY_EXISTS: Topic already exists" (Some 6).

Definition permissionDenied : thrown :=
  ErrorObject false "7 PERMISSION_DENIED: User not authorized" (Some 7).

End TopicManager.

(** ** scheduler.ts *)

Module Scheduler.
Import Js Effects.
Import Serialization (Message, serialize).
Import TopicManager (Topic, topicName).

(** [ScheduleOptions]: [{ afterInMs }] or [{ at }].  [afterInMs] is an integral
    number of milliseconds.  The source takes any number: [new Date] cuts off
    the fraction of a sum that has one, and gives an Invalid Date for [NaN];
    such delays are left out. *)
Inductive ScheduleOptions : Type :=
| AfterInMs (afterInMs : Z)
| At (date : option Z).

(** [ScheduledMessage], what [dequeue] returns. *)
Record ScheduledMessage : Type := {
  message : Message;
  options : option ScheduleOptions
}.

(** [ScheduledMessageInfo] of types.ts, what the scheduler keeps. *)
Record ScheduledMessageInfo : Type := {
  infoMessage : Message;
  infoOptions : option ScheduleOptions;
  scheduledAt : option Z
}.

(** [a <= b] and [a > b] on two [Date]s compare their time values; with an
    Invalid Date on either side both are [false]. *)
Definition dateLe (a b : option Z) : bool :=
  match a, b with
  | Some x, Some y => x <=? y
  | _, _ => false
  end.

Definition dateGt (a b : option Z) : bool :=
  match a, b with
  | Some x, Some y => y <? x
  | _, _ => false
  end.

(** [calculateScheduledTime]; [now] is the time [new Date()] reads.  The sum
    of two integral numbers is exact whenever it is in the range of [Date]. *)
Definition calculateScheduledTime (now : Z) (opts : option ScheduleOptions) : option Z :=
  match opts with
  | None => Some now
  | Some (AfterInMs afterInMs) => newDate (now + afterInMs)
  | Some (At date) => date
  end.

(** [filterReadyMessages] *)
Definition filterReadyMessages (pending : list ScheduledMessageInfo) (now : option Z) :
    list ScheduledMessageInfo :=
  List.filter (fun msg => dateLe (scheduledAt msg) now) pending.

(** The fields of [MessageScheduler]. *)
Record MessageScheduler : Type := {
  pendingMessages : list ScheduledMessageInfo;
  useEmulator : bool;
  topicPrefix : string;
  scheduledTopic : option Topic
}.

(** [new MessageScheduler(config)] *)
Definition newMessageScheduler (emulator : bool) (scheduled : option Topic)
    (prefix : option string) : MessageScheduler :=
  {| pendingMessages := [];
     useEmulator := emulator;
     topicPrefix := default "emmett" prefix;
     scheduledTopic := scheduled |}.

Definition setPendingMessages (s : MessageScheduler) (pending : list ScheduledMessageInfo) :
    MessageScheduler :=
  {| pendingMessages := pending;
     useEmulator := useEmulator s;
     topicPrefix := topicPrefix s;
     scheduledTopic := scheduledTopic s |}.

Definition setScheduledTopic (s : MessageScheduler) (topic : Topic) : MessageScheduler :=
  {| pendingMessages := pendingMessages s;
     useEmulator := useEmulator s;
     topicPrefix := topicPrefix s;
     scheduledTopic := Some topic |}.

Section Scheduling.
Context {api : DateApi}.

(** [publishScheduledMessage]: the whole body is one [try]; the scheduler is
    returned as the call leaves it. *)
Definition publishScheduledMessage (now : Z) (uuid : string) (msg : Message)
    (at_ : option Z) (s : MessageScheduler) : prog (result unit * MessageScheduler) :=
  let failed (s' : MessageScheduler) (error : thrown) :=
    (Throw (Error ("Failed to publish scheduled message " +:+ Serialization.type msg +:+ ": "
                   +:+ describe error)),
     s') in
  let send (topic : Topic) (s' : MessageScheduler) : prog (result unit * MessageScheduler) :=
    match serialize now uuid msg with
    | Throw error => Ret (failed s' error)
    | Ok buffer =>
        match at_ with
        | None => Ret (failed s' (Error "Invalid time value"))
        | Some t =>
            Await (TopicPublish (topicName topic) buffer
                     [("messageType", Serialization.type msg);
                      ("publishTime", toISOString t)])
              (fun ans =>
                 match ans with
                 | Resolved _ => Ret (Ok tt, s')
                 | Rejected error => Ret (failed s' error)
                 end)
        end
    end in
  match scheduledTopic s with
  | Some topic => send topic s
  | None =>
      let topic := {| topicName := topicPrefix s +:+ "-scheduled-messages" |} in
      let s' := setScheduledTopic s topic in
      Await (TopicExists (topicName topic))
        (fun ans =>
           match ans with
           | Rejected error => Ret (failed s' error)
           | Resolved exists_ =>
               if negb (truthy exists_)
               then Await (TopicCreate (topicName topic))
                      (fun ans' =>
                         match ans' with
                         | Rejected error => Ret (failed s' error)
                         | Resolved _ => send topic s'
                         end)
               else send topic s'
           end)
  end.

(** [schedule] *)
Definition schedule (now : Z) (uuid : string) (msg : Message)
    (opts : option ScheduleOptions) (s : MessageScheduler) :
    prog (result unit * MessageScheduler) :=
  let at_ := calculateScheduledTime now opts in
  if useEmulator s
  then Ret (Ok tt,
            setPendingMessages s
              (pendingMessages s
               ++ [{| infoMessage := msg; infoOptions := opts; scheduledAt := at_ |}]))
  else publishScheduledMessage now uuid msg at_ s.

End Scheduling.

(** [dequeue]; [now] is the time [new Date()] reads. *)
Definition dequeue (now : Z) (s : MessageScheduler) : list ScheduledMessage * MessageScheduler :=
  if negb (useEmulator s) then ([], s)
  else
    let now' := Some now in
    let ready := filterReadyMessages (pendingMessages s) now' in
    (List.map (fun info => {| message := infoMessage info; options := infoOptions info |}) ready,
     setPendingMessages s
       (List.filter (fun msg => dateGt (scheduledAt msg) now') (pendingMessages s))).

(** [getPendingCount] and [clearPending] *)
Definition getPendingCount (s : MessageScheduler) : nat :=
  if useEmulator s then length (pendingMessages s) else 0%nat.

Definition clearPending (s : MessageScheduler) : MessageScheduler :=
  if useEmulator s then setPendingMessages s [] else s.

(** A reminder, and the scheduler of the emulator after
    [schedule(reminder, { at: new Date(NaN) })]. *)
Definition reminder : Message :=
  {| Serialization.type := "Reminder";
     Serialization.data := VObj [];
     Serialization.metadata := None |}.

Definition undatedReminder : ScheduledMessageInfo :=
  {| infoMessage := reminder; infoOptions := Some (At None); scheduledAt := None |}.

(** The entry as [dequeue] hands it out. *)
Definition released (info : ScheduledMessageInfo) : ScheduledMessage :=
  {| message := infoMessage info; options := infoOptions info |}.

End Scheduler.

(** ** pubsubMessageBus.ts *)

Module PubSubMessageBus.
Import Js Effects.
Import Serialization (Message, MessageKind, command, event, kindName, serialize).
Import TopicManager.

(** [determineMessageKindFallback] *)
Definition determineMessageKindFallback (messageType : string) : MessageKind :=
  let typeStr := toLowerCase messageType in
  if includes typeStr "command" then command else event.

(** The resolved configuration of [getPubSubMessageBus]. *)
Record Config : Type := {
  instanceId : string;
  topicPrefix : string;
  autoCreateResources : bool;
  cleanupOnClose : bool;
  subscriptionOptions : option SubscriptionOptions
}.

(** [SubscriptionInfo] of types.ts *)
Record SubscriptionInfo : Type := {
  topic : Topic;
  subscription : Subscription;
  messageType : string;
  kind : MessageKind
}.

(** A call of [createSubscriptionForType] that was started and not awaited. *)
Record Provisioning : Type := {
  provisionedType : string;
  provisionedKind : MessageKind;
  provisionedId : option string
}.

(** The closure state of one bus.  [uuidSource] and [uuidsDrawn] stand for
    [generateUUID]: the identifiers it will return, and how many it has;
    [detached] lists the provisioning started by late registrations.  (The
    scheduler, which registrations and publications do not touch, is kept
    apart: see [Scheduler.MessageScheduler].) *)
Record Bus : Type := {
  config : Config;
  handlers : gmap string (list handler);
  subscriptionHandlers : gmap string handler;
  eventSubscriptionIds : gmap string (list string);
  commandTypes : gset string;
  eventTypes : gset string;
  subscriptions : list SubscriptionInfo;
  started : bool;
  uuidSource : nat -> string;
  uuidsDrawn : nat;
  detached : list Provisioning
}.

(** The bus [getPubSubMessageBus(config)] returns. *)
Definition newBus (cfg : Config) (uuids : nat -> string) : Bus :=
  {| config := cfg;
     handlers := ∅;
     subscriptionHandlers := ∅;
     eventSubscriptionIds := ∅;
     commandTypes := ∅;
     eventTypes := ∅;
     subscriptions := [];
     started := false;
     uuidSource := uuids;
     uuidsDrawn := 0;
     detached := [] |}.

(** [determineMessageKind] *)
Definition determineMessageKind (bus : Bus) (messageType : string) : MessageKind :=
  if bool_decide (messageType ∈ commandTypes bus) then command
  else if bool_decide (messageType ∈ eventTypes bus) then event
  else determineMessageKindFallback messageType.

(** [ensureStarted] *)
Definition ensureStarted (bus : Bus) : result unit :=
  if negb (started bus)
  then Throw (Error
         "Message bus is not started. Call start() before sending/publishing messages.")
  else Ok tt.

Section Publishing.
Context {api : DateApi}.

(** [publishMessage]; [now] and [uuid] are what [serialize] reads from the
    clock and from [randomUUID]. *)
Definition publishMessage (now : Z) (uuid : string) (bus : Bus) (message : Message)
    (k : MessageKind) : prog (result unit) :=
  match ensureStarted bus with
  | Throw error => Ret (Throw error)
  | Ok _ =>
      let name :=
        match k with
        | command => getCommandTopicName (Serialization.type message) (topicPrefix (config bus))
        | event => getEventTopicName (Serialization.type message) (topicPrefix (config bus))
        end in
      tryCatchRethrow
        (andThen
           (if negb (autoCreateResources (config bus))
            then
              andThen (await (TopicExists name)) (fun exists_ =>
              if negb (truthy exists_)
              then Ret (Throw (Error ("Topic " +:+ name
                                      +:+ " does not exist and autoCreateResources is disabled")))
              else Ret (Ok tt))
            else
              andThen (await (TopicExists name)) (fun exists_ =>
              if negb (truthy exists_)
              then andThen (await (TopicCreate name)) (fun _ => Ret (Ok tt))
              else Ret (Ok tt)))
           (fun _ =>
            andThen (Ret (serialize now uuid message)) (fun buffer =>
            andThen (await (TopicPublish name buffer
                              [("messageType", Serialization.type message);
                               ("messageKind", kindName k)]))
              (fun _ => Ret (Ok tt)))))
        (fun error =>
           Ret (Throw (Error ("Failed to publish " +:+ kindName k +:+ " "
                              +:+ Serialization.type message +:+ " to topic " +:+ name
                              +:+ ": " +:+ describe error))))
  end.

(** [send] and [publish] *)
Definition send (now : Z) (uuid : string) (bus : Bus) (cmd : Message) : prog (result unit) :=
  publishMessage now uuid bus cmd command.

Definition publish (now : Z) (uuid : string) (bus : Bus) (evt : Message) : prog (result unit) :=
  publishMessage now uuid bus evt event.

End Publishing.

(** One turn of the loop of [handle], for a type that has no handler yet. *)
Definition registerCommand (commandHandler : handler) (commandType : string) (bus : Bus) : Bus :=
  {| config := config bus;
     handlers := <[commandType := [commandHandler]]> (handlers bus);
     subscriptionHandlers := subscriptionHandlers bus;
     eventSubscriptionIds := eventSubscriptionIds bus;
     commandTypes := {[commandType]} ∪ commandTypes bus;
     eventTypes := eventTypes bus;
     subscriptions := subscriptions bus;
     started := started bus;
     uuidSource := uuidSource bus;
     uuidsDrawn := uuidsDrawn bus;
     detached :=
       if started bus
       then detached bus
            ++ [{| provisionedType := commandType; provisionedKind := command;
                   provisionedId := None |}]
       else detached bus |}.

(** [handle]: the bus is returned as the call leaves it, also when it throws. *)
Fixpoint handle (commandHandler : handler) (commandTypeNames : list string) (bus : Bus) :
    result unit * Bus :=
  match commandTypeNames with
  | [] => (Ok tt, bus)
  | commandType :: rest =>
      if bool_decide (is_Some (handlers bus !! commandType))
      then (Throw (EmmettError
                     ("Handler already registered for command " +:+ commandType +:+ ". "
                      +:+ "Commands must have exactly one handler.")),
            bus)
      else handle commandHandler rest (registerCommand commandHandler commandType bus)
  end.

(** One turn of the loop of [subscribe]. *)
Definition registerEvent (eventHandler : handler) (eventType : string) (bus : Bus) : Bus :=
  let subscriptionId := uuidSource bus (uuidsDrawn bus) in
  let existing := default [] (handlers bus !! eventType) in
  let existingIds := default [] (eventSubscriptionIds bus !! eventType) in
  {| config := config bus;
     handlers := <[eventType := (existing ++ [eventHandler])%list]> (handlers bus);
     subscriptionHandlers := <[subscriptionId := eventHandler]> (subscriptionHandlers bus);
     eventSubscriptionIds :=
       <[eventType := (existingIds ++ [subscriptionId])%list]> (eventSubscriptionIds bus);
     commandTypes := commandTypes bus;
     eventTypes := {[eventType]} ∪ eventTypes bus;
     subscriptions := subscriptions bus;
     started := started bus;
     uuidSource := uuidSource bus;
     uuidsDrawn := S (uuidsDrawn bus);
     detached :=
       if started bus
       then detached bus
            ++ [{| provisionedType := eventType; provisionedKind := event;
                   provisionedId := Some subscriptionId |}]
       else detached bus |}.

(** [subscribe] *)
Fixpoint subscribe (eventHandler : handler) (eventTypeNames : list string) (bus : Bus) :
    result unit * Bus :=
  match eventTypeNames with
  | [] => (Ok tt, bus)
  | eventType :: rest => subscribe eventHandler rest (registerEvent eventHandler eventType bus)
  end.

(** The message of the duplicate-handler [EmmettError]. *)
Definition duplicateCommandHandler (commandType : string) : thrown :=
  EmmettError ("Handler already registered for command " +:+ commandType +:+ ". "
               +:+ "Commands must have exactly one handler.").

(** A bus of the shopping cart, with the defaults of the configuration. *)
Definition cartBus : Bus :=
  newBus {| instanceId := "instance-1"; topicPrefix := "emmett";
            autoCreateResources := true; cleanupOnClose := false;
            subscriptionOptions := None |}
    (fun n => "subscriber-" +:+ NilEmpty.string_of_uint (Nat.to_uint n)).

(** What [ensureStarted] throws. *)
Definition notStarted : thrown :=
  Error "Message bus is not started. Call start() before sending/publishing messages.".

End PubSubMessageBus.

(** ** serialization.ts: message identifiers, and where [Date]s sit *)

Module MessageIds.
Import Js.

(** [obj[k] = v] on the entries of an object: an existing property keeps its
    place and takes the new value, a new one comes last. *)
Fixpoint setProperty (k : string) (v : value) (entries : list (string * value)) :
    list (string * value) :=
  match entries with
  | [] => [(k, v)]
  | (k', x) :: r =>
      if String.eqb k k' then (k', v) :: r else (k', x) :: setProperty k v r
  end.

(** [attachMessageId]: [{ ...message, __messageId: messageId }], on the own
    properties of the message. *)
Definition attachMessageId (message : list (string * value)) (messageId : string) :
    list (string * value) :=
  setProperty "__messageId" (VStr messageId) message.

(** [extractMessageId] *)
Definition extractMessageId (message : value) : value :=
  if hasProperty "__messageId" message then getProperty "__messageId" message
  else VUndefined.

(** No [Date] anywhere in [v]. *)
Fixpoint dateFree (v : value) : bool :=
  match v with
  | VDate _ => false
  | VArr items => forallb dateFree items
  | VObj entries => forallb (fun e => dateFree (snd e)) entries
  | _ => true
  end.

(** Some [Date] in [v] is an Invalid Date. *)
Fixpoint hasInvalidDate (v : value) : bool :=
  match v with
  | VDate None => true
  | VArr items => existsb hasInvalidDate items
  | VObj entries => existsb (fun e => hasInvalidDate (snd e)) entries
  | _ => false
  end.

(** The names of the members of an envelope. *)
Definition envelopeFields : list string :=
  ["type"; "kind"; "data"; "metadata"; "timestamp"; "messageId"].

(** The [RangeError] of [toISOString] on an Invalid Date. *)
Definition rangeError : thrown := Error "Invalid time value".

(** Some [Date] in the [data] or in the [metadata] of [m] is invalid. *)
Definition invalidDates (m : Serialization.Message) : bool :=
  hasInvalidDate (Serialization.data m)
  || match Serialization.metadata m with
     | Some md => hasInvalidDate md
     | None => false
     end.

(** No object anywhere in [v] has an own property named [__proto__]. *)
Fixpoint protoFree (v : value) : bool :=
  match v with
  | VArr items => forallb protoFree items
  | VObj entries =>
      forallb (fun e => Serialization.assignable e && protoFree (snd e)) entries
  | _ => true
  end.

(** Some [BigInt] sits in [v], elsewhere than under a property named
    [__proto__]. *)
Fixpoint hasBigInt (v : value) : bool :=
  match v with
  | VBigInt _ => true
  | VArr items => existsb hasBigInt items
  | VObj entries =>
      existsb (fun e => Serialization.assignable e && hasBigInt (snd e)) entries
  | _ => false
  end.

Definition bigInts (m : Serialization.Message) : bool :=
  hasBigInt (Serialization.data m)
  || match Serialization.metadata m with
     | Some md => hasBigInt md
     | None => false
     end.

Section Marking.
Context {api : DateApi}.

(** [v] with the marker of every valid [Date] in the place of the [Date], and
    without the own properties named [__proto__]. *)
Fixpoint withMarkers (v : value) : value :=
  match v with
  | VDate (Some t) => Serialization.dateMarker (toISOString t)
  | VArr items => VArr (List.map withMarkers items)
  | VObj entries =>
      VObj (List.filter Serialization.assignable
              (List.map (fun e => (fst e, withMarkers (snd e))) entries))
  | _ => v
  end.

Definition markEntry (e : string * value) : string * value :=
  (fst e, withMarkers (snd e)).

(** What [transformDatesToMarkers] does to [v], by the [Date]s in [v]. *)
Definition transformed (v : value) : Prop :=
  (hasInvalidDate v = true ->
     Serialization.transformDatesToMarkers v = Throw rangeError)
  /\ (hasInvalidDate v = false ->
      Serialization.transformDatesToMarkers v = Ok (withMarkers v)).

End Marking.

(** The message [deserialize] builds from a document that is no object. *)
Definition untypedMessage : value :=
  VObj [("type", VUndefined); ("data", VUndefined)].

(** A command as the caller builds it, with a property the bus knows nothing
    of. *)
Definition tracedCommand : list (string * value) :=
  [("type", VStr "AddProductItem");
   ("data", VObj [("productId", VStr "123"); ("quantity", VNum 2)]);
   ("traceId", VStr "t-1")].

End MessageIds.

(** ** Words for traces *)

Module Protocol.
Import Js Effects.

(** The awaited call is a publication. *)
Definition isPublish (e : event) : bool :=
  match fst e with
  | TopicPublish _ _ _ => true
  | _ => false
  end.

(** The awaited call is the invocation of a handler. *)
Definition isInvocation (e : event) : bool :=
  match fst e with
  | InvokeHandler _ _ => true
  | _ => false
  end.

(** The promise was fulfilled. *)
Definition fulfilled (ans : answer) : bool :=
  match ans with
  | Resolved _ => true
  | Rejected _ => false
  end.

End Protocol.

(** ** pubsubMessageBus.ts: the publication contract in words *)

Module Publication.
Import Js Effects TopicManager PubSubMessageBus.
Import Serialization (Message, MessageKind, command, event, kindName).

(** The topic [publishMessage] addresses. *)
Definition topicOf (bus : Bus) (message : Message) (k : MessageKind) : string :=
  match k with
  | command => getCommandTopicName (Serialization.type message) (topicPrefix (config bus))
  | event => getEventTopicName (Serialization.type message) (topicPrefix (config bus))
  end.

(** The attributes it publishes with. *)
Definition publishAttributes (message : Message) (k : MessageKind) : list (string * string) :=
  [("messageType", Serialization.type message); ("messageKind", kindName k)].

(** The [Error] its [catch] throws, and the one it throws itself for a topic
    that is absent when nothing may be created. *)
Definition wrapPublishError (k : MessageKind) (messageType name : string) (error : thrown) :
    thrown :=
  Error ("Failed to publish " +:+ kindName k +:+ " " +:+ messageType
         +:+ " to topic " +:+ name +:+ ": " +:+ describe error).

Definition missingTopic (name : string) : thrown :=
  Error ("Topic " +:+ name +:+ " does not exist and autoCreateResources is disabled").

(** The [try] of [publishMessage], on the topic name, the outcome of
    [serialize], the attributes and the wrapping of the [catch]. *)
Definition publishTo (autoCreate : bool) (name : string) (payload : result Buffer)
    (attributes : list (string * string)) (wrap : thrown -> thrown) : prog (result unit) :=
  tryCatchRethrow
    (andThen
       (if negb autoCreate
        then
          andThen (await (TopicExists name)) (fun exists_ =>
          if negb (truthy exists_)
          then Ret (Throw (missingTopic name))
          else Ret (Ok tt))
        else
          andThen (await (TopicExists name)) (fun exists_ =>
          if negb (truthy exists_)
          then andThen (await (TopicCreate name)) (fun _ => Ret (Ok tt))
          else Ret (Ok tt)))
       (fun _ =>
        andThen (Ret payload) (fun buffer =>
        andThen (await (TopicPublish name buffer attributes)) (fun _ => Ret (Ok tt)))))
    (fun error => Ret (Throw (wrap error))).

(** The calls after which the topic is there: it was found, or it was absent
    and its creation, which must be allowed, was fulfilled. *)
Inductive topicReady (autoCreate : bool) (name : string) : list Effects.event -> Prop :=
| topicReady_found v :
    truthy v = true ->
    topicReady autoCreate name [(TopicExists name, Resolved v)]
| topicReady_created v w :
    autoCreate = true -> truthy v = false ->
    topicReady autoCreate name
      [(TopicExists name, Resolved v); (TopicCreate name, Resolved w)].

(** A publication: the topic is made ready, then the message is serialized
    and published.  The first failure ends it, and comes out wrapped. *)
Inductive published (autoCreate : bool) (name : string) (payload : result Buffer)
    (attributes : list (string * string)) (wrap : thrown -> thrown) :
    list Effects.event -> result unit -> Prop :=
| published_check_failed e :
    published autoCreate name payload attributes wrap
      [(TopicExists name, Rejected e)] (Throw (wrap e))
| published_topic_missing v :
    autoCreate = false -> truthy v = false ->
    published autoCreate name payload attributes wrap
      [(TopicExists name, Resolved v)] (Throw (wrap (missingTopic name)))
| published_create_failed v e :
    autoCreate = true -> truthy v = false ->
    published autoCreate name payload attributes wrap
      [(TopicExists name, Resolved v); (TopicCreate name, Rejected e)] (Throw (wrap e))
| published_not_serialized pre e :
    topicReady autoCreate name pre -> payload = Throw e ->
    published autoCreate name payload attributes wrap pre (Throw (wrap e))
| published_refused pre buffer e :
    topicReady autoCreate name pre -> payload = Ok buffer ->
    published autoCreate name payload attributes wrap
      (pre ++ [(TopicPublish name buffer attributes, Rejected e)]) (Throw (wrap e))
| published_sent pre buffer v :
    topicReady autoCreate name pre -> payload = Ok buffer ->
    published autoCreate name payload attributes wrap
      (pre ++ [(TopicPublish name buffer attributes, Resolved v)]) (Ok tt).

(** The awaited call creates a topic. *)
Definition isTopicCreate (e : Effects.event) : bool :=
  match fst e with
  | TopicCreate _ => true
  | _ => false
  end.

(** A bus that is started, with the defaults of the configuration. *)
Definition startedCartBus : Bus :=
  {| config := config cartBus;
     handlers := handlers cartBus;
     subscriptionHandlers := subscriptionHandlers cartBus;
     eventSubscriptionIds := eventSubscriptionIds cartBus;
     commandTypes := commandTypes cartBus;
     eventTypes := eventTypes cartBus;
     subscriptions := subscriptions cartBus;
     started := true;
     uuidSource := uuidSource cartBus;
     uuidsDrawn := uuidsDrawn cartBus;
     detached := detached cartBus |}.

(** A client that fulfils every call with [true], and one that is offline. *)
Definition online (n : nat) (c : call) : answer := Resolved (VBool true).

Definition offline (n : nat) (c : call) : answer :=
  Rejected (Error "getaddrinfo ENOTFOUND pubsub.googleapis.com").

End Publication.

(** ** pubsubMessageBus.ts: the registry of a bus *)

Module Registry.
Import Js Effects PubSubMessageBus.
Import Serialization (MessageKind, command, event).

(** A call of [handle] or of [subscribe]. *)
Inductive registration : Type :=
| Handle (commandHandler : handler) (commandTypeNames : list string)
| Subscribe (eventHandler : handler) (eventTypeNames : list string).

(** The bus after the call, whether it returned or threw. *)
Definition register (bus : Bus) (r : registration) : Bus :=
  match r with
  | Handle h types => snd (handle h types bus)
  | Subscribe h types => snd (subscribe h types bus)
  end.

(** The bus after a series of calls on the bus [getPubSubMessageBus]
    returned. *)
Definition registered (cfg : Config) (uuids : nat -> string) (calls : list registration) :
    Bus :=
  foldl register (newBus cfg uuids) calls.

(** [handlers.get(T) ?? []] and [eventSubscriptionIds.get(T) ?? []] *)
Definition handlersOf (bus : Bus) (T : string) : list handler :=
  default [] (handlers bus !! T).

Definition subscriptionIdsOf (bus : Bus) (T : string) : list string :=
  default [] (eventSubscriptionIds bus !! T).

(** What the maps and sets of a bus have to do with one another. *)
Record wellFormed (bus : Bus) : Prop := {
  wf_nonempty : forall T hs, handlers bus !! T = Some hs -> hs <> [];
  wf_types :
    forall T, is_Some (handlers bus !! T) <-> T ∈ commandTypes bus \/ T ∈ eventTypes bus;
  wf_count :
    forall T,
      length (handlersOf bus T)
      = (length (subscriptionIdsOf bus T)
         + if bool_decide (T ∈ commandTypes bus) then 1 else 0)%nat;
  wf_ids : forall T, T ∈ eventTypes bus <-> subscriptionIdsOf bus T <> [];
  wf_subscribers :
    forall T id, id ∈ subscriptionIdsOf bus T -> is_Some (subscriptionHandlers bus !! id)
}.

(** One turn of the loop of [start] over [handlers.entries()]: the calls of
    [createSubscriptionForType] it makes for the type [T]. *)
Definition plannedFor (bus : Bus) (T : string) : list Provisioning :=
  match determineMessageKind bus T with
  | command =>
      [{| provisionedType := T; provisionedKind := command; provisionedId := None |}]
  | event =>
      List.map
        (fun subId =>
           {| provisionedType := T; provisionedKind := event; provisionedId := Some subId |})
        (default [instanceId (config bus)] (eventSubscriptionIds bus !! T))
  end.

(** [subscribe(h, T)] for each [h] of a list in turn. *)
Definition subscribeAll (hs : list handler) (T : string) (bus : Bus) : Bus :=
  foldl (fun b h => snd (subscribe h [T] b)) bus hs.

(** The cart's bus after one command handler and two subscribers were
    registered; and a bus on which one type was given a command handler and
    then a subscriber. *)
Definition cartRegistry : Bus :=
  registered (config cartBus) (uuidSource cartBus)
    [Handle (HandlerRef 1) ["AddProductItem"];
     Subscribe (HandlerRef 2) ["ProductItemAdded"];
     Subscribe (HandlerRef 3) ["ProductItemAdded"]].

Definition mixedRegistry : Bus :=
  registered (config cartBus) (uuidSource cartBus)
    [Handle (HandlerRef 1) ["AddProductItem"];
     Subscribe (HandlerRef 2) ["AddProductItem"]].

End Registry.

(** ** Listeners and clean-up: messageHandler.ts, topicManager.ts and
    [createSubscriptionForType] of pubsubMessageBus.ts *)

Module Delivery.
Import Js Effects MessageHandler TopicManager PubSubMessageBus.
Import Serialization (MessageKind, command, event).

(** What this code does to the outside: it awaits the calls of [Effects],
    settles the message it was handed with [message.ack()] or
    [message.nack()], and deletes a subscription.  The answer to [ack] and
    [nack] tells whether the method returned or threw. *)
Inductive operation : Type :=
| Awaited (c : call)
| MessageAck
| MessageNack
| SubscriptionDelete (topic subscription : string).

Inductive task (A : Type) : Type :=
| Done (a : A)
| Perform (o : operation) (k : answer -> task A).
Arguments Done {A} a.
Arguments Perform {A} o k.

(** A computation of [Effects], as a task. *)
Fixpoint lift {A} (p : prog A) : task A :=
  match p with
  | Ret a => Done a
  | Await c k => Perform (Awaited c) (fun ans => lift (k ans))
  end.

Fixpoint andAfter {A B} (t : task A) (f : A -> task B) : task B :=
  match t with
  | Done a => f a
  | Perform o k => Perform o (fun ans => andAfter (k ans) f)
  end.

(** One operation inside a [try]: a rejection, or an exception, is a throw. *)
Definition attempt (o : operation) : task (result value) :=
  Perform o (fun ans =>
    match ans with
    | Resolved v => Done (Ok v)
    | Rejected e => Done (Throw e)
    end).

(** [performs t steps a]: [t] returns [a] after exactly the operations of
    [steps], answered as [steps] says. *)
Definition step : Type := operation * answer.

Inductive performs {A : Type} : task A -> list step -> A -> Prop :=
| performs_Done a : performs (Done a) [] a
| performs_Perform o k ans steps a :
    performs (k ans) steps a -> performs (Perform o k) ((o, ans) :: steps) a.

(** The calls of a trace of [Effects], as steps. *)
Definition awaited (tr : list Effects.event) : list step :=
  List.map (fun e => (Awaited (fst e), snd e)) tr.

(** The method a listener calls for a verdict. *)
Definition settlement (verdict : AckOrNack) : operation :=
  match verdict with
  | ack => MessageAck
  | nack => MessageNack
  end.

Definition isSettlement (s : step) : bool :=
  match fst s with
  | MessageAck | MessageNack => true
  | _ => false
  end.

Section Listening.
Context {api : DateApi}.

(** The [message] callback that [createMessageListener] registers.  The
    result tells whether the callback's promise is fulfilled: it is rejected
    only if [nack] throws inside the [catch]. *)
Definition onMessage (messageType : string) (kind : MessageKind)
    (handlers : gmap string (list handler)) (message : PubSubMessage) : task (result unit) :=
  andAfter
    (lift (match kind with
           | command => handleCommandMessage message handlers messageType
           | event => handleEventMessage message handlers messageType
           end))
    (fun verdict =>
       andAfter (attempt (settlement verdict)) (fun settled =>
         match settled with
         | Ok _ => Done (Ok tt)
         | Throw _ =>
             andAfter (attempt MessageNack) (fun again =>
               match again with
               | Ok _ => Done (Ok tt)
               | Throw error => Done (Throw error)
               end)
         end)).

End Listening.

(** How a listener settles a delivery for a verdict: with the method of
    the verdict; if that method throws, with [nack]; and if [nack] throws too,
    not at all. *)
Inductive settles (verdict : AckOrNack) : list step -> result unit -> Prop :=
| settles_at_once v :
    settles verdict [(settlement verdict, Resolved v)] (Ok tt)
| settles_with_nack e v :
    settles verdict [(settlement verdict, Rejected e); (MessageNack, Resolved v)] (Ok tt)
| settles_not e e' :
    settles verdict [(settlement verdict, Rejected e); (MessageNack, Rejected e')]
      (Throw e').

(** How [deleteSubscription] goes: the subscription is deleted if it is
    found; nothing that fails is tried again or reported. *)
Inductive deletion (topic name : string) : list step -> Prop :=
| deletion_check_failed e :
    deletion topic name [(Awaited (SubscriptionExists topic name), Rejected e)]
| deletion_nothing_there v :
    truthy v = false ->
    deletion topic name [(Awaited (SubscriptionExists topic name), Resolved v)]
| deletion_requested v ans :
    truthy v = true ->
    deletion topic name
      [(Awaited (SubscriptionExists topic name), Resolved v);
       (SubscriptionDelete topic name, ans)].

(** [deleteSubscription]: the [catch] logs and returns. *)
Definition deleteSubscription (subscription : Subscription) : task unit :=
  let topic := topicName (subscriptionTopic subscription) in
  let name := subscriptionName subscription in
  andAfter (attempt (Awaited (SubscriptionExists topic name))) (fun found =>
    match found with
    | Throw _ => Done tt
    | Ok exists_ =>
        if truthy exists_
        then andAfter (attempt (SubscriptionDelete topic name)) (fun _ => Done tt)
        else Done tt
    end).

(** The map a listener reads at each delivery.  [createSubscriptionForType]
    hands [createMessageListener] either the [handlers] map of the bus itself,
    which later registrations change, or a map of its own. *)
Inductive handlerSource : Type :=
| BusHandlers
| OwnHandlers (own : gmap string (list handler)).

Record Listener : Type := {
  listenedSubscription : Subscription;
  listenedType : string;
  listenedKind : MessageKind;
  listenedHandlers : handlerSource
}.

(** A delivery to a listener, on the bus as it is then. *)
Definition deliver {api : DateApi} (bus : Bus) (l : Listener) (message : PubSubMessage) :
    task (result unit) :=
  onMessage (listenedType l) (listenedKind l)
    (match listenedHandlers l with
     | BusHandlers => handlers bus
     | OwnHandlers own => own
     end)
    message.

(** [subscriptions.push(info)] *)
Definition trackSubscription (info : SubscriptionInfo) (bus : Bus) : Bus :=
  {| config := config bus;
     handlers := handlers bus;
     subscriptionHandlers := subscriptionHandlers bus;
     eventSubscriptionIds := eventSubscriptionIds bus;
     commandTypes := commandTypes bus;
     eventTypes := eventTypes bus;
     subscriptions := (subscriptions bus ++ [info])%list;
     started := started bus;
     uuidSource := uuidSource bus;
     uuidsDrawn := uuidsDrawn bus;
     detached := detached bus |}.

(** [kind === 'event' && subscriptionId] *)
Definition ownSubscriber (kind : MessageKind) (subscriptionId : option string) :
    option string :=
  match kind, subscriptionId with
  | event, Some subId => if String.eqb subId "" then None else Some subId
  | _, _ => None
  end.

(** The end of [createSubscriptionForType], after its last [await]: it runs
    without interruption on the bus and the listeners as they are then. *)
Definition listenAndTrack (messageType : string) (kind : MessageKind)
    (subscriptionId : option string) (topic : Topic) (subscription : Subscription)
    (state : Bus * list Listener) : Bus * list Listener :=
  let (bus, listeners) := state in
  let listenWith source :=
    (listeners ++ [{| listenedSubscription := subscription; listenedType := messageType;
                      listenedKind := kind; listenedHandlers := source |}])%list in
  (trackSubscription {| topic := topic; subscription := subscription;
                        messageType := messageType; kind := kind |} bus,
   match ownSubscriber kind subscriptionId with
   | Some subId =>
       match subscriptionHandlers bus !! subId with
       | Some handler => listenWith (OwnHandlers {[ messageType := [handler] ]})
       | None => listeners
       end
   | None => listenWith BusHandlers
   end).

(** The names [createSubscriptionForType] uses. *)
Definition topicFor (cfg : Config) (messageType : string) (kind : MessageKind) : string :=
  match kind with
  | command => getCommandTopicName messageType (topicPrefix cfg)
  | event => getEventTopicName messageType (topicPrefix cfg)
  end.

Definition subscriptionFor (cfg : Config) (messageType : string) (kind : MessageKind)
    (subscriptionId : option string) : string :=
  match kind with
  | command => getCommandSubscriptionName messageType (instanceId cfg) (topicPrefix cfg)
  | event =>
      getEventSubscriptionName messageType (default (instanceId cfg) subscriptionId)
        (topicPrefix cfg)
  end.

(** [createSubscriptionForType].  It reads the configuration, which never
    changes, awaits the topic and the subscription, and ends with
    [listenAndTrack]; what it returns here is that last part, to be applied to
    the state of the bus at that moment. *)
Definition createSubscriptionForType (cfg : Config) (messageType : string)
    (kind : MessageKind) (subscriptionId : option string) :
    prog (result (Bus * list Listener -> Bus * list Listener)) :=
  andThen (getOrCreateTopic (topicFor cfg messageType kind)) (fun topic =>
  andThen (getOrCreateSubscription topic
             (subscriptionFor cfg messageType kind subscriptionId)
             (subscriptionOptions cfg)) (fun subscription =>
  Ret (Ok (listenAndTrack messageType kind subscriptionId topic subscription)))).

End Delivery.

(* ===================================================================== *)
(** * Part II: facts                                                      *)
(* ===================================================================== *)

(** ** Facts about strings *)

Module JsFacts.
Import Js.

Lemma toLowerCase_app a b :
  toLowerCase (a +:+ b) = toLowerCase a +:+ toLowerCase b.
Proof. induction a as [|c a IH]; simpl; [done|by rewrite IH]. Qed.

Lemma occurs_cons_false c x n :
  occurs c (String x n) = false -> Ascii.eqb x c = false /\ occurs c n = false.
Proof.
  simpl. intros [Hx Hn]%orb_false_iff. split; [|done].
  by rewrite Ascii.eqb_sym.
Qed.

(** A needle in which [c] does not occur cannot reach across a [c]. *)
Lemma startsWith_sep a c b n :
  occurs c n = false -> startsWith (a +:+ String c b) n = startsWith a n.
Proof.
  revert n. induction a as [|y a IH]; intros [|x n] Hc; simpl; try done.
  - apply occurs_cons_false in Hc as [-> _]. done.
  - apply occurs_cons_false in Hc as [_ Hn]. by rewrite IH.
Qed.

Lemma includes_sep a c b n :
  occurs c n = false ->
  includes (a +:+ String c b) n = includes a n || includes b n.
Proof.
  intros Hc. induction a as [|y a IH].
  - pose proof (startsWith_sep "" c b n Hc) as Hs.
    change ("" +:+ String c b) with (String c b) in *.
    change (includes (String c b) n) with (startsWith (String c b) n || includes b n).
    change (includes "" n) with (startsWith "" n || false).
    by rewrite Hs, orb_false_r.
  - change (String y a +:+ String c b) with (String y (a +:+ String c b)).
    change (includes (String y (a +:+ String c b)) n)
      with (startsWith (String y a +:+ String c b) n || includes (a +:+ String c b) n).
    rewrite (startsWith_sep (String y a) c b n Hc), IH.
    change (includes (String y a) n) with (startsWith (String y a) n || includes a n).
    by rewrite orb_assoc.
Qed.

(** A text placed between two separators that the needle does not hold. *)
Lemma includes_between p c1 t c2 q n :
  occurs c1 n = false -> occurs c2 n = false ->
  includes (p +:+ String c1 (t +:+ String c2 q)) n
  = includes p n || includes t n || includes q n.
Proof.
  intros H1 H2. rewrite (includes_sep p c1 _ n H1), (includes_sep t c2 q n H2).
  by rewrite orb_assoc.
Qed.

End JsFacts.

(** ** Facts about serialization.ts *)

Module SerializationFacts.
Import Js Serialization.

Section CodecFacts.
Context {api : DateApi}.

Lemma dateReviver_other v : isDateMarker v = false -> dateReviver v = v.
Proof. unfold dateReviver. by intros ->. Qed.

Lemma dateReviver_marker_is_Date v :
  isDateMarker v = true -> exists t, dateReviver v = VDate t.
Proof.
  unfold dateReviver. intros Hm. rewrite Hm.
  destruct v; try discriminate. unfold isDateMarker in Hm.
  apply andb_true_iff in Hm as [_ Hv].
  destruct (getProperty "value" (VObj entries)); try discriminate; eauto.
Qed.

Lemma dateReviver_array items : dateReviver (VArr items) = VArr items.
Proof. reflexivity. Qed.

Lemma transform_array items :
  transformDatesToMarkers (VArr items)
  = (items' ← mapM transformDatesToMarkers items; Ok (VArr items')).
Proof. reflexivity. Qed.

Lemma transform_object entries :
  transformDatesToMarkers (VObj entries)
  = (entries' ← mapM transformEntry entries; Ok (VObj (List.filter assignable entries'))).
Proof. reflexivity. Qed.

Lemma stringify_array items :
  stringify (VArr items) = (items' ← mapM stringifyItem items; Ok (Some (JArr items'))).
Proof. reflexivity. Qed.

Lemma stringify_object entries :
  stringify (VObj entries)
  = (members ← mapM stringifyMember entries; Ok (Some (JObj (omap id members)))).
Proof. reflexivity. Qed.

Lemma parse_array items :
  parseWith dateReviver (JArr items) = VArr (List.map (parseWith dateReviver) items).
Proof. reflexivity. Qed.

Lemma parse_object members :
  parseWith dateReviver (JObj members) = dateReviver (VObj (List.map parseMember members)).
Proof. reflexivity. Qed.

Lemma mapM_result_cons {A B} (f : A -> result B) x l :
  mapM f (x :: l) = (y ← f x; k ← mapM f l; Ok (y :: k)).
Proof. reflexivity. Qed.

Lemma mapM_result_cons_inv {A B} (f : A -> result B) x l l' :
  mapM f (x :: l) = Ok l' ->
  exists y k, f x = Ok y /\ mapM f l = Ok k /\ l' = y :: k.
Proof.
  rewrite mapM_result_cons. destruct (f x) as [y|]; [|done]. simpl.
  destruct (mapM f l) as [k|]; [|done]. simpl. intros [= <-]. by exists y, k.
Qed.

Lemma mapM_result_length {A B} (f : A -> result B) l l' :
  mapM f l = Ok l' -> length l' = length l.
Proof.
  revert l'. induction l as [|x l IH]; intros l'.
  - by intros [= <-].
  - intros (y & k & _ & Hk & ->)%mapM_result_cons_inv. simpl. f_equal. by apply IH.
Qed.

Lemma transformEntry_pair k x :
  transformEntry (k, x) = (v ← transformDatesToMarkers x; Ok (k, v)).
Proof. reflexivity. Qed.

Lemma stringifyItem_kept x j : stringify x = Ok (Some j) -> stringifyItem x = Ok j.
Proof. unfold stringifyItem. by intros ->. Qed.

Lemma stringifyMember_pair k x :
  stringifyMember (k, x) = (j ← stringify x; Ok (m ← j; Some (k, m))).
Proof. reflexivity. Qed.

Lemma stringifyMember_kept k x j :
  stringify x = Ok (Some j) -> stringifyMember (k, x) = Ok (Some (k, j)).
Proof. rewrite stringifyMember_pair. by intros ->. Qed.

Lemma omap_id_Some {A} (l : list A) : omap id (List.map Some l) = l.
Proof. unfold omap. induction l as [|x l IH]; [done|]. simpl. by f_equal. Qed.

Lemma omap_id_length {A} (l : list (option A)) : (length (omap id l) <= length l)%nat.
Proof. unfold omap. induction l as [|[x|] l IH]; simpl; lia. Qed.

Lemma comesBack_items items :
  Forall (fun x => faithful x = true -> comesBack x) items ->
  forallb faithful items = true ->
  exists items' js,
    mapM transformDatesToMarkers items = Ok items'
    /\ mapM stringifyItem items' = Ok js
    /\ List.map (parseWith dateReviver) js = items.
Proof.
  induction 1 as [|x r Hx _ IH]; intros Hall.
  - by exists [], [].
  - simpl in Hall. apply andb_true_iff in Hall as [Hfx Hfr].
    destruct (Hx Hfx) as (x' & j & Hx' & Hj & Hp).
    destruct (IH Hfr) as (r' & js & Hr' & Hjs & Hr).
    exists (x' :: r'), (j :: js).
    rewrite !mapM_result_cons, Hx', (stringifyItem_kept _ _ Hj). simpl.
    rewrite Hr', Hjs. simpl. by rewrite Hp, Hr.
Qed.

Lemma comesBack_entries entries :
  Forall (fun e => faithful (snd e) = true -> comesBack (snd e)) entries ->
  forallb (fun e => assignable e && faithful (snd e)) entries = true ->
  exists entries' members,
    mapM transformEntry entries = Ok entries'
    /\ List.filter assignable entries' = entries'
    /\ mapM stringifyMember entries' = Ok (List.map Some members)
    /\ List.map parseMember members = entries.
Proof.
  induction 1 as [|[k x] r Hx _ IH]; intros Hall.
  - by exists [], [].
  - cbn [forallb fst snd] in Hall, Hx.
    apply andb_true_iff in Hall as [[Hk Hfx]%andb_true_iff Hfr].
    destruct (Hx Hfx) as (x' & j & Hx' & Hj & Hp).
    destruct (IH Hfr) as (r' & members & Hr' & Hkept & Hmembers & Hr).
    exists ((k, x') :: r'), ((k, j) :: members).
    rewrite !mapM_result_cons, transformEntry_pair, Hx',
      (stringifyMember_kept _ _ _ Hj). simpl. rewrite Hr', Hmembers. simpl.
    change (assignable (k, x')) with (assignable (k, x)). rewrite Hk, Hkept.
    unfold parseMember at 1. simpl. by rewrite Hp, Hr.
Qed.

Lemma faithful_comesBack v : faithful v = true -> comesBack v.
Proof.
  induction v as [| | | | | | | | |t|items IH|entries IH] using value_induction;
    intros Hf; try discriminate;
    try (eexists _, _; repeat split; reflexivity).
  - destruct t as [t|]; [|done].
    exists (dateMarker (toISOString t)),
      (JObj [("__type", JStr "Date"); ("value", JStr (toISOString t))]).
    repeat split. cbn. unfold dateReviver. cbn.
    by rewrite dateParse_toISOString.
  - destruct (comesBack_items items IH Hf) as (items' & js & Ht & Hjs & Hr).
    exists (VArr items'), (JArr js).
    split; [by rewrite transform_array, Ht|].
    split; [by rewrite stringify_array, Hjs|].
    by rewrite parse_array, Hr.
  - simpl in Hf. apply andb_true_iff in Hf as [Hm Hf].
    destruct (comesBack_entries entries IH Hf) as (entries' & members & Ht & Hkept & Hj & Hr).
    exists (VObj entries'), (JObj members).
    split; [by rewrite transform_object, Ht; cbn; rewrite Hkept|].
    split; [by rewrite stringify_object, Hj; cbn; rewrite omap_id_Some|].
    rewrite parse_object, Hr. apply dateReviver_other. by apply negb_true_iff.
Qed.

Lemma markerFree_items items :
  Forall (fun x => comesBack x -> markerFree x = true) items ->
  forall items' js,
    mapM transformDatesToMarkers items = Ok items' ->
    mapM stringifyItem items' = Ok js ->
    List.map (parseWith dateReviver) js = items ->
    forallb markerFree items = true.
Proof.
  induction 1 as [|x r Hx _ IH]; intros items' js Ht Hjs Hr; [done|].
  apply mapM_result_cons_inv in Ht as (x' & r' & Hx' & Hr' & ->).
  apply mapM_result_cons_inv in Hjs as (j & js' & Hj & Hjs' & ->).
  injection Hr as Hp Hr.
  simpl. apply andb_true_iff. split; [|by eapply IH].
  unfold stringifyItem in Hj. destruct (stringify x') as [[j'|]|] eqn:Hj'; [| |done].
  - injection Hj as <-. apply Hx. by exists x', j'.
  - injection Hj as <-. by rewrite <- Hp.
Qed.

Lemma members_length (entries : list (string * value)) members :
  mapM stringifyMember (List.filter assignable entries) = Ok members ->
  (length (omap id members) <= length entries)%nat.
Proof.
  intros Hlen%mapM_result_length. pose proof (omap_id_length members).
  pose proof (List.filter_length_le assignable entries). lia.
Qed.

Lemma markerFree_entries entries :
  Forall (fun e => comesBack (snd e) -> markerFree (snd e) = true) entries ->
  forall entries' members,
    mapM transformEntry entries = Ok entries' ->
    mapM stringifyMember (List.filter assignable entries') = Ok members ->
    List.map parseMember (omap id members) = entries ->
    forallb (fun e => markerFree (snd e)) entries = true.
Proof.
  induction 1 as [|[k x] r Hx _ IH]; intros entries' members Ht Hmembers Hr; [done|].
  apply mapM_result_cons_inv in Ht as ([k' x'] & r' & Hx' & Hr' & ->).
  rewrite transformEntry_pair in Hx'.
  destruct (transformDatesToMarkers x) as [y|] eqn:Hy; [|done].
  injection Hx' as <- <-.
  assert (forall rest,
    mapM stringifyMember (List.filter assignable r') = Ok rest ->
    List.map parseMember (omap id rest) <> (k, x) :: r) as Hshort.
  { intros rest Hrest%members_length Heq. apply (f_equal (@length _)) in Heq.
    rewrite length_map in Heq. apply mapM_result_length in Hr'. simpl in Heq. lia. }
  cbn [List.filter] in Hmembers. destruct (assignable (k, y)) eqn:Hk;
    [|by destruct (Hshort members)].
  apply mapM_result_cons_inv in Hmembers as (m & rest & Hm & Hrest & ->).
  rewrite stringifyMember_pair in Hm.
  destruct (stringify y) as [[j|]|] eqn:Hj; [| |done]; injection Hm as <-.
  - cbn in Hr. injection Hr as Hp Hr.
    simpl. apply andb_true_iff. split; [|by eapply IH].
    apply Hx. by exists y, j.
  - by destruct (Hshort rest).
Qed.

(** A value that comes back unchanged holds no object shaped like a marker. *)
Lemma comesBack_markerFree v : comesBack v -> markerFree v = true.
Proof.
  induction v as [| | | | | | | | |t|items IH|entries IH] using value_induction;
    try done; intros (v' & j & Ht & Hj & Hp).
  - rewrite transform_array in Ht.
    destruct (mapM transformDatesToMarkers items) as [items'|] eqn:Hitems; [|done].
    injection Ht as <-. rewrite stringify_array in Hj.
    destruct (mapM stringifyItem items') as [js|] eqn:Hjs; [|done].
    injection Hj as <-. rewrite parse_array in Hp.
    injection Hp as Hp. by eapply markerFree_items.
  - rewrite transform_object in Ht.
    destruct (mapM transformEntry entries) as [entries'|] eqn:Hentries; [|done].
    injection Ht as <-. rewrite stringify_object in Hj.
    destruct (mapM stringifyMember (List.filter assignable entries')) as [members|] eqn:Hm;
      [|done].
    injection Hj as <-. rewrite parse_object in Hp.
    destruct (isDateMarker (VObj (List.map parseMember (omap id members)))) eqn:Hmarker.
    + apply dateReviver_marker_is_Date in Hmarker as [t Hmarker]. congruence.
    + rewrite dateReviver_other in Hp by done. injection Hp as Hp.
      simpl. apply andb_true_iff. split.
      * apply negb_true_iff. by rewrite <- Hp.
      * by eapply markerFree_entries.
Qed.

(** What [serialize] writes, and what [deserialize] reads of it. *)
Lemma serialize_written now uuid m d md jd jmd :
  transformDatesToMarkers (data m) = Ok d ->
  match metadata m with
  | Some x => transformDatesToMarkers x
  | None => Ok VUndefined
  end = Ok md ->
  stringify d = Ok jd ->
  stringify md = Ok jmd ->
  serialize now uuid m = Ok (JsonText (JObj (envelopeMembers now uuid m jd jmd))).
Proof.
  intros Hd Hmd Hjd Hjmd. unfold serialize. rewrite Hd. simpl. rewrite Hmd. simpl.
  rewrite Hjd. simpl. rewrite Hjmd. by destruct jd, jmd.
Qed.

Lemma serialize_data_not_written now uuid m d md e :
  transformDatesToMarkers (data m) = Ok d ->
  match metadata m with
  | Some x => transformDatesToMarkers x
  | None => Ok VUndefined
  end = Ok md ->
  stringify d = Throw e ->
  serialize now uuid m = Throw e.
Proof.
  intros Hd Hmd Hjd. unfold serialize. rewrite Hd. simpl. rewrite Hmd. simpl.
  by rewrite Hjd.
Qed.

Lemma serialize_metadata_not_written now uuid m d md jd e :
  transformDatesToMarkers (data m) = Ok d ->
  match metadata m with
  | Some x => transformDatesToMarkers x
  | None => Ok VUndefined
  end = Ok md ->
  stringify d = Ok jd ->
  stringify md = Throw e ->
  serialize now uuid m = Throw e.
Proof.
  intros Hd Hmd Hjd Hjmd. unfold serialize. rewrite Hd. simpl. rewrite Hmd. simpl.
  rewrite Hjd. simpl. by rewrite Hjmd.
Qed.

Lemma deserialize_written now uuid m jd jmd :
  deserialize (JsonText (JObj (envelopeMembers now uuid m jd jmd)))
  = Ok (VObj ([("type", VStr (type m)); ("data", revived jd)]
              ++ if truthy (revived jmd) then [("metadata", revived jmd)] else [])).
Proof.
  unfold deserialize. rewrite parse_object.
  rewrite dateReviver_other by (by destruct jd, jmd).
  by destruct jd, jmd.
Qed.

Lemma lookupKey_parsed k members :
  lookupKey k (List.map parseMember members)
  = parseWith dateReviver <$> lookupKey k members.
Proof.
  induction members as [|[k' j] r IH]; [done|]. simpl.
  by destruct (String.eqb k k').
Qed.

(** The order shaped like a marker comes back with a [Date] for [createdAt]. *)
Lemma markerShapedOrder_revived now uuid :
  serialize now uuid markerShapedOrder ≫= deserialize
  = Ok (VObj [("type", VStr "OrderCreated");
              ("data", VObj [("createdAt",
                              VDate (dateParse "2024-01-15T10:00:00.000Z"))])]).
Proof. reflexivity. Qed.

Lemma markerShaped_revived now uuid T k s :
  k <> "__proto__" ->
  serialize now uuid (markerShaped T k s) ≫= deserialize = Ok (markerShapedRevived T k s).
Proof.
  intros Hk%String.eqb_neq.
  assert (transformDatesToMarkers (data (markerShaped T k s)) = Ok (data (markerShaped T k s)))
    as Hd.
  { cbn. unfold assignable. cbn. by rewrite Hk. }
  rewrite (serialize_written now uuid _ _ VUndefined
             (Some (JObj [(k, JObj [("__type", JStr "Date"); ("value", JStr s)])])) None Hd);
    try done.
  cbn [mbind result_bind]. rewrite deserialize_written. unfold markerShapedRevived.
  cbn [revived truthy app type markerShaped]. do 3 f_equal.
  rewrite parse_object. cbn [List.map parseMember fst snd].
  rewrite dateReviver_other; [done|].
  unfold isDateMarker, hasProperty, getProperty, parseMember. cbn [lookupKey fst snd].
  by destruct (String.eqb "__type" k).
Qed.


Lemma roundtrip_markerFree now uuid m :
  serialize now uuid m ≫= deserialize = Ok (messageObject m) ->
  markerFree (data m) = true.
Proof.
  destruct (transformDatesToMarkers (data m)) as [d|e] eqn:Hd;
    [|by unfold serialize; rewrite Hd].
  destruct (match metadata m with
            | Some x => transformDatesToMarkers x
            | None => Ok VUndefined
            end) as [md|e] eqn:Hmd;
    [|by unfold serialize; rewrite Hd; simpl; rewrite Hmd].
  destruct (stringify d) as [jd|e] eqn:Hjd;
    [|by rewrite (serialize_data_not_written _ _ _ d md e)].
  destruct (stringify md) as [jmd|e] eqn:Hjmd;
    [|by rewrite (serialize_metadata_not_written _ _ _ d md jd e)].
  rewrite (serialize_written _ _ _ d md jd jmd) by done.
  cbn [mbind result_bind]. rewrite deserialize_written.
  unfold messageObject. intros [= Hdata _].
  destruct jd as [j|].
  - apply comesBack_markerFree. by exists d, j.
  - by rewrite <- Hdata.
Qed.

(** The round trip of a message that is a JSON tree with valid [Date]s. *)
Lemma faithful_roundtrip now uuid m :
  faithful (data m) = true ->
  metadataKept m = true ->
  exists buffer,
    serialize now uuid m = Ok buffer /\ deserialize buffer = Ok (messageObject m).
Proof.
  intros Hdata Hmeta.
  destruct (faithful_comesBack _ Hdata) as (d & jd & Hd & Hjd & Hpd).
  assert (exists md jmd,
    match metadata m with
    | Some x => transformDatesToMarkers x
    | None => Ok VUndefined
    end = Ok md
    /\ stringify md = Ok jmd
    /\ (if truthy (revived jmd) then [("metadata", revived jmd)] else [])
       = match metadata m with Some x => [("metadata", x)] | None => [] end)
    as (md & jmd & Hmd & Hjmd & Hkept).
  { unfold metadataKept in Hmeta.
    destruct (metadata m) as [x|]; [|by exists VUndefined, None].
    apply andb_true_iff in Hmeta as [Hx Htruthy].
    destruct (faithful_comesBack _ Hx) as (md & jmd & Hmd & Hjmd & Hpmd).
    exists md, (Some jmd). split; [done|]. split; [done|].
    cbn [revived]. by rewrite Hpmd, Htruthy. }
  eexists. split; [by apply (serialize_written now uuid m d md (Some jd) jmd)|].
  rewrite deserialize_written, Hkept. unfold messageObject. cbn [revived].
  by rewrite Hpd.
Qed.

(** Why the round trip asks for so much: an Invalid Date and a [BigInt] make
    [serialize] throw; an [undefined] member and an own property named
    [__proto__] are left out of the JSON text; [NaN] and the infinities come
    back as [null], and [-0] as [0]; a [metadata] that is [null] is dropped by
    [deserialize]. *)
Example serialize_rejects_invalid_date now uuid :
  serialize now uuid
    {| type := "Reminder"; data := VObj [("at", VDate None)]; metadata := None |}
  = Throw (Error "Invalid time value").
Proof. reflexivity. Qed.

Example serialize_rejects_bigint now uuid :
  serialize now uuid
    {| type := "Transfer"; data := VObj [("amount", VBigInt 10)]; metadata := None |}
  = Throw bigIntError.
Proof. reflexivity. Qed.

Example undefined_member_is_left_out now uuid :
  serialize now uuid
    {| type := "TestCommand";
       data := VObj [("nullValue", VNull); ("undefinedValue", VUndefined)];
       metadata := None |}
  ≫= deserialize
  = Ok (VObj [("type", VStr "TestCommand"); ("data", VObj [("nullValue", VNull)])]).
Proof. reflexivity. Qed.

Example proto_member_is_left_out now uuid :
  serialize now uuid
    {| type := "TestCommand";
       data := VObj [("id", VStr "1"); ("__proto__", VStr "x")];
       metadata := None |}
  ≫= deserialize
  = Ok (VObj [("type", VStr "TestCommand"); ("data", VObj [("id", VStr "1")])]).
Proof. reflexivity. Qed.

Example special_numbers_come_back_changed now uuid :
  serialize now uuid
    {| type := "Measured";
       data := VArr [VNaN; VInfinity false; VInfinity true; VNegZero; VNum 7];
       metadata := None |}
  ≫= deserialize
  = Ok (VObj [("type", VStr "Measured");
              ("data", VArr [VNull; VNull; VNull; VNum 0; VNum 7])]).
Proof. reflexivity. Qed.

Example null_metadata_is_dropped now uuid :
  serialize now uuid {| type := "TestEvent"; data := VObj []; metadata := Some VNull |}
  ≫= deserialize
  = Ok (VObj [("type", VStr "TestEvent"); ("data", VObj [])]).
Proof. reflexivity. Qed.


(** C10. The reviving parse turns every JSON object with a member
    [__type] equal to ["Date"] and a string member [value] into a [Date],
    whatever it came from.  So a message whose [data] holds such a plain
    object under some key goes through [serialize] and [deserialize] and comes
    back with the [Date] that the string denotes under that key: the order
    whose [createdAt] is such an object comes back so, and not equal to itself.
    And a message comes back equal to itself only if its [data] holds no
    object of that shape. *)
Theorem marker_shaped_objects_revive_as_dates now uuid :
  (forall members s,
      NoDup (List.map fst members) ->
      lookupKey "__type" members = Some (JStr "Date") ->
      lookupKey "value" members = Some (JStr s) ->
      parseWith dateReviver (JObj members) = VDate (dateParse s))
  /\ (forall T k s,
        k <> "__proto__" ->
        serialize now uuid (markerShaped T k s) ≫= deserialize
        = Ok (VObj [("type", VStr T); ("data", VObj [(k, VDate (dateParse s))])]))
  /\ serialize now uuid markerShapedOrder ≫= deserialize
     = Ok (VObj [("type", VStr "OrderCreated");
                 ("data", VObj [("createdAt",
                                 VDate (dateParse "2024-01-15T10:00:00.000Z"))])])
  /\ serialize now uuid markerShapedOrder ≫= deserialize
     <> Ok (messageObject markerShapedOrder)
  /\ (forall m,
        serialize now uuid m ≫= deserialize = Ok (messageObject m) ->
        markerFree (data m) = true).
Proof.
  split; [|split; [|split; [|split]]].
  - intros members s _ Htype Hvalue. rewrite parse_object.
    unfold dateReviver, isDateMarker, hasProperty, getProperty.
    by rewrite !lookupKey_parsed, Htype, Hvalue.
  - intros T k s Hk. by apply markerShaped_revived.
  - apply markerShapedOrder_revived.
  - by rewrite markerShapedOrder_revived.
  - intros m. apply roundtrip_markerFree.
Qed.

End CodecFacts.



(** A document with the two members and a third one is revived; an event
    whose [data] holds a marker-shaped object under [at] comes back with a
    [Date] there; and [datedOrder], which comes back equal to itself, holds no
    marker. *)
Lemma marker_shaped_objects_revive_as_dates_witness :
  parseWith (dateReviver (api := decimalDates))
    (JObj [("value", JStr "1705314600000"); ("__type", JStr "Date"); ("zone", JNull)])
  = VDate (Some 1705314600000)
  /\ serialize (api := decimalDates) 5 "id-1" (markerShaped "Paid" "at" "1705314600000")
     ≫= deserialize
     = Ok (VObj [("type", VStr "Paid");
                 ("data", VObj [("at", VDate (Some 1705314600000))])])
  /\ markerFree (data datedOrder) = true.
Proof.
  pose proof (marker_shaped_objects_revive_as_dates (api := decimalDates) 5 "id-1")
    as (Hrevive & Hcomes & _ & _ & Honly).
  split; [|split].
  - apply (Hrevive [("value", JStr "1705314600000"); ("__type", JStr "Date"); ("zone", JNull)]
             "1705314600000"); [|reflexivity|reflexivity].
    compute_done.
  - apply (Hcomes "Paid" "at" "1705314600000"). discriminate.
  - apply (Honly datedOrder). reflexivity.
Defined.

End SerializationFacts.

(** ** Facts about runs *)

Module EffectsFacts.
Import Js Effects.

Lemma runs_Ret_inv {A} (a : A) tr b : runs (Ret a) tr b -> tr = [] /\ b = a.
Proof. by inversion 1. Qed.

Lemma runs_Await_inv {A} c (k : answer -> prog A) tr b :
  runs (Await c k) tr b ->
  exists ans tr', tr = (c, ans) :: tr' /\ runs (k ans) tr' b.
Proof. inversion 1; subst. eauto. Qed.

Lemma tryCatch_throw {A} e (h : thrown -> prog A) : tryCatch (Ret (Throw e)) h = h e.
Proof. reflexivity. Qed.

Lemma tryCatch_return {A} (a : A) (h : thrown -> prog A) : tryCatch (Ret (Ok a)) h = Ret a.
Proof. reflexivity. Qed.

Lemma andThen_return {A B} (a : A) (f : A -> prog (result B)) :
  andThen (Ret (Ok a)) f = f a.
Proof. reflexivity. Qed.

Lemma andThen_throw {A B} e (f : A -> prog (result B)) :
  andThen (Ret (Throw e)) f = Ret (Throw e).
Proof. reflexivity. Qed.

(** A run of [p] followed by [f] is a run of [p] and then a run of [f]. *)
Lemma runs_bind {A B} (p : prog A) (f : A -> prog B) tr b :
  runs (bind p f) tr b <->
  exists tr1 tr2 a, tr = (tr1 ++ tr2)%list /\ runs p tr1 a /\ runs (f a) tr2 b.
Proof.
  revert tr. induction p as [a|c k IH]; intros tr; simpl.
  - split.
    + intros Hf. exists [], tr, a. repeat split; [constructor|done].
    + intros (tr1 & tr2 & a' & -> & [-> ->]%runs_Ret_inv & Hf). done.
  - split.
    + intros (ans & tr' & -> & Hk)%runs_Await_inv.
      apply IH in Hk as (tr1 & tr2 & a & -> & Hp & Hf).
      exists ((c, ans) :: tr1), tr2, a. repeat split; [by constructor|done].
    + intros (tr1 & tr2 & a & -> & (ans & tr' & -> & Hk)%runs_Await_inv & Hf).
      simpl. constructor. apply IH. by exists tr', tr2, a.
Qed.

(** Every computation runs to its end, whatever the answers. *)
Lemma exec_runs {A} env n (p : prog A) :
  runs p (fst (exec env n p)) (snd (exec env n p)).
Proof.
  revert n. induction p as [a|c k IH]; intros n; simpl.
  - constructor.
  - specialize (IH (env n c) (S n)).
    destruct (exec env (S n) (k (env n c))) as [tr a]. by constructor.
Qed.

End EffectsFacts.

(** ** Facts about messageHandler.ts *)

Module MessageHandlerFacts.
Import Js Effects MessageHandler JsFacts EffectsFacts.

Lemma shouldRetry_policy e :
  shouldRetry e
  = match e with
    | OtherValue _ _ => true
    | ErrorObject emmett message _ =>
        if mentions retryMarkers message then true
        else if emmett then false
        else if mentions permanentMarkers message then false
        else true
    end.
Proof.
  destruct e as [emmett message code|]; [|done].
  unfold shouldRetry, mentions, retryMarkers, permanentMarkers. simpl existsb.
  by rewrite !orb_false_r, !orb_assoc.
Qed.

(** C4 (amended). [shouldRetry] returns [true] for every value that is not an
    [Error]; [true] for every [Error] whose message holds a
    network/timeout/unavailability marker; [false] for every [Error] whose
    message holds none of those and that is an [EmmettError] or whose message
    holds a business/validation marker; and [true] for every other [Error]. *)
Theorem shouldRetry_classification e :
  (instanceofError e = false -> shouldRetry e = true)
  /\ (instanceofError e = true ->
      mentions retryMarkers (describe e) = true -> shouldRetry e = true)
  /\ (instanceofError e = true ->
      mentions retryMarkers (describe e) = false ->
      instanceofEmmettError e = true \/ mentions permanentMarkers (describe e) = true ->
      shouldRetry e = false)
  /\ (instanceofError e = true ->
      mentions retryMarkers (describe e) = false ->
      instanceofEmmettError e = false ->
      mentions permanentMarkers (describe e) = false ->
      shouldRetry e = true).
Proof.
  rewrite shouldRetry_policy.
  destruct e as [emmett message code|text code]; simpl; [|by repeat split].
  split; [done|]. split; [by intros _ ->|]. split.
  - intros _ -> [->| ->]; [done|by destruct emmett].
  - by intros _ -> -> ->.
Qed.

(** One error of each class. *)
Lemma shouldRetry_classification_witness :
  shouldRetry (OtherValue "boom" None) = true
  /\ shouldRetry (Error "Connection timeout after 30s") = true
  /\ shouldRetry (EmmettError "Cart is already confirmed") = false
  /\ shouldRetry (Error "Product not found") = false
  /\ shouldRetry (Error "Something odd") = true.
Proof.
  split; [|split; [|split; [|split]]].
  - exact (proj1 (shouldRetry_classification (OtherValue "boom" None)) eq_refl).
  - exact (proj1 (proj2 (shouldRetry_classification (Error "Connection timeout after 30s")))
             eq_refl eq_refl).
  - exact (proj1 (proj2 (proj2 (shouldRetry_classification
                                  (EmmettError "Cart is already confirmed"))))
             eq_refl eq_refl (or_introl eq_refl)).
  - exact (proj1 (proj2 (proj2 (shouldRetry_classification (Error "Product not found"))))
             eq_refl eq_refl (or_intror eq_refl)).
  - exact (proj2 (proj2 (proj2 (shouldRetry_classification (Error "Something odd"))))
             eq_refl eq_refl eq_refl eq_refl).
Defined.

(** C4, as stated, fails: an [EmmettError] whose message holds a validation
    marker and a network marker is classified retriable. *)
Lemma shouldRetry_retry_marker_wins :
  instanceofEmmettError (EmmettError "Network validation failed") = true
  /\ mentions permanentMarkers "Network validation failed" = true
  /\ shouldRetry (EmmettError "Network validation failed") = true.
Proof. repeat split. Qed.

(** ** Facts: commands without a single handler *)

Lemma shouldRetry_EmmettError msg :
  shouldRetry (EmmettError msg) = mentions retryMarkers msg.
Proof.
  rewrite shouldRetry_policy. cbv [EmmettError].
  by destruct (mentions retryMarkers msg).
Qed.

(** The fixed words of the two messages hold no retry marker, and no marker
    reaches across the blank, the ["!"] or the ["."] next to the type's name. *)
Lemma mentions_retry_noHandler T :
  mentions retryMarkers ("No handler registered for command " +:+ T +:+ "!")
  = mentions retryMarkers T.
Proof.
  unfold mentions. rewrite !toLowerCase_app. set (t := toLowerCase T).
  assert (forall n,
    occurs " " n = false -> occurs "!" n = false ->
    includes "no handler registered for command" n = false ->
    includes "" n = false ->
    includes (toLowerCase "No handler registered for command " +:+ t +:+ toLowerCase "!") n
    = includes t n) as Hn.
  { intros n H1 H2 H3 H4.
    pose proof (includes_between "no handler registered for command" " " t "!" "" n H1 H2)
      as Hb.
    rewrite H3, H4, orb_false_r in Hb. exact Hb. }
  unfold retryMarkers. cbn [existsb]. by rewrite !Hn.
Qed.

Lemma mentions_retry_multipleHandlers T :
  mentions retryMarkers
    ("Multiple handlers registered for command " +:+ T +:+ ". "
     +:+ "Commands must have exactly one handler.")
  = mentions retryMarkers T.
Proof.
  unfold mentions. rewrite !toLowerCase_app. set (t := toLowerCase T).
  assert (forall n,
    occurs " " n = false -> occurs "." n = false ->
    includes "multiple handlers registered for command" n = false ->
    includes " commands must have exactly one handler." n = false ->
    includes (toLowerCase "Multiple handlers registered for command " +:+ t
              +:+ toLowerCase ". " +:+ toLowerCase "Commands must have exactly one handler.") n
    = includes t n) as Hn.
  { intros n H1 H2 H3 H4.
    pose proof (includes_between "multiple handlers registered for command" " " t "."
                  " commands must have exactly one handler." n H1 H2) as Hb.
    rewrite H3, H4, orb_false_r in Hb. exact Hb. }
  unfold retryMarkers. cbn [existsb]. by rewrite !Hn.
Qed.

Section DispatchFacts.
Context {api : DateApi}.

Lemma handleCommandMessage_no_handler message (handlers : gmap string (list handler)) T :
  handlers !! T = None \/ handlers !! T = Some [] ->
  handleCommandMessage message handlers T
  = Ret (if mentions retryMarkers T then nack else ack).
Proof.
  unfold handleCommandMessage.
  intros [-> | ->]; cbv beta iota; rewrite tryCatch_throw; unfold ackUnlessRetriable;
    by rewrite shouldRetry_EmmettError, mentions_retry_noHandler.
Qed.

Lemma handleCommandMessage_many_handlers message (handlers : gmap string (list handler)) T hs :
  handlers !! T = Some hs -> (1 < length hs)%nat ->
  handleCommandMessage message handlers T
  = Ret (if mentions retryMarkers T then nack else ack).
Proof.
  unfold handleCommandMessage. intros -> Hlen.
  destruct hs as [|h1 [|h2 rest]]; simpl in Hlen; try lia.
  cbv beta iota. rewrite tryCatch_throw. unfold ackUnlessRetriable.
  by rewrite shouldRetry_EmmettError, mentions_retry_multipleHandlers.
Qed.

(** With exactly one handler, for a payload that decodes: the handler is
    invoked once; its return gives [ack], its failure is classified. *)
Lemma runs_handleCommandMessage_single message (handlers : gmap string (list handler))
    T h cmd tr r :
  handlers !! T = Some [h] ->
  Serialization.deserialize (data message) = Ok cmd ->
  runs (handleCommandMessage message handlers T) tr r <->
  (exists v, tr = [(InvokeHandler h cmd, Resolved v)] /\ r = ack)
  \/ (exists e, tr = [(InvokeHandler h cmd, Rejected e)] /\ r = ackUnlessRetriable e).
Proof.
  intros Hh Hcmd. unfold handleCommandMessage. rewrite Hh. cbv beta iota.
  rewrite Hcmd, andThen_return. split.
  - intros Hrun. cbn in Hrun.
    apply runs_Await_inv in Hrun as (ans & tr' & -> & Hrun).
    destruct ans as [v|e]; cbn in Hrun; apply runs_Ret_inv in Hrun as [-> ->]; eauto.
  - intros [(v & -> & ->)|(e & -> & ->)]; cbn; constructor; cbn; constructor.
Qed.

(** C1 (amended). When the handler list of the command's type is empty, or
    holds more than one handler, [handleCommandMessage] returns without
    awaiting anything, so no handler is invoked; and for every type whose
    lower-cased name holds no retry marker the result is [ack] in both
    cases. *)
Theorem command_without_single_handler message (handlers : gmap string (list handler)) T :
  (handlers !! T = None \/ handlers !! T = Some []
   \/ exists hs, handlers !! T = Some hs /\ (1 < length hs)%nat) ->
  (exists r, handleCommandMessage message handlers T = Ret r)
  /\ (mentions retryMarkers T = false ->
      handleCommandMessage message handlers T = Ret ack).
Proof.
  intros Hcase.
  assert (handleCommandMessage message handlers T
          = Ret (if mentions retryMarkers T then nack else ack)) as ->.
  { destruct Hcase as [Hnone|[Hempty|(hs & Hhs & Hlen)]].
    - apply handleCommandMessage_no_handler. by left.
    - apply handleCommandMessage_no_handler. by right.
    - by eapply handleCommandMessage_many_handlers. }
  split; [by eexists|]. by intros ->.
Qed.

End DispatchFacts.

(** A type whose name holds a retry marker: the message of the error holds
    it too, and the command is nacked. *)
Example command_type_naming_a_marker_is_nacked :
  handleCommandMessage (api := decimalDates) productItemAdded ∅ "SyncNetworkState"
  = Ret nack.
Proof. reflexivity. Qed.

(** Two handlers for [AddProductItem], none for [RemoveProductItem]. *)
Lemma command_without_single_handler_witness :
  handleCommandMessage (api := decimalDates) productItemAdded
    {[ "AddProductItem" := [HandlerRef 1; HandlerRef 2] ]} "AddProductItem"
  = Ret ack
  /\ handleCommandMessage (api := decimalDates) productItemAdded
       {[ "AddProductItem" := [HandlerRef 1; HandlerRef 2] ]} "RemoveProductItem"
     = Ret ack.
Proof.
  split.
  - apply (command_without_single_handler (api := decimalDates) productItemAdded
             {[ "AddProductItem" := [HandlerRef 1; HandlerRef 2] ]} "AddProductItem").
    + right. right. exists [HandlerRef 1; HandlerRef 2]. split; [reflexivity|simpl; lia].
    + reflexivity.
  - apply (command_without_single_handler (api := decimalDates) productItemAdded
             {[ "AddProductItem" := [HandlerRef 1; HandlerRef 2] ]} "RemoveProductItem").
    + left. reflexivity.
    + reflexivity.
Defined.

(** C1, as stated, fails: with no handler registered for [TestCommand] the
    result is [ack], not [nack]. *)
Lemma command_without_handler_is_acked :
  handleCommandMessage (api := decimalDates) productItemAdded ∅ "TestCommand" = Ret ack
  /\ handleCommandMessage (api := decimalDates) productItemAdded ∅ "TestCommand" <> Ret nack.
Proof. split; [reflexivity|discriminate]. Qed.

(** ** Facts: the walk over event handlers *)

Section WalkFacts.
Context {api : DateApi}.

(** One step of the loop: the handler is awaited, and its answer decides. *)
Lemma runs_runEventHandlers_cons h rest ev tr o :
  runs (runEventHandlers (h :: rest) ev) tr o <->
  exists ans tr',
    tr = (InvokeHandler h ev, ans) :: tr'
    /\ match ans with
       | Resolved _ => runs (runEventHandlers rest ev) tr' o
       | Rejected error =>
           if shouldRetry error then tr' = [] /\ o = Ok nack
           else runs (runEventHandlers rest ev) tr' o
       end.
Proof.
  split.
  - intros (ans & tr' & -> & Hk)%runs_Await_inv. exists ans, tr'. split; [done|].
    destruct ans as [v|error]; simpl in Hk; [done|].
    destruct (shouldRetry error); [by apply runs_Ret_inv in Hk|done].
  - intros (ans & tr' & -> & Hk). apply (runs_Await _ _ ans).
    destruct ans as [v|error]; simpl; [done|].
    destruct (shouldRetry error); [|done]. destruct Hk as [-> ->]. constructor.
Qed.

(** The loop walks the handlers as the specification says, and never throws. *)
Lemma runs_runEventHandlers hs ev tr o :
  runs (runEventHandlers hs ev) tr o <-> exists r, o = Ok r /\ walk ev hs tr r.
Proof.
  revert tr. induction hs as [|h rest IH]; intros tr.
  - split.
    + intros [-> ->]%runs_Ret_inv. exists ack. split; [done|constructor].
    + intros (r & -> & Hw). inversion Hw; subst. constructor.
  - rewrite runs_runEventHandlers_cons. split.
    + intros (ans & tr' & -> & Hk). destruct ans as [v|error].
      * apply IH in Hk as (r & -> & Hw). exists r. split; [done|by constructor].
      * destruct (shouldRetry error) eqn:Hretry.
        -- destruct Hk as [-> ->]. exists nack. split; [done|by constructor].
        -- apply IH in Hk as (r & -> & Hw). exists r. split; [done|by constructor].
    + intros (r & -> & Hw). inversion Hw as [|? ? v tr' ? Hrest|? ? e tr' ? He Hrest|? ? e He]; subst.
      * exists (Resolved v), tr'. split; [done|]. apply IH. by exists r.
      * exists (Rejected e), tr'. split; [done|]. rewrite He. apply IH. by exists r.
      * exists (Rejected e), []. split; [done|]. by rewrite He.
Qed.

Lemma walk_in_registration_order ev hs tr r :
  walk ev hs tr r ->
  List.map fst tr = List.map (fun h => InvokeHandler h ev) (take (length tr) hs).
Proof. induction 1; simpl; by f_equal. Qed.

Lemma walk_ack_visits_all ev hs tr :
  walk ev hs tr ack -> length tr = length hs /\ forallb settled tr = true.
Proof.
  remember ack as r eqn:Hr. induction 1 as [|h rest v tr r Hw IH|h rest e tr r He Hw IH|];
    try discriminate; simpl.
  - done.
  - destruct (IH Hr) as [-> ->]. done.
  - destruct (IH Hr) as [-> ->]. unfold settled. simpl. by rewrite He.
Qed.

Lemma walk_nack_stops ev hs tr :
  walk ev hs tr nack ->
  exists tr' h error,
    tr = (tr' ++ [(InvokeHandler h ev, Rejected error)])%list
    /\ shouldRetry error = true /\ forallb settled tr' = true
    /\ hs !! length tr' = Some h.
Proof.
  remember nack as r eqn:Hr. induction 1 as [|h rest v tr r Hw IH|h rest e tr r He Hw IH|h rest e He];
    try discriminate.
  - destruct (IH Hr) as (tr' & h' & error & -> & Herr & Hall & Hat).
    exists ((InvokeHandler h ev, Resolved v) :: tr'), h', error. by repeat split.
  - destruct (IH Hr) as (tr' & h' & error & -> & Herr & Hall & Hat).
    exists ((InvokeHandler h ev, Rejected e) :: tr'), h', error.
    repeat split; try done. simpl. unfold settled at 1. simpl. by rewrite He.
  - exists [], h, e. by repeat split.
Qed.

Lemma handleEventMessage_no_handler message (handlers : gmap string (list handler)) T :
  handlers !! T = None \/ handlers !! T = Some [] ->
  handleEventMessage message handlers T = Ret ack.
Proof. unfold handleEventMessage. by intros [-> | ->]. Qed.

Lemma runs_handleEventMessage message (handlers : gmap string (list handler)) T hs ev tr r :
  handlers !! T = Some hs -> hs <> [] ->
  Serialization.deserialize (data message) = Ok ev ->
  runs (handleEventMessage message handlers T) tr r <-> walk ev hs tr r.
Proof.
  intros Hhs Hne Hev. unfold handleEventMessage. rewrite Hhs.
  destruct hs as [|h rest]; [done|]. cbv beta iota. rewrite Hev, andThen_return.
  unfold tryCatch. change (?p ≫= ?f) with (bind p f). rewrite runs_bind. split.
  - intros (tr1 & tr2 & o & -> & (r' & -> & Hw)%runs_runEventHandlers & Hret).
    apply runs_Ret_inv in Hret as [-> ->]. by rewrite app_nil_r.
  - intros Hw. exists tr, [], (Ok r). rewrite app_nil_r. repeat split.
    + apply runs_runEventHandlers. by exists r.
    + constructor.
Qed.

(** A payload that does not decode reaches no handler: the failure to
    deserialize is classified like any other. *)
Lemma handleEventMessage_undecodable message (handlers : gmap string (list handler)) T hs e :
  handlers !! T = Some hs -> hs <> [] ->
  Serialization.deserialize (data message) = Throw e ->
  handleEventMessage message handlers T = Ret (ackUnlessRetriable e).
Proof.
  intros Hhs Hne He. unfold handleEventMessage. rewrite Hhs.
  destruct hs as [|h rest]; [done|]. cbv beta iota.
  by rewrite He, andThen_throw, tryCatch_throw.
Qed.

Lemma walk_rejection ev hs tr r tr1 c e tr2 :
  walk ev hs tr r ->
  tr = (tr1 ++ (c, Rejected e) :: tr2)%list ->
  if shouldRetry e then tr2 = [] /\ r = nack
  else tr2 <> [] \/ length tr = length hs.
Proof.
  intros Hw. revert tr1.
  induction Hw as [|h rest v tr r Hw IH|h rest e0 tr r He0 Hw IH|h rest e0 He0];
    intros [|x tr1] Htr; simplify_eq/=.
  - specialize (IH tr1 eq_refl). destruct (shouldRetry e); [done|].
    destruct IH as [?|Hlen]; [by left|right]. by rewrite Hlen.
  - rewrite He0. destruct Hw; [right|left|left|left]; done.
  - specialize (IH tr1 eq_refl). destruct (shouldRetry e); [done|].
    destruct IH as [?|Hlen]; [by left|right]. by rewrite Hlen.
  - by rewrite He0.
  - by destruct tr1.
Qed.

Lemma walk_settled_is_ack ev hs tr r :
  walk ev hs tr r -> forallb settled tr = true -> r = ack.
Proof.
  induction 1 as [|h rest v tr r Hw IH|h rest e tr r He Hw IH|h rest e He]; simpl.
  - done.
  - done.
  - intros [_ Hrest]%andb_true_iff. by apply IH.
  - unfold settled. simpl. by rewrite He.
Qed.

(** C3. With no handler registered for the event's type the result is [ack]
    and nothing is awaited.  With one or more handlers, for a payload that
    decodes, the runs of [handleEventMessage] are exactly the walks over the
    handlers.  And for every payload, in every run: the handlers invoked are
    the first ones of the list, in registration order; a rejection classified
    retriable is the last thing that happens, and the result is [nack]; a
    rejection classified permanent is followed by the next handler, unless the
    list is exhausted; and when the whole list has been walked with no
    retriable failure the result is [ack]. *)
Theorem event_dispatch_walks_handlers message (handlers : gmap string (list handler)) T :
  (handlers !! T = None \/ handlers !! T = Some [] ->
   handleEventMessage message handlers T = Ret ack)
  /\ (forall hs ev,
        handlers !! T = Some hs -> hs <> [] ->
        Serialization.deserialize (data message) = Ok ev ->
        forall tr r,
          runs (handleEventMessage message handlers T) tr r <-> walk ev hs tr r)
  /\ (forall hs tr r,
        handlers !! T = Some hs -> hs <> [] ->
        runs (handleEventMessage message handlers T) tr r ->
        (exists ev,
            List.map fst tr = List.map (fun h => InvokeHandler h ev) (take (length tr) hs))
        /\ (forall tr1 c e tr2,
              tr = (tr1 ++ (c, Rejected e) :: tr2)%list ->
              if shouldRetry e then tr2 = [] /\ r = nack
              else tr2 <> [] \/ length tr = length hs)
        /\ (length tr = length hs -> forallb settled tr = true -> r = ack)).
Proof.
  split; [apply handleEventMessage_no_handler|].
  split; [intros hs ev Hhs Hne Hev tr r; by apply runs_handleEventMessage|].
  intros hs tr r Hhs Hne Hrun.
  destruct (Serialization.deserialize (data message)) as [ev|e] eqn:Hev.
  - apply (runs_handleEventMessage _ _ _ hs ev) in Hrun; [|done..].
    split; [exists ev; by eapply walk_in_registration_order|]. split.
    + intros tr1 c e tr2 Htr. by eapply walk_rejection.
    + intros _. by eapply walk_settled_is_ack.
  - rewrite (handleEventMessage_undecodable _ _ _ hs e) in Hrun by done.
    apply runs_Ret_inv in Hrun as [-> ->].
    split; [by exists VUndefined|]. split.
    + intros tr1 c e' tr2 Htr. by destruct tr1.
    + destruct hs; [done|]. simpl. lia.
Qed.

End WalkFacts.

(** No subscriber of [CartConfirmed]; and the interrupted delivery to the four
    subscribers of [ProductItemAdded] is a run, and a walk. *)
Lemma event_dispatch_walks_handlers_witness :
  handleEventMessage (api := decimalDates) productItemAdded fourSubscribers "CartConfirmed"
  = Ret ack
  /\ (runs (handleEventMessage (api := decimalDates) productItemAdded fourSubscribers
              "ProductItemAdded") interruptedDelivery nack
      <-> walk productItemAddedEvent
            [HandlerRef 1; HandlerRef 2; HandlerRef 3; HandlerRef 4]
            interruptedDelivery nack)
  /\ runs (handleEventMessage (api := decimalDates) productItemAdded fourSubscribers
             "ProductItemAdded") interruptedDelivery nack.
Proof.
  pose proof (event_dispatch_walks_handlers (api := decimalDates) productItemAdded
                fourSubscribers "CartConfirmed") as [Hnone _].
  pose proof (event_dispatch_walks_handlers (api := decimalDates) productItemAdded
                fourSubscribers "ProductItemAdded") as [_ Hsome].
  destruct Hsome as [Hsome _].
  specialize (Hsome [HandlerRef 1; HandlerRef 2; HandlerRef 3; HandlerRef 4]
                productItemAddedEvent eq_refl ltac:(discriminate) eq_refl
                interruptedDelivery nack) as Hiff.
  split; [apply Hnone; left; reflexivity|]. split; [exact Hiff|].
  apply Hiff. unfold interruptedDelivery.
  apply walk_returned, walk_permanent; [reflexivity|].
  apply walk_retriable. reflexivity.
Defined.

End MessageHandlerFacts.

(** ** Facts about topicManager.ts *)

Module TopicManagerFacts.
Import Js Effects TopicManager EffectsFacts.

(** The names, as the unit tests of the naming conventions expect them. *)
Example naming_conventions :
  getCommandTopicName "AddProductItem" defaultPrefix = "emmett-cmd-AddProductItem"
  /\ getEventTopicName "ProductItemAdded" "myapp" = "myapp-evt-ProductItemAdded"
  /\ getCommandSubscriptionName "AddProductItem" "instance-123" defaultPrefix
     = "emmett-cmd-AddProductItem-instance-123"
  /\ getEventSubscriptionName "ProductItemAdded" "sub-456" "myapp"
     = "myapp-evt-ProductItemAdded-sub-456".
Proof. repeat split. Qed.

Lemma getOrCreateTopic_shape name :
  getOrCreateTopic name
  = ensureResource (TopicExists name) (TopicCreate name) {| topicName := name |}
      (wrapTopicError name).
Proof. reflexivity. Qed.

Lemma getOrCreateSubscription_shape topic name options :
  getOrCreateSubscription topic name options
  = ensureResource (SubscriptionExists (topicName topic) name)
      (SubscriptionCreate (topicName topic) name (subscriptionConfig options))
      {| subscriptionTopic := topic; subscriptionName := name |}
      (wrapSubscriptionError name).
Proof. reflexivity. Qed.

Ltac run_step H :=
  first
    [ apply runs_Ret_inv in H as [-> ->]
    | let ans := fresh "ans" in
      let tr := fresh "tr" in
      apply runs_Await_inv in H as (ans & tr & -> & H);
      destruct ans as [?v|?e]; cbn in H ].

Lemma runs_ensureResource {R} existsCall createCall (resource : R) wrap tr o :
  runs (ensureResource existsCall createCall resource wrap) tr o
  <-> ensured existsCall createCall resource wrap tr o.
Proof.
  split.
  - intros H. unfold ensureResource in H. cbn in H. run_step H.
    + destruct (truthy v) eqn:Hv; cbn in H.
      * run_step H. by constructor.
      * run_step H.
        -- run_step H. by constructor.
        -- unfold ignoreAlreadyExists in H.
           case_bool_decide as Hcode; cbn in H; run_step H; by constructor.
    + run_step H. constructor.
  - intros H. unfold ensureResource.
    destruct H as [v Hv|v w Hv|v e Hv He|e|v e Hv He]; cbn.
    + constructor. cbn. rewrite Hv. constructor.
    + constructor. cbn. rewrite Hv. cbn. constructor. cbn. constructor.
    + constructor. cbn. rewrite Hv. cbn. constructor. cbn.
      unfold ignoreAlreadyExists. rewrite bool_decide_eq_false_2 by (by intros ?).
      constructor.
    + constructor. cbn. constructor.
    + constructor. cbn. rewrite Hv. cbn. constructor. cbn.
      unfold ignoreAlreadyExists. rewrite bool_decide_eq_true_2 by done.
      constructor.
Qed.

(** Which rejections an ensured resource survives. *)
Lemma ensured_rejections {R} existsCall createCall (resource : R) wrap tr o :
  ensured existsCall createCall resource wrap tr o ->
  forall c e,
    (c, Rejected e) ∈ tr ->
    (o = Ok resource /\ c = createCall /\ codeOf e = Some 6)
    \/ (o = Throw (wrap e)
        /\ (c = existsCall \/ (c = createCall /\ codeOf e <> Some 6))).
Proof.
  intros H c e' Hin.
  destruct H as [v Hv|v w Hv|v e Hv He|e|v e Hv He];
    repeat (apply elem_of_cons in Hin as [Hin|Hin]; [simplify_eq|]);
    try (by apply elem_of_nil in Hin); eauto 6.
Qed.

(** C8. The runs of [getOrCreateTopic] and of [getOrCreateSubscription] are
    exactly those of the provisioning contract: the reference is returned when
    the resource exists, when its creation succeeds, and when its creation is
    rejected with code 6; a failed existence check and a creation rejected with
    any other code come out as an [Error] whose message names the topic or the
    subscription.  So a rejection is survived only if it is the creation's and
    carries code 6. *)
Theorem provisioning_absorbs_only_the_race :
  (forall name tr o,
      runs (getOrCreateTopic name) tr o
      <-> ensured (TopicExists name) (TopicCreate name) {| topicName := name |}
            (wrapTopicError name) tr o)
  /\ (forall topic name options tr o,
        runs (getOrCreateSubscription topic name options) tr o
        <-> ensured (SubscriptionExists (topicName topic) name)
              (SubscriptionCreate (topicName topic) name (subscriptionConfig options))
              {| subscriptionTopic := topic; subscriptionName := name |}
              (wrapSubscriptionError name) tr o)
  /\ (forall (R : Type) existsCall createCall (resource : R) wrap tr o,
        ensured existsCall createCall resource wrap tr o ->
        forall c e,
          (c, Rejected e) ∈ tr ->
          (o = Ok resource /\ c = createCall /\ codeOf e = Some 6)
          \/ (o = Throw (wrap e)
              /\ (c = existsCall \/ (c = createCall /\ codeOf e <> Some 6)))).
Proof.
  split; [|split].
  - intros name tr o. rewrite getOrCreateTopic_shape. apply runs_ensureResource.
  - intros topic name options tr o. rewrite getOrCreateSubscription_shape.
    apply runs_ensureResource.
  - intros R. apply ensured_rejections.
Qed.

(** The race on the topic is absorbed; the refusal of the subscription is not. *)
Lemma provisioning_absorbs_only_the_race_witness :
  runs (getOrCreateTopic "emmett-cmd-AddProductItem")
    [(TopicExists "emmett-cmd-AddProductItem", Resolved (VBool false));
     (TopicCreate "emmett-cmd-AddProductItem", Rejected alreadyExists)]
    (Ok {| topicName := "emmett-cmd-AddProductItem" |})
  /\ runs (getOrCreateSubscription {| topicName := "emmett-cmd-AddProductItem" |}
             "emmett-cmd-AddProductItem-i1" None)
       [(SubscriptionExists "emmett-cmd-AddProductItem" "emmett-cmd-AddProductItem-i1",
         Resolved (VBool false));
        (SubscriptionCreate "emmett-cmd-AddProductItem" "emmett-cmd-AddProductItem-i1"
           (subscriptionConfig None),
         Rejected permissionDenied)]
       (Throw (Error ("Failed to get or create subscription emmett-cmd-AddProductItem-i1: "
                      +:+ "7 PERMISSION_DENIED: User not authorized"))).
Proof.
  destruct provisioning_absorbs_only_the_race as (Htopic & Hsubscription & _).
  split.
  - apply Htopic. by apply ensured_raced.
  - apply Hsubscription.
    exact (ensured_create_failed _ _ _
             (wrapSubscriptionError "emmett-cmd-AddProductItem-i1")
             (VBool false) permissionDenied eq_refl ltac:(discriminate)).
Defined.

End TopicManagerFacts.

(** ** Facts about scheduler.ts *)

Module SchedulerFacts.
Import Js Effects Scheduler EffectsFacts.
Import Serialization (Message, serialize).
Import TopicManager (Topic, topicName).

(** Three entries, an hour before [now], at [now] and an hour after: the
    first two are ready, the tie included. *)
Example filterReadyMessages_includes_ties :
  let entry t := {| infoMessage := reminder; infoOptions := None; scheduledAt := Some t |} in
  filterReadyMessages
    [entry 1705309200000; entry 1705312800000; entry 1705316400000]
    (Some 1705312800000)
  = [entry 1705309200000; entry 1705312800000].
Proof. reflexivity. Qed.

(** Two messages scheduled 5 s and 10 s ahead; 6 s later [dequeue] hands out
    the first and keeps the second; a second [dequeue] hands out nothing. *)
Example dequeue_after_six_seconds :
  let s0 := newMessageScheduler true None None in
  let s1 := setPendingMessages s0
              [{| infoMessage := reminder; infoOptions := Some (AfterInMs 5000);
                  scheduledAt := Some 5000 |}] in
  let s2 := setPendingMessages s0
              [{| infoMessage := reminder; infoOptions := Some (AfterInMs 5000);
                  scheduledAt := Some 5000 |};
               {| infoMessage := reminder; infoOptions := Some (AfterInMs 10000);
                  scheduledAt := Some 10000 |}] in
  schedule (api := decimalDates) 0 "id-1" reminder (Some (AfterInMs 5000)) s0
  = Ret (Ok tt, s1)
  /\ schedule (api := decimalDates) 0 "id-2" reminder (Some (AfterInMs 10000)) s1
     = Ret (Ok tt, s2)
  /\ fst (dequeue 6000 s2)
     = [{| message := reminder; options := Some (AfterInMs 5000) |}]
  /\ getPendingCount (snd (dequeue 6000 s2)) = 1%nat
  /\ fst (dequeue 6000 (snd (dequeue 6000 s2))) = [].
Proof. repeat split. Qed.

Lemma dateGt_not_dateLe (a : option Z) now :
  is_Some a -> dateGt a (Some now) = negb (dateLe a (Some now)).
Proof. intros [t ->]. simpl. lia. Qed.

Lemma dequeue_native now s :
  useEmulator s = false -> dequeue now s = ([], s).
Proof. unfold dequeue. by intros ->. Qed.

(** In the emulator, with every pending entry holding a valid date, [dequeue]
    splits the pending entries at [scheduledAt <= now]: the ready ones are
    returned, the others stay, in order, and nothing else happens to them. *)
Lemma dequeue_partitions_dated now s :
  useEmulator s = true ->
  Forall (fun info => is_Some (scheduledAt info)) (pendingMessages s) ->
  fst (dequeue now s)
  = List.map released (List.filter (fun info => dateLe (scheduledAt info) (Some now))
                         (pendingMessages s))
  /\ pendingMessages (snd (dequeue now s))
     = List.filter (fun info => negb (dateLe (scheduledAt info) (Some now)))
         (pendingMessages s)
  /\ pendingMessages (snd (dequeue now (snd (dequeue now s))))
     = pendingMessages (snd (dequeue now s))
  /\ fst (dequeue now (snd (dequeue now s))) = [].
Proof.
  intros Hemu Hdated. unfold dequeue. rewrite Hemu. simpl. rewrite Hemu. simpl.
  unfold filterReadyMessages.
  assert (forall l : list ScheduledMessageInfo,
    Forall (fun info => is_Some (scheduledAt info)) l ->
    List.filter (fun msg => dateGt (scheduledAt msg) (Some now)) l
    = List.filter (fun info => negb (dateLe (scheduledAt info) (Some now))) l) as Hgt.
  { induction 1 as [|info l Hinfo _ IH]; [done|]. simpl.
    rewrite (dateGt_not_dateLe _ _ Hinfo), IH. done. }
  rewrite (Hgt _ Hdated). repeat split.
  - set (kept := List.filter _ (pendingMessages s)).
    assert (Forall (fun info => dateGt (scheduledAt info) (Some now) = true) kept) as Hkept.
    { apply List.Forall_forall. intros info [Hin Hlate]%List.filter_In.
      apply List.Forall_forall with (x := info) in Hdated; [|done].
      by rewrite dateGt_not_dateLe. }
    clear -Hkept. induction Hkept as [|info l Hinfo _ IH]; [done|].
    simpl. rewrite Hinfo. by f_equal.
  - set (kept := List.filter _ (pendingMessages s)).
    assert (Forall (fun info => dateLe (scheduledAt info) (Some now) = false) kept) as Hkept.
    { apply List.Forall_forall. intros info [Hin Hlate]%List.filter_In.
      by apply negb_true_iff. }
    clear -Hkept. induction Hkept as [|info l Hinfo _ IH]; [done|].
    simpl. by rewrite Hinfo.
Qed.

Section SchedulingFacts.
Context {api : DateApi}.

Lemma schedule_emulator now uuid msg opts s :
  useEmulator s = true ->
  schedule now uuid msg opts s
  = Ret (Ok tt,
         setPendingMessages s
           (pendingMessages s
            ++ [{| infoMessage := msg; infoOptions := opts;
                   scheduledAt := calculateScheduledTime now opts |}])).
Proof. unfold schedule. by intros ->. Qed.

(** Outside the emulator nothing is ever buffered. *)
Lemma schedule_native_keeps_no_buffer now uuid msg opts s tr r s' :
  useEmulator s = false ->
  runs (schedule now uuid msg opts s) tr (r, s') ->
  pendingMessages s' = pendingMessages s /\ useEmulator s' = false.
Proof.
  intros Hnative. unfold schedule. rewrite Hnative. unfold publishScheduledMessage.
  assert (forall topic s1 tr r s',
    pendingMessages s1 = pendingMessages s -> useEmulator s1 = false ->
    runs (match serialize now uuid msg with
          | Throw error =>
              Ret (Throw (Error ("Failed to publish scheduled message "
                                 +:+ Serialization.type msg +:+ ": " +:+ describe error)),
                   s1)
          | Ok buffer =>
              match calculateScheduledTime now opts with
              | None =>
                  Ret (Throw (Error ("Failed to publish scheduled message "
                                     +:+ Serialization.type msg +:+ ": "
                                     +:+ describe (Error "Invalid time value"))),
                       s1)
              | Some t =>
                  Await (TopicPublish (topicName topic) buffer
                           [("messageType", Serialization.type msg);
                            ("publishTime", toISOString t)])
                    (fun ans =>
                       match ans with
                       | Resolved _ => Ret (Ok tt, s1)
                       | Rejected error =>
                           Ret (Throw (Error ("Failed to publish scheduled message "
                                              +:+ Serialization.type msg +:+ ": "
                                              +:+ describe error)),
                                s1)
                       end)
              end
          end) tr (r, s') ->
    pendingMessages s' = pendingMessages s /\ useEmulator s' = false) as Hsend.
  { intros topic s1 tr1 r1 s1' Hp He Hrun.
    destruct (serialize now uuid msg) as [buffer|error].
    - destruct (calculateScheduledTime now opts) as [t|].
      + apply runs_Await_inv in Hrun as (ans & tr2 & -> & Hrun).
        destruct ans; apply runs_Ret_inv in Hrun as [_ [= -> ->]]; done.
      + apply runs_Ret_inv in Hrun as [_ [= -> ->]]. done.
    - apply runs_Ret_inv in Hrun as [_ [= -> ->]]. done. }
  destruct (scheduledTopic s) as [topic|]; [by apply Hsend|].
  intros (ans & tr1 & -> & Hrun)%runs_Await_inv. destruct ans as [v|error].
  - destruct (negb (truthy v)).
    + apply runs_Await_inv in Hrun as (ans & tr2 & -> & Hrun). destruct ans as [w|error].
      * exact (Hsend _ (setScheduledTopic s _) _ _ _ eq_refl Hnative Hrun).
      * apply runs_Ret_inv in Hrun as [_ [= -> ->]]. done.
    + exact (Hsend _ (setScheduledTopic s _) _ _ _ eq_refl Hnative Hrun).
  - apply runs_Ret_inv in Hrun as [_ [= -> ->]]. done.
Qed.

(** C5. In the emulator, after [schedule(reminder, { at: new Date(NaN) })],
    an entry is pending; [dequeue] returns nothing, and yet the entry is gone:
    it is neither returned nor kept.  ([filterReadyMessages] tests
    [scheduledAt <= now] and the removal tests [scheduledAt > now]; an Invalid
    Date fails both.)  The same happens for a delay that overflows the range of
    [Date]. *)
Theorem dequeue_loses_undated_entry now uuid :
  let s0 := newMessageScheduler true None None in
  let s1 := setPendingMessages s0 [undatedReminder] in
  schedule now uuid reminder (Some (At None)) s0 = Ret (Ok tt, s1)
  /\ getPendingCount s1 = 1%nat
  /\ filterReadyMessages (pendingMessages s1) (Some now) = []
  /\ dequeue now s1 = ([], setPendingMessages s0 [])
  /\ getPendingCount (snd (dequeue now s1)) = 0%nat
  /\ calculateScheduledTime 0 (Some (AfterInMs 10000000000000000)) = None.
Proof. repeat split. Qed.

End SchedulingFacts.

End SchedulerFacts.

(** ** Facts about pubsubMessageBus.ts *)

Module PubSubMessageBusFacts.
Import Js Effects.
Import Serialization (Message, MessageKind, command, event, kindName, serialize).
Import TopicManager PubSubMessageBus EffectsFacts.

Section PublishingFacts.
Context {api : DateApi}.

Lemma publishMessage_not_started now uuid bus message k :
  started bus = false ->
  publishMessage now uuid bus message k = Ret (Throw notStarted).
Proof. unfold publishMessage, ensureStarted. by intros ->. Qed.

(** C7. While the bus is not started, [send] and [publish] throw the
    precondition error without awaiting anything: no existence check, no
    creation and no publish is issued. *)
Theorem publishing_requires_started now uuid bus message :
  started bus = false ->
  send now uuid bus message = Ret (Throw notStarted)
  /\ publish now uuid bus message = Ret (Throw notStarted)
  /\ (forall tr o,
        runs (send now uuid bus message) tr o \/ runs (publish now uuid bus message) tr o ->
        tr = [] /\ o = Throw notStarted).
Proof.
  intros Hstopped. unfold send, publish.
  rewrite !publishMessage_not_started by done. repeat split; try done.
  all: by destruct H as [[-> ->]%runs_Ret_inv|[-> ->]%runs_Ret_inv].
Qed.

(** Once started, a publish begins with the existence check of the topic. *)
Lemma publishMessage_started_checks_topic now uuid bus message k tr o :
  started bus = true ->
  runs (publishMessage now uuid bus message k) tr o ->
  exists name ans tr', tr = (TopicExists name, ans) :: tr'.
Proof.
  unfold publishMessage, ensureStarted. intros ->. simpl negb. cbv iota.
  destruct (autoCreateResources (config bus)); cbn;
    intros (ans & tr' & -> & _)%runs_Await_inv; eauto.
Qed.

End PublishingFacts.

Lemma handle_taken h T rest bus :
  is_Some (handlers bus !! T) ->
  handle h (T :: rest) bus = (Throw (duplicateCommandHandler T), bus).
Proof. intros Htaken. simpl. by rewrite bool_decide_eq_true_2. Qed.

Lemma handle_free h T rest bus :
  handlers bus !! T = None ->
  handle h (T :: rest) bus = handle h rest (registerCommand h T bus).
Proof.
  intros Hfree. simpl. rewrite bool_decide_eq_false_2; [done|].
  rewrite Hfree. by intros [? ?].
Qed.

Lemma registerCommand_other h T T' bus :
  T <> T' -> handlers (registerCommand h T bus) !! T' = handlers bus !! T'.
Proof. intros Hne. simpl. by rewrite lookup_insert_ne. Qed.

(** C6. Calling [handle] with a type that already has a handler throws the
    duplicate-handler [EmmettError] from within the call, whether the bus is
    started or not, and leaves the handlers of that type as they were; called
    with that type alone, it leaves the whole bus as it was. *)
Theorem duplicate_command_handler_is_refused h types T bus :
  T ∈ types ->
  is_Some (handlers bus !! T) ->
  (exists T', T' ∈ types /\ fst (handle h types bus) = Throw (duplicateCommandHandler T'))
  /\ handlers (snd (handle h types bus)) !! T = handlers bus !! T
  /\ handle h [T] bus = (Throw (duplicateCommandHandler T), bus).
Proof.
  intros Hin Htaken. split; [|split]; [| |by apply handle_taken].
  - revert bus Htaken. induction types as [|x rest IH]; intros bus Htaken.
    + by apply elem_of_nil in Hin.
    + destruct (handlers bus !! x) as [hs|] eqn:Hx.
      * exists x. rewrite handle_taken by (by rewrite Hx). split; [left|done].
      * rewrite handle_free by done.
        apply elem_of_cons in Hin as [->|Hin]; [rewrite Hx in Htaken; by destruct Htaken|].
        destruct (IH Hin (registerCommand h x bus)) as (T' & HT' & Hthrow).
        { rewrite registerCommand_other; [done|]. intros ->. rewrite Hx in Htaken.
          by destruct Htaken. }
        exists T'. split; [by right|done].
  - revert bus Htaken. induction types as [|x rest IH]; intros bus Htaken; [done|].
    destruct (handlers bus !! x) as [hs|] eqn:Hx.
    + by rewrite handle_taken by (by rewrite Hx).
    + rewrite handle_free by done.
      assert (x <> T) as Hne by (intros ->; rewrite Hx in Htaken; by destruct Htaken).
      apply elem_of_cons in Hin as [->|Hin]; [done|].
      rewrite IH; [by apply registerCommand_other|done|].
      by rewrite registerCommand_other.
Qed.

(** A second handler for [AddProductItem] on the cart's bus. *)
Lemma duplicate_command_handler_is_refused_witness :
  let registered := snd (handle (HandlerRef 1) ["AddProductItem"] cartBus) in
  handle (HandlerRef 2) ["AddProductItem"] registered
  = (Throw (duplicateCommandHandler "AddProductItem"), registered)
  /\ handlers registered !! "AddProductItem" = Some [HandlerRef 1].
Proof.
  split; [|reflexivity].
  apply (duplicate_command_handler_is_refused (HandlerRef 2) ["AddProductItem"]
           "AddProductItem" (snd (handle (HandlerRef 1) ["AddProductItem"] cartBus))).
  - left.
  - by eexists.
Defined.

Lemma subscribe_returns h types bus : fst (subscribe h types bus) = Ok tt.
Proof. revert bus. induction types as [|T rest IH]; intros bus; [done|apply IH]. Qed.

(** C9. Commands and events are registered in the one [handlers] map.
    [subscribe] never throws.  After [subscribe(h1, T)], [handle(h2, T)] throws
    the duplicate-handler [EmmettError], although [T] was registered as an
    event only.  And on a bus with no handler for [T], [handle(h1, T)] followed
    by [subscribe(h2, T)] leaves two handlers for [T], a type the bus holds to
    be a command. *)
Theorem commands_and_events_share_handlers h1 h2 T bus :
  (forall h types b, fst (subscribe h types b) = Ok tt)
  /\ (let subscribed := snd (subscribe h1 [T] bus) in
      handle h2 [T] subscribed = (Throw (duplicateCommandHandler T), subscribed)
      /\ T ∈ eventTypes subscribed
      /\ (T ∉ commandTypes bus -> T ∉ commandTypes subscribed))
  /\ (handlers bus !! T = None ->
      let handled := handle h1 [T] bus in
      let both := snd (subscribe h2 [T] (snd handled)) in
      fst handled = Ok tt
      /\ handlers both !! T = Some [h1; h2]
      /\ T ∈ commandTypes both
      /\ determineMessageKind both T = command).
Proof.
  split; [apply subscribe_returns|]. split.
  - cbv zeta. split; [|split].
    + apply handle_taken. simpl. rewrite lookup_insert_eq. by eexists.
    + simpl. set_solver.
    + done.
  - intros Hfree. cbv zeta. rewrite handle_free by done.
    change (handle h1 [] ?b) with (Ok tt, b).
    change (subscribe h2 [T] ?b) with (Ok tt, registerEvent h2 T b).
    cbn [fst snd]. split; [done|]. split; [|split].
    + simpl. rewrite lookup_insert_eq. simpl. by rewrite lookup_insert_eq.
    + simpl. set_solver.
    + unfold determineMessageKind. rewrite bool_decide_eq_true_2; [done|]. simpl. set_solver.
Qed.

(** On the cart's bus: a command handler then a subscriber for one type, and a
    subscriber then a command handler for another. *)
Lemma commands_and_events_share_handlers_witness :
  handlers (snd (subscribe (HandlerRef 2) ["AddProductItem"]
                   (snd (handle (HandlerRef 1) ["AddProductItem"] cartBus))))
    !! "AddProductItem"
  = Some [HandlerRef 1; HandlerRef 2]
  /\ fst (handle (HandlerRef 2) ["ProductItemAdded"]
            (snd (subscribe (HandlerRef 1) ["ProductItemAdded"] cartBus)))
     = Throw (duplicateCommandHandler "ProductItemAdded").
Proof.
  split.
  - apply (commands_and_events_share_handlers (HandlerRef 1) (HandlerRef 2)
             "AddProductItem" cartBus).
    reflexivity.
  - pose proof (commands_and_events_share_handlers (HandlerRef 1) (HandlerRef 2)
                  "ProductItemAdded" cartBus) as (_ & (Hthrows & _) & _).
    cbv zeta in Hthrows. by rewrite Hthrows.
Defined.

(** The cart's bus has not been started. *)
Lemma publishing_requires_started_witness :
  send (api := decimalDates) 5 "id-1" cartBus Scheduler.reminder = Ret (Throw notStarted).
Proof.
  apply (publishing_requires_started (api := decimalDates) 5 "id-1" cartBus
           Scheduler.reminder).
  reflexivity.
Defined.

End PubSubMessageBusFacts.

(** ** More facts about serialization.ts *)

Module MessageIdsFacts.
Import Js Serialization MessageIds SerializationFacts.

Lemma lookupKey_setProperty_eq k v entries :
  lookupKey k (setProperty k v entries) = Some v.
Proof.
  induction entries as [|[k' x] r IH]; simpl.
  - by rewrite String.eqb_refl.
  - destruct (String.eqb k k') eqn:Hk; simpl; by rewrite Hk.
Qed.

Lemma lookupKey_setProperty_ne k k' v entries :
  k <> k' -> lookupKey k' (setProperty k v entries) = lookupKey k' entries.
Proof.
  intros Hne. induction entries as [|[k0 x] r IH]; simpl.
  - destruct (String.eqb k' k) eqn:Hk; [|done].
    apply String.eqb_eq in Hk. congruence.
  - destruct (String.eqb k k0) eqn:Hk; simpl.
    + apply String.eqb_eq in Hk as <-.
      destruct (String.eqb k' k) eqn:Hk'; [|done].
      apply String.eqb_eq in Hk'. congruence.
    + by rewrite IH.
Qed.

Lemma keys_setProperty_present k v entries :
  k ∈ List.map fst entries ->
  List.map fst (setProperty k v entries) = List.map fst entries.
Proof.
  induction entries as [|[k' x] r IH]; simpl; [by intros ?%elem_of_nil|].
  intros Hin. destruct (String.eqb k k') eqn:Hk; simpl; [done|].
  f_equal. apply IH. apply elem_of_cons in Hin as [->|Hin]; [|done].
  by rewrite String.eqb_refl in Hk.
Qed.

Lemma keys_setProperty_absent k v entries :
  k ∉ List.map fst entries ->
  List.map fst (setProperty k v entries) = (List.map fst entries ++ [k])%list.
Proof.
  induction entries as [|[k' x] r IH]; simpl; [done|].
  intros Hin. apply not_elem_of_cons in Hin as [Hne Hin].
  destruct (String.eqb k k') eqn:Hk; simpl.
  - apply String.eqb_eq in Hk. congruence.
  - f_equal. by apply IH.
Qed.

(** X5. The identifier attached to a message is the one extracted from it; every
    other property of the message is as it was; the keys stay distinct; a
    second identifier replaces the first; and a message without the property
    has no identifier. *)
Theorem attached_message_id_is_extracted message id :
  extractMessageId (VObj (attachMessageId message id)) = VStr id
  /\ (forall k, k <> "__messageId" ->
        getProperty k (VObj (attachMessageId message id)) = getProperty k (VObj message)
        /\ hasProperty k (VObj (attachMessageId message id)) = hasProperty k (VObj message))
  /\ (NoDup (List.map fst message) -> NoDup (List.map fst (attachMessageId message id)))
  /\ (forall id', attachMessageId (attachMessageId message id) id'
                  = attachMessageId message id')
  /\ (hasProperty "__messageId" (VObj message) = false ->
      extractMessageId (VObj message) = VUndefined).
Proof.
  unfold attachMessageId, extractMessageId, hasProperty, getProperty.
  split; [by rewrite lookupKey_setProperty_eq|]. split; [|split; [|split]].
  - intros k Hk. by rewrite lookupKey_setProperty_ne.
  - intros Hnodup.
    destruct (decide ("__messageId" ∈ List.map fst message)) as [Hin|Hin].
    + by rewrite keys_setProperty_present.
    + rewrite keys_setProperty_absent by done.
      apply NoDup_app. split; [done|]. split; [|apply NoDup_singleton].
      intros x Hx ->%list_elem_of_singleton. done.
  - intros id'. induction message as [|[k x] r IH]; [done|].
    cbn [setProperty].
    destruct (String.eqb "__messageId" k) eqn:Hk; cbn [setProperty]; rewrite Hk;
      [done|].
    by rewrite IH.
  - by intros ->.
Qed.

Section WireFacts.
Context {api : DateApi}.

Lemma assignable_key k (x y : value) : assignable (k, x) = assignable (k, y).
Proof. reflexivity. Qed.

Lemma withMarkers_array items :
  withMarkers (VArr items) = VArr (List.map withMarkers items).
Proof. reflexivity. Qed.

Lemma withMarkers_object entries :
  withMarkers (VObj entries) = VObj (List.filter assignable (List.map markEntry entries)).
Proof. reflexivity. Qed.

Lemma transformed_items items :
  Forall transformed items ->
  (existsb hasInvalidDate items = true ->
     mapM transformDatesToMarkers items = Throw rangeError)
  /\ (existsb hasInvalidDate items = false ->
      mapM transformDatesToMarkers items = Ok (List.map withMarkers items)).
Proof.
  induction 1 as [|x r [Hbad Hgood] _ [IHbad IHgood]]; [done|].
  rewrite mapM_result_cons. cbn [existsb List.map].
  destruct (hasInvalidDate x) eqn:Hx.
  - split; [|done]. intros _. by rewrite Hbad.
  - rewrite (Hgood eq_refl). simpl. split; intros Hr.
    + by rewrite IHbad.
    + by rewrite IHgood.
Qed.

Lemma transformed_entries (entries : list (string * value)) :
  Forall (fun e => transformed (snd e)) entries ->
  (existsb (fun e => hasInvalidDate (snd e)) entries = true ->
     mapM transformEntry entries = Throw rangeError)
  /\ (existsb (fun e => hasInvalidDate (snd e)) entries = false ->
      mapM transformEntry entries = Ok (List.map markEntry entries)).
Proof.
  induction 1 as [|[k x] r [Hbad Hgood] _ [IHbad IHgood]]; [done|].
  rewrite mapM_result_cons, transformEntry_pair. cbn [existsb List.map snd] in *.
  destruct (hasInvalidDate x) eqn:Hx.
  - split; [|done]. intros _. by rewrite Hbad.
  - rewrite (Hgood eq_refl). simpl. split; intros Hr.
    + by rewrite IHbad.
    + by rewrite IHgood.
Qed.

Lemma transformDatesToMarkers_transformed v : transformed v.
Proof.
  induction v as [| | | | | | | | |[t|]|items IH|entries IH] using value_induction;
    try (split; done).
  - destruct (transformed_items _ IH) as [Hbad Hgood].
    split; rewrite transform_array; cbn [hasInvalidDate]; intros Hr.
    + by rewrite Hbad.
    + by rewrite Hgood.
  - destruct (transformed_entries _ IH) as [Hbad Hgood].
    split; rewrite transform_object; cbn [hasInvalidDate]; intros Hr.
    + by rewrite Hbad.
    + by rewrite Hgood.
Qed.

Lemma dateFree_hasInvalidDate v : dateFree v = true -> hasInvalidDate v = false.
Proof.
  induction v as [| | | | | | | | |t|items IH|entries IH] using value_induction;
    try done; cbn [dateFree hasInvalidDate].
  - induction IH as [|x r Hx _ IHr]; [done|]. cbn [forallb existsb].
    intros [Hdx Hdr]%andb_true_iff. by rewrite Hx, IHr.
  - induction IH as [|x r Hx _ IHr]; [done|]. cbn [forallb existsb].
    intros [Hdx Hdr]%andb_true_iff. by rewrite Hx, IHr.
Qed.

Lemma withMarkers_dateFree v : hasInvalidDate v = false -> dateFree (withMarkers v) = true.
Proof.
  induction v as [| | | | | | | | |[t|]|items IH|entries IH] using value_induction;
    try done.
  - rewrite withMarkers_array. cbn [hasInvalidDate dateFree].
    induction IH as [|x r Hx _ IHr]; [done|]. cbn [existsb List.map forallb].
    intros [Hx' Hr]%orb_false_iff. by rewrite Hx, IHr.
  - rewrite withMarkers_object. cbn [hasInvalidDate dateFree].
    induction IH as [|[k x] r Hx _ IHr]; [done|]. cbn [existsb List.map List.filter snd] in *.
    intros [Hx' Hr]%orb_false_iff. change (markEntry (k, x)) with (k, withMarkers x).
    destruct (assignable (k, withMarkers x)); [|by apply IHr].
    cbn [forallb snd]. by rewrite Hx, IHr.
Qed.

Lemma withMarkers_protoFree v : protoFree (withMarkers v) = true.
Proof.
  induction v as [| | | | | | | | |[t|]|items IH|entries IH] using value_induction;
    try done.
  - rewrite withMarkers_array. cbn [protoFree].
    induction IH as [|x r Hx _ IHr]; [done|]. cbn [List.map forallb]. by rewrite Hx, IHr.
  - rewrite withMarkers_object. cbn [protoFree].
    induction IH as [|[k x] r Hx _ IHr]; [done|]. cbn [List.map List.filter snd] in *.
    change (markEntry (k, x)) with (k, withMarkers x).
    destruct (assignable (k, withMarkers x)) eqn:Hk; [|done].
    cbn [forallb snd]. by rewrite Hk, Hx, IHr.
Qed.

Lemma withMarkers_fixed v :
  dateFree v = true -> protoFree v = true -> withMarkers v = v.
Proof.
  induction v as [| | | | | | | | |[t|]|items IH|entries IH] using value_induction;
    try done.
  - rewrite withMarkers_array. cbn [dateFree protoFree]. intros Hd Hp. f_equal.
    induction IH as [|x r Hx _ IHr]; [done|]. cbn [forallb List.map] in *.
    apply andb_true_iff in Hd as [Hdx Hdr]. apply andb_true_iff in Hp as [Hpx Hpr].
    by rewrite Hx, IHr.
  - rewrite withMarkers_object. cbn [dateFree protoFree]. intros Hd Hp. f_equal.
    induction IH as [|[k x] r Hx _ IHr]; [done|]. cbn [forallb List.map List.filter snd] in *.
    apply andb_true_iff in Hd as [Hdx Hdr].
    apply andb_true_iff in Hp as [[Hk Hpx]%andb_true_iff Hpr].
    change (markEntry (k, x)) with (k, withMarkers x). rewrite Hx by done.
    rewrite Hk. by rewrite IHr.
Qed.

(** X1. What [transformDatesToMarkers] returns is its argument with the
    marker of every [Date] in the place of the [Date], and without the own
    properties named [__proto__]; it holds no [Date] and no such property any
    more, so a second pass changes nothing; and a value that held neither to
    begin with is returned as it is. *)
Theorem transformDatesToMarkers_removes_every_date v v' :
  transformDatesToMarkers v = Ok v' ->
  v' = withMarkers v
  /\ dateFree v' = true
  /\ protoFree v' = true
  /\ transformDatesToMarkers v' = Ok v'
  /\ (dateFree v = true -> protoFree v = true -> v' = v).
Proof.
  intros Hv. destruct (transformDatesToMarkers_transformed v) as [Hbad Hgood].
  destruct (hasInvalidDate v) eqn:Hi; [rewrite Hbad in Hv; done|].
  rewrite (Hgood eq_refl) in Hv. injection Hv as <-.
  pose proof (withMarkers_dateFree v Hi) as Hfree.
  pose proof (withMarkers_protoFree v) as Hproto.
  split; [done|]. split; [done|]. split; [done|]. split.
  - destruct (transformDatesToMarkers_transformed (withMarkers v)) as [_ Hgood'].
    rewrite (Hgood' (dateFree_hasInvalidDate _ Hfree)). f_equal.
    by apply withMarkers_fixed.
  - apply withMarkers_fixed.
Qed.

Lemma stringified_items items :
  Forall (fun x =>
            (hasBigInt x = true -> stringify (withMarkers x) = Throw bigIntError)
            /\ (hasBigInt x = false -> exists j, stringify (withMarkers x) = Ok j)) items ->
  (existsb hasBigInt items = true ->
     mapM stringifyItem (List.map withMarkers items) = Throw bigIntError)
  /\ (existsb hasBigInt items = false ->
      exists js, mapM stringifyItem (List.map withMarkers items) = Ok js).
Proof.
  induction 1 as [|x r [Hbad Hgood] _ [IHbad IHgood]]; [split; [done|by eexists]|].
  cbn [List.map existsb]. rewrite mapM_result_cons. unfold stringifyItem in *.
  destruct (hasBigInt x) eqn:Hx.
  - split; [|done]. intros _. by rewrite Hbad.
  - destruct (Hgood eq_refl) as [j ->]. simpl. split; intros Hr.
    + by rewrite IHbad.
    + destruct (IHgood Hr) as [js ->]. by eexists.
Qed.

Lemma stringified_entries (entries : list (string * value)) :
  Forall (fun e =>
            (hasBigInt (snd e) = true -> stringify (withMarkers (snd e)) = Throw bigIntError)
            /\ (hasBigInt (snd e) = false ->
                exists j, stringify (withMarkers (snd e)) = Ok j)) entries ->
  (existsb (fun e => assignable e && hasBigInt (snd e)) entries = true ->
     mapM stringifyMember (List.filter assignable (List.map markEntry entries))
     = Throw bigIntError)
  /\ (existsb (fun e => assignable e && hasBigInt (snd e)) entries = false ->
      exists members,
        mapM stringifyMember (List.filter assignable (List.map markEntry entries))
        = Ok members).
Proof.
  induction 1 as [|[k x] r [Hbad Hgood] _ [IHbad IHgood]]; [split; [done|by eexists]|].
  cbn [List.map existsb List.filter snd] in *. change (markEntry (k, x)) with (k, withMarkers x).
  change (assignable (k, withMarkers x)) with (assignable (k, x)).
  destruct (assignable (k, x)); [|done]. cbn [andb].
  rewrite mapM_result_cons, stringifyMember_pair.
  destruct (hasBigInt x) eqn:Hx.
  - split; [|done]. intros _. by rewrite Hbad.
  - destruct (Hgood eq_refl) as [j ->]. simpl. split; intros Hr.
    + by rewrite IHbad.
    + destruct (IHgood Hr) as [members ->]. by eexists.
Qed.

Lemma stringify_withMarkers v :
  (hasBigInt v = true -> stringify (withMarkers v) = Throw bigIntError)
  /\ (hasBigInt v = false -> exists j, stringify (withMarkers v) = Ok j).
Proof.
  induction v as [| | | | | | | | |[t|]|items IH|entries IH] using value_induction;
    try (split; [done|]; intros _; by eexists); try (split; done).
  - destruct (stringified_items _ IH) as [Hbad Hgood].
    rewrite withMarkers_array, stringify_array. cbn [hasBigInt]. split; intros Hr.
    + by rewrite Hbad.
    + destruct (Hgood Hr) as [js ->]. by eexists.
  - destruct (stringified_entries _ IH) as [Hbad Hgood].
    rewrite withMarkers_object, stringify_object. cbn [hasBigInt]. split; intros Hr.
    + by rewrite Hbad.
    + destruct (Hgood Hr) as [members ->]. by eexists.
Qed.

(** X2. [serialize] throws in two cases only.  If a [Date] in the [data] or
    the [metadata] is invalid, it throws the [RangeError] of [toISOString].
    Failing that, if a [BigInt] sits in the [data] or the [metadata], elsewhere
    than under a property named [__proto__], it throws the [TypeError] of
    [JSON.stringify].  Every other message is turned into the text of a JSON
    object. *)
Theorem serialize_throws_on_invalid_dates_and_bigints_only now uuid m :
  if invalidDates m then serialize now uuid m = Throw rangeError
  else if bigInts m then serialize now uuid m = Throw bigIntError
  else exists members, serialize now uuid m = Ok (JsonText (JObj members)).
Proof.
  unfold invalidDates, bigInts.
  destruct (transformDatesToMarkers_transformed (data m)) as [Hbad Hgood].
  destruct (hasInvalidDate (data m)); [by unfold serialize; rewrite Hbad|].
  specialize (Hgood eq_refl). cbn [orb].
  assert (match metadata m with
          | Some md => hasInvalidDate md
          | None => false
          end = true
          /\ match metadata m with
             | Some x => transformDatesToMarkers x
             | None => Ok VUndefined
             end = Throw rangeError
          \/ exists md,
               match metadata m with
               | Some md => hasInvalidDate md
               | None => false
               end = false
               /\ match metadata m with
                  | Some x => transformDatesToMarkers x
                  | None => Ok VUndefined
                  end = Ok (withMarkers md)
               /\ match metadata m with
                  | Some md => hasBigInt md
                  | None => false
                  end = hasBigInt md) as [[-> Hmd]|(md & -> & Hmd & ->)].
  { destruct (metadata m) as [x|]; [|right; by exists VUndefined].
    destruct (transformDatesToMarkers_transformed x) as [Hbad' Hgood'].
    destruct (hasInvalidDate x); [left; by split; [|apply Hbad']|].
    right. exists x. by split; [|split; [apply Hgood'|]]. }
  { unfold serialize. rewrite Hgood. simpl. by rewrite Hmd. }
  destruct (stringify_withMarkers (data m)) as [Hbig Hsmall].
  destruct (hasBigInt (data m)).
  { by apply (serialize_data_not_written _ _ _ _ _ _ Hgood Hmd), Hbig. }
  destruct (Hsmall eq_refl) as [jd Hjd]. cbn [orb].
  destruct (stringify_withMarkers md) as [Hbig' Hsmall'].
  destruct (hasBigInt md).
  { by apply (serialize_metadata_not_written _ _ _ _ _ _ _ Hgood Hmd Hjd), Hbig'. }
  destruct (Hsmall' eq_refl) as [jmd Hjmd]. eexists.
  by apply (serialize_written _ _ _ _ _ _ _ Hgood Hmd Hjd Hjmd).
Qed.

Lemma transformDatesToMarkers_undefined v :
  transformDatesToMarkers v = Ok VUndefined -> v = VUndefined.
Proof.
  destruct v as [| | | | | | | | |[t|]|items|entries]; try done.
  - rewrite transform_array. by destruct (mapM _ _).
  - rewrite transform_object. by destruct (mapM _ _).
Qed.

Lemma stringify_None v : stringify v = Ok None <-> v = VUndefined.
Proof.
  split; [|by intros ->]. destruct v as [| | | | | | | | |[t|]|items|entries]; try done.
  - rewrite stringify_array. by destruct (mapM _ _).
  - rewrite stringify_object. by destruct (mapM _ _).
Qed.

(** X3. The envelope [serialize] writes: an object with distinct member names
    among the six of an envelope, holding the message's type, the kind read
    off the type, the time of the call and the identifier drawn; [metadata]
    is absent for a message without it, and [data] is absent exactly when the
    message's [data] is [undefined]. *)
Theorem serialize_writes_the_envelope now uuid m doc :
  serialize now uuid m = Ok (JsonText doc) ->
  exists members,
    doc = JObj members
    /\ NoDup (List.map fst members)
    /\ List.map fst members ⊆ envelopeFields
    /\ lookupKey "type" members = Some (JStr (type m))
    /\ lookupKey "kind" members = Some (JStr (kindName (getMessageKind (type m))))
    /\ lookupKey "timestamp" members = Some (JStr (toISOString now))
    /\ lookupKey "messageId" members = Some (JStr uuid)
    /\ (lookupKey "data" members = None <-> data m = VUndefined)
    /\ (metadata m = None -> lookupKey "metadata" members = None).
Proof.
  destruct (transformDatesToMarkers (data m)) as [d|e] eqn:Hd;
    [|by unfold serialize; rewrite Hd].
  destruct (match metadata m with
            | Some x => transformDatesToMarkers x
            | None => Ok VUndefined
            end) as [md|e] eqn:Hmd;
    [|by unfold serialize; rewrite Hd; simpl; rewrite Hmd].
  destruct (stringify d) as [jd|e] eqn:Hjd;
    [|by rewrite (serialize_data_not_written _ _ _ d md e)].
  destruct (stringify md) as [jmd|e] eqn:Hjmd;
    [|by rewrite (serialize_metadata_not_written _ _ _ d md jd e)].
  rewrite (serialize_written _ _ _ d md jd jmd) by done. intros [= <-].
  assert (jd = None <-> data m = VUndefined) as Hdata.
  { split.
    - intros ->. apply stringify_None in Hjd as ->.
      by apply transformDatesToMarkers_undefined.
    - intros Hu. rewrite Hu in Hd. injection Hd as <-. by injection Hjd as <-. }
  assert (metadata m = None -> jmd = None) as Hnone.
  { intros Hm. rewrite Hm in Hmd. injection Hmd as <-. by injection Hjmd as <-. }
  eexists. split; [reflexivity|]. unfold envelopeMembers.
  destruct jd as [jd|], jmd as [jmd|];
    cbn [app List.map fst lookupKey String.eqb Ascii.eqb Bool.eqb andb];
    (split; [compute_done|]); (split; [compute_done|]);
    repeat (split; [reflexivity|]); split.
  all: try (intros Hm; by specialize (Hnone Hm)).
  all: try (split; [done|]; intros Hu; by apply Hdata in Hu).
  all: try (split; [intros _; by apply Hdata|done]).
  all: done.
Qed.

Lemma parse_null doc : parseWith dateReviver doc = VNull <-> doc = JNull.
Proof.
  split; [|by intros ->]. destruct doc as [| | | | |members]; try done.
  rewrite parse_object. unfold dateReviver.
  destruct (isDateMarker _); [|done]. by destruct (getProperty _ _).
Qed.

(** X4. [deserialize] throws on bytes that are no JSON text and on the text
    [null], with a message that starts [Failed to deserialize message: ], and
    on nothing else: every other document is accepted as it is, so that one
    that is no object at all yields a message whose type and data are
    [undefined]. *)
Theorem deserialize_rejects_only_unreadable_input buffer :
  match buffer with
  | Malformed syntaxError =>
      deserialize buffer
      = Throw (Error ("Failed to deserialize message: " +:+ syntaxError))
  | JsonText JNull =>
      exists reason,
        deserialize buffer = Throw (Error ("Failed to deserialize message: " +:+ reason))
  | JsonText (JObj members) =>
      exists message, deserialize buffer = Ok (VObj message)
  | JsonText _ => deserialize buffer = Ok untypedMessage
  end.
Proof.
  destruct buffer as [[| | | | |members]|err]; try done; [by eexists|].
  unfold deserialize.
  destruct (parseWith dateReviver (JObj members)) eqn:Hp; try by eexists.
  by apply parse_null in Hp.
Qed.

(** X6. Whatever [deserialize] returns carries no message identifier: the
    [messageId] of the envelope is not attached to the message, so
    [extractMessageId] finds none on a message that was received. *)
Theorem deserialized_message_has_no_id buffer v :
  deserialize buffer = Ok v -> extractMessageId v = VUndefined.
Proof.
  destruct buffer as [doc|err]; [|done]. unfold deserialize.
  destruct (parseWith dateReviver doc) eqn:He; try done; intros [= <-].
  all: unfold extractMessageId, hasProperty; simpl; first [done|by destruct (truthy _)].
Qed.

End WireFacts.

Lemma transformDatesToMarkers_removes_every_date_witness :
  VObj [("at", dateMarker "1705314600000"); ("tags", VArr [VStr "a"])]
  = withMarkers (api := decimalDates)
      (VObj [("at", VDate (Some 1705314600000)); ("__proto__", VNull);
             ("tags", VArr [VStr "a"])])
  /\ transformDatesToMarkers (api := decimalDates)
       (VObj [("at", dateMarker "1705314600000"); ("tags", VArr [VStr "a"])])
     = Ok (VObj [("at", dateMarker "1705314600000"); ("tags", VArr [VStr "a"])]).
Proof.
  destruct (transformDatesToMarkers_removes_every_date (api := decimalDates)
              (VObj [("at", VDate (Some 1705314600000)); ("__proto__", VNull);
                     ("tags", VArr [VStr "a"])])
              (VObj [("at", dateMarker "1705314600000"); ("tags", VArr [VStr "a"])])
              eq_refl)
    as (Hmarked & _ & _ & Hagain & _).
  split; [exact Hmarked|exact Hagain].
Defined.

Lemma deserialized_message_has_no_id_witness :
  extractMessageId
    (VObj [("type", VStr "CartEmptied"); ("data", VObj [("__messageId", VStr "m-1")])])
  = VUndefined.
Proof.
  apply (deserialized_message_has_no_id (api := decimalDates)
           (JsonText (JObj [("type", JStr "CartEmptied");
                            ("data", JObj [("__messageId", JStr "m-1")]);
                            ("messageId", JStr "id-1")]))).
  reflexivity.
Defined.

Lemma serialize_writes_the_envelope_witness :
  exists members,
    JObj [("type", JStr "CartEmptied"); ("kind", JStr "event"); ("data", JNull);
          ("timestamp", JStr "5"); ("messageId", JStr "id-1")] = JObj members
    /\ lookupKey "kind" members = Some (JStr "event")
    /\ lookupKey "metadata" members = None.
Proof.
  destruct (serialize_writes_the_envelope (api := decimalDates) 5 "id-1"
              {| type := "CartEmptied"; data := VNull; metadata := None |}
              (JObj [("type", JStr "CartEmptied"); ("kind", JStr "event"); ("data", JNull);
                     ("timestamp", JStr "5"); ("messageId", JStr "id-1")]) eq_refl)
    as (members & Hdoc & _ & _ & _ & Hkind & _ & _ & _ & Hmeta).
  exists members. split; [exact Hdoc|]. split; [exact Hkind|]. exact (Hmeta eq_refl).
Defined.

End MessageIdsFacts.

(** ** More facts about topicManager.ts: the names *)

Module NamingFacts.
Import Js TopicManager.

Lemma app_cancel_l (p a b : string) : p +:+ a = p +:+ b -> a = b.
Proof. induction p as [|c p IH]; simpl; [done|]. intros [= H]. by apply IH. Qed.

(** X9. Under one prefix, a topic name tells the kind and the type of message it
    carries: the names of two command types, or of two event types, differ,
    and no command topic is an event topic or the topic of the scheduled
    messages.  A subscription name tells the instance or the subscriber for a
    given type; it does not tell the type and the identifier apart, for the
    separator may occur in both. *)
Theorem topic_names_identify_kind_and_type prefix :
  (forall a b, getCommandTopicName a prefix = getCommandTopicName b prefix -> a = b)
  /\ (forall a b, getEventTopicName a prefix = getEventTopicName b prefix -> a = b)
  /\ (forall a b, getCommandTopicName a prefix <> getEventTopicName b prefix)
  /\ (forall a, getCommandTopicName a prefix <> prefix +:+ "-scheduled-messages"
              /\ getEventTopicName a prefix <> prefix +:+ "-scheduled-messages")
  /\ (forall T i j,
        (getCommandSubscriptionName T i prefix = getCommandSubscriptionName T j prefix
         -> i = j)
        /\ (getEventSubscriptionName T i prefix = getEventSubscriptionName T j prefix
            -> i = j))
  /\ getEventSubscriptionName "Order" "Paid-1" prefix
     = getEventSubscriptionName "Order-Paid" "1" prefix.
Proof.
  unfold getCommandTopicName, getEventTopicName, getCommandSubscriptionName,
    getEventSubscriptionName.
  split; [|split; [|split; [|split; [|split]]]].
  - intros a b H%app_cancel_l. by apply (app_cancel_l "-cmd-").
  - intros a b H%app_cancel_l. by apply (app_cancel_l "-evt-").
  - intros a b H%app_cancel_l. discriminate.
  - intros a. split; intros H%app_cancel_l; discriminate.
  - intros T i j. split; intros H%app_cancel_l.
    + apply (app_cancel_l "-cmd-"), app_cancel_l in H. by apply (app_cancel_l "-").
    + apply (app_cancel_l "-evt-"), app_cancel_l in H. by apply (app_cancel_l "-").
  - reflexivity.
Qed.

End NamingFacts.

(** ** More facts about messageHandler.ts: what a delivery decodes to *)

Module DecodingFacts.
Import Js Effects MessageHandler JsFacts EffectsFacts MessageHandlerFacts.

Lemma includes_after_deserialize_prefix t n x n' :
  n = String x n' -> Ascii.eqb x " " = false -> occurs ":" n = false ->
  includes "failed to deserialize message" n = false ->
  includes (toLowerCase "Failed to deserialize message: " +:+ t) n = includes t n.
Proof.
  intros -> Hx Hc Hp.
  change (toLowerCase "Failed to deserialize message: " +:+ t)
    with ("failed to deserialize message" +:+ String ":" (String " " t)).
  rewrite (includes_sep _ ":" _ _ Hc), Hp. cbn [orb].
  change (includes (String " " t) (String x n'))
    with (startsWith (String " " t) (String x n') || includes t (String x n')).
  cbn [startsWith]. by rewrite Hx.
Qed.

Lemma mentions_after_deserialize_prefix markers text :
  markers = retryMarkers \/ markers = permanentMarkers ->
  mentions markers ("Failed to deserialize message: " +:+ text) = mentions markers text.
Proof.
  unfold mentions. rewrite toLowerCase_app. set (t := toLowerCase text).
  intros [->| ->]; cbn [existsb retryMarkers permanentMarkers];
    repeat (erewrite (includes_after_deserialize_prefix t); [|reflexivity..]); done.
Qed.

Lemma shouldRetry_after_deserialize_prefix text :
  shouldRetry (Error ("Failed to deserialize message: " +:+ text))
  = shouldRetry (Error text).
Proof.
  rewrite !shouldRetry_policy. unfold Error.
  rewrite !mentions_after_deserialize_prefix; auto.
Qed.

Section DecodingDispatch.
Context {api : DateApi}.

(** X7. A delivery whose bytes are no JSON text reaches no handler.  Both
    dispatchers answer at once, and the wrapping of the parser's message does
    not count: the answer is the one [shouldRetry] gives for the parser's own
    message. *)
Theorem undecodable_payload_reaches_no_handler message
    (handlers : gmap string (list handler)) T syntaxError :
  data message = Malformed syntaxError ->
  (forall h, handlers !! T = Some [h] ->
     handleCommandMessage message handlers T
     = Ret (ackUnlessRetriable (Error syntaxError)))
  /\ (forall hs, handlers !! T = Some hs -> hs <> [] ->
       handleEventMessage message handlers T
       = Ret (ackUnlessRetriable (Error syntaxError))).
Proof.
  intros Hdata.
  assert (ackUnlessRetriable (Error ("Failed to deserialize message: " +:+ syntaxError))
          = ackUnlessRetriable (Error syntaxError)) as Hsame.
  { unfold ackUnlessRetriable. by rewrite shouldRetry_after_deserialize_prefix. }
  split.
  - intros h Hh. unfold handleCommandMessage. rewrite Hh, Hdata. cbv beta iota.
    unfold Serialization.deserialize. by rewrite andThen_throw, tryCatch_throw, Hsame.
  - intros hs Hhs Hne. rewrite <- Hsame.
    apply (handleEventMessage_undecodable message handlers T hs); [done..|].
    by rewrite Hdata.
Qed.

(** X8. A command with exactly one handler and a payload that decodes: the
    handler is awaited once, with the decoded command, and nothing else is;
    the delivery is acknowledged when the handler returns, and when it fails
    the failure decides. *)
Theorem single_command_handler_is_invoked_once message
    (handlers : gmap string (list handler)) T h cmd tr r :
  handlers !! T = Some [h] ->
  Serialization.deserialize (data message) = Ok cmd ->
  runs (handleCommandMessage message handlers T) tr r ->
  exists ans,
    tr = [(InvokeHandler h cmd, ans)]
    /\ r = match ans with
           | Resolved _ => ack
           | Rejected e => if shouldRetry e then nack else ack
           end.
Proof.
  intros Hh Hcmd Hrun.
  apply (runs_handleCommandMessage_single message handlers T h cmd tr r Hh Hcmd) in Hrun
    as [(v & -> & ->)|(e & -> & ->)]; eauto.
Qed.

End DecodingDispatch.

Lemma undecodable_payload_reaches_no_handler_witness :
  handleCommandMessage (api := decimalDates)
    {| data := Malformed "Unexpected token i in JSON at position 0"; deliveryAttempt := 1 |}
    {[ "AddProductItem" := [HandlerRef 7] ]} "AddProductItem"
  = Ret nack
  /\ handleEventMessage (api := decimalDates)
       {| data := Malformed "Unexpected token i in JSON at position 0"; deliveryAttempt := 1 |}
       fourSubscribers "ProductItemAdded"
     = Ret nack.
Proof.
  split.
  - exact (proj1 (undecodable_payload_reaches_no_handler (api := decimalDates)
             {| data := Malformed "Unexpected token i in JSON at position 0";
                deliveryAttempt := 1 |}
             {[ "AddProductItem" := [HandlerRef 7] ]} "AddProductItem" _ eq_refl)
           (HandlerRef 7) eq_refl).
  - apply (proj2 (undecodable_payload_reaches_no_handler (api := decimalDates)
             {| data := Malformed "Unexpected token i in JSON at position 0";
                deliveryAttempt := 1 |}
             fourSubscribers "ProductItemAdded" _ eq_refl)
           [HandlerRef 1; HandlerRef 2; HandlerRef 3; HandlerRef 4]); [reflexivity|done].
Defined.

Lemma single_command_handler_is_invoked_once_witness :
  exists ans,
    [(InvokeHandler (HandlerRef 7) productItemAddedEvent, Rejected (Error "Invalid quantity"))]
    = [(InvokeHandler (HandlerRef 7) productItemAddedEvent, ans)]
    /\ ack = match ans with
             | Resolved _ => ack
             | Rejected e => if shouldRetry e then nack else ack
             end.
Proof.
  apply (single_command_handler_is_invoked_once (api := decimalDates) productItemAdded
           {[ "ProductItemAdded" := [HandlerRef 7] ]} "ProductItemAdded" (HandlerRef 7)
           productItemAddedEvent); [reflexivity|reflexivity|].
  cbn. constructor. cbn. constructor.
Defined.

End DecodingFacts.

(** ** More facts about scheduler.ts *)

Module QueueFacts.
Import Js Effects Scheduler Protocol EffectsFacts SchedulerFacts.
Import Serialization (Message, serialize).
Import TopicManager (Topic, topicName).

Lemma filter_splits {A} (f : A -> bool) (l : list A) :
  Permutation l (List.filter f l ++ List.filter (fun x => negb (f x)) l).
Proof.
  induction l as [|x l IH]; [done|]. simpl. destruct (f x); simpl.
  - by constructor.
  - by apply Permutation_cons_app.
Qed.

(** X10. In the emulator, as long as every pending entry holds a valid date,
    [dequeue] loses nothing and duplicates nothing: the entries it returns
    and the entries it keeps are, together, the entries that were pending; the
    returned ones are due, the kept ones are not. *)
Theorem dequeue_conserves_dated_entries now s :
  useEmulator s = true ->
  Forall (fun info => is_Some (scheduledAt info)) (pendingMessages s) ->
  exists ready,
    fst (dequeue now s) = List.map released ready
    /\ Permutation (pendingMessages s) (ready ++ pendingMessages (snd (dequeue now s)))
    /\ Forall (fun info => dateLe (scheduledAt info) (Some now) = true) ready
    /\ Forall (fun info => dateLe (scheduledAt info) (Some now) = false)
         (pendingMessages (snd (dequeue now s)))
    /\ (length (fst (dequeue now s)) + getPendingCount (snd (dequeue now s))
        = getPendingCount s)%nat.
Proof.
  intros Hemu Hdated.
  destruct (dequeue_partitions_dated now s Hemu Hdated) as (Hready & Hkept & _ & _).
  exists (List.filter (fun info => dateLe (scheduledAt info) (Some now)) (pendingMessages s)).
  assert (useEmulator (snd (dequeue now s)) = true) as Hemu'.
  { unfold dequeue. by rewrite Hemu. }
  split; [done|]. rewrite Hkept. split; [apply filter_splits|].
  split; [|split].
  - apply List.Forall_forall. by intros info [_ ?]%List.filter_In.
  - apply List.Forall_forall. intros info [_ ?]%List.filter_In. by apply negb_true_iff.
  - unfold getPendingCount. rewrite Hemu, Hemu', Hready, Hkept, length_map, <- length_app.
    symmetry. apply Permutation_length, filter_splits.
Qed.

Section QueueLaws.
Context {api : DateApi}.

(** X11. In the emulator [schedule] awaits nothing and always succeeds, and the
    entry it appends is handed out by the [dequeue] calls made from then on
    exactly as if it had been there alone, after the entries scheduled before
    it: at time [t1] it is returned if its date is at most [t1], kept if its
    date is later.  A message scheduled without options is due at once, one
    scheduled an integral number [afterInMs] of milliseconds later is due from
    that instant on, a negative delay included. *)
Theorem emulator_releases_in_schedule_order t0 uuid msg opts s t1 :
  useEmulator s = true ->
  exists s1,
    schedule t0 uuid msg opts s = Ret (Ok tt, s1)
    /\ getPendingCount s1 = S (getPendingCount s)
    /\ fst (dequeue t1 s1)
       = (fst (dequeue t1 s)
          ++ if dateLe (calculateScheduledTime t0 opts) (Some t1)
             then [{| message := msg; options := opts |}] else [])%list
    /\ pendingMessages (snd (dequeue t1 s1))
       = (pendingMessages (snd (dequeue t1 s))
          ++ if dateGt (calculateScheduledTime t0 opts) (Some t1)
             then [{| infoMessage := msg; infoOptions := opts;
                      scheduledAt := calculateScheduledTime t0 opts |}]
             else [])%list
    /\ (opts = None ->
        (dateLe (calculateScheduledTime t0 opts) (Some t1) = true <-> t0 <= t1))
    /\ (forall d, opts = Some (AfterInMs d) -> Z.abs (t0 + d) <= maxTime ->
        (dateLe (calculateScheduledTime t0 opts) (Some t1) = true <-> t0 + d <= t1)).
Proof.
  intros Hemu. eexists. split; [by apply schedule_emulator|].
  unfold getPendingCount, dequeue, filterReadyMessages.
  cbn [useEmulator pendingMessages setPendingMessages]. rewrite Hemu.
  cbn [negb fst snd useEmulator pendingMessages setPendingMessages].
  rewrite !List.filter_app, List.map_app, length_app. cbn [List.filter List.map scheduledAt].
  split; [simpl; lia|]. split; [|split; [|split]].
  - by destruct (dateLe _ _).
  - by destruct (dateGt _ _).
  - intros ->. simpl. lia.
  - intros d -> Hd. simpl. unfold newDate.
    destruct (Z.leb_spec (Z.abs (t0 + d)) maxTime); [|lia]. simpl. lia.
Qed.

Lemma runs_publishScheduled_known now uuid msg at_ s topic tr r s' :
  scheduledTopic s = Some topic ->
  runs (publishScheduledMessage now uuid msg at_ s) tr (r, s') ->
  s' = s
  /\ ((tr = [] /\ exists e, r = Throw e)
      \/ exists buffer t ans,
           serialize now uuid msg = Ok buffer /\ at_ = Some t
           /\ tr = [(TopicPublish (topicName topic) buffer
                       [("messageType", Serialization.type msg);
                        ("publishTime", toISOString t)], ans)]
           /\ (fulfilled ans = true -> r = Ok tt)
           /\ (fulfilled ans = false -> exists e, r = Throw e)).
Proof.
  intros Htopic. unfold publishScheduledMessage. rewrite Htopic.
  destruct (serialize now uuid msg) as [buffer|error].
  - destruct at_ as [t|].
    + intros (ans & tr' & -> & Hrun)%runs_Await_inv.
      destruct ans; apply runs_Ret_inv in Hrun as [-> [= -> ->]];
        (split; [done|]); right; exists buffer, t; eexists;
        (split; [done|]); (split; [done|]); (split; [done|]); split; try done;
        intros _; by eexists.
    + intros [-> [= -> ->]]%runs_Ret_inv. split; [done|]. left. split; [done|]. by eexists.
  - intros [-> [= -> ->]]%runs_Ret_inv. split; [done|]. left. split; [done|]. by eexists.
Qed.

Lemma runs_publishScheduled_fresh now uuid msg at_ s tr r s' :
  scheduledTopic s = None ->
  runs (publishScheduledMessage now uuid msg at_ s) tr (r, s') ->
  s' = setScheduledTopic s {| topicName := topicPrefix s +:+ "-scheduled-messages" |}
  /\ exists pre post,
       tr = (pre ++ post)%list /\ pre <> []
       /\ Forall (fun e => isPublish e = false) pre
       /\ ((post = [] /\ exists e, r = Throw e)
           \/ runs (publishScheduledMessage now uuid msg at_ s') post (r, s')).
Proof.
  intros Htopic. unfold publishScheduledMessage at 1. rewrite Htopic.
  set (topic := {| topicName := topicPrefix s +:+ "-scheduled-messages" |}).
  intros (ans & tr1 & -> & Hrun)%runs_Await_inv. destruct ans as [v|error].
  - destruct (negb (truthy v)).
    + apply runs_Await_inv in Hrun as (ans & tr2 & -> & Hrun). destruct ans as [w|error].
      * pose proof (runs_publishScheduled_known now uuid msg at_ (setScheduledTopic s topic)
                      topic _ _ _ eq_refl Hrun) as [-> _].
        split; [done|].
        exists [(TopicExists (topicName topic), Resolved v);
                (TopicCreate (topicName topic), Resolved w)], tr2.
        split; [done|]. split; [done|]. split; [by repeat constructor|]. by right.
      * apply runs_Ret_inv in Hrun as [-> [= -> ->]]. split; [done|].
        exists [(TopicExists (topicName topic), Resolved v);
                (TopicCreate (topicName topic), Rejected error)], [].
        split; [done|]. split; [done|]. split; [by repeat constructor|].
        left. split; [done|]. by eexists.
    + pose proof (runs_publishScheduled_known now uuid msg at_ (setScheduledTopic s topic)
                    topic _ _ _ eq_refl Hrun) as [-> _].
      split; [done|]. exists [(TopicExists (topicName topic), Resolved v)], tr1.
      split; [done|]. split; [done|]. split; [by repeat constructor|]. by right.
  - apply runs_Ret_inv in Hrun as [-> [= -> ->]]. split; [done|].
    exists [(TopicExists (topicName topic), Rejected error)], [].
    split; [done|]. split; [done|]. split; [by repeat constructor|].
    left. split; [done|]. by eexists.
Qed.

(** X12. Outside the emulator a [schedule] buffers nothing and publishes at most
    once, as the last thing it does, and it succeeds exactly when that
    publication is fulfilled.  Whatever the outcome, the scheduler holds a
    topic afterwards: the one it was given, or else the topic named after the
    prefix, remembered before its existence was ever checked. *)
Theorem native_schedule_publishes_at_most_once now uuid msg opts s tr r s' :
  useEmulator s = false ->
  runs (schedule now uuid msg opts s) tr (r, s') ->
  pendingMessages s' = pendingMessages s
  /\ scheduledTopic s'
     = Some (default {| topicName := topicPrefix s +:+ "-scheduled-messages" |}
               (scheduledTopic s))
  /\ exists pre post,
       tr = (pre ++ post)%list
       /\ Forall (fun e => isPublish e = false) pre
       /\ (pre = [] <-> is_Some (scheduledTopic s))
       /\ ((post = [] /\ exists e, r = Throw e)
           \/ exists e, post = [e] /\ isPublish e = true
                        /\ (fulfilled (snd e) = true -> r = Ok tt)
                        /\ (fulfilled (snd e) = false -> exists error, r = Throw error)).
Proof.
  intros Hnative. unfold schedule. rewrite Hnative.
  assert (forall s0 topic post,
    scheduledTopic s0 = Some topic ->
    runs (publishScheduledMessage now uuid msg (calculateScheduledTime now opts) s0)
      post (r, s') ->
    (post = [] /\ exists e, r = Throw e)
    \/ exists e, post = [e] /\ isPublish e = true
                 /\ (fulfilled (snd e) = true -> r = Ok tt)
                 /\ (fulfilled (snd e) = false -> exists error, r = Throw error)) as Hknown.
  { intros s0 topic post Htopic Hrun.
    destruct (runs_publishScheduled_known _ _ _ _ _ _ _ _ _ Htopic Hrun)
      as [_ [?|(buffer & t & ans & _ & _ & -> & Hok & Hko)]]; [by left|].
    right. eexists. split; [done|]. by split. }
  destruct (scheduledTopic s) as [topic|] eqn:Htopic.
  - intros Hrun.
    destruct (runs_publishScheduled_known _ _ _ _ _ _ _ _ _ Htopic Hrun) as [-> _].
    split; [done|]. split; [done|]. exists [], tr. split; [done|]. split; [done|].
    split; [by split; [eexists|]|]. by eapply Hknown.
  - intros Hrun.
    destruct (runs_publishScheduled_fresh _ _ _ _ _ _ _ _ Htopic Hrun)
      as (-> & pre & post & -> & Hne & Hpre & Hpost).
    split; [done|]. split; [done|]. exists pre, post. split; [done|]. split; [done|].
    split; [split; [done|by intros [? [=]]]|].
    destruct Hpost as [?|Hpost]; [by left|].
    exact (Hknown (setScheduledTopic s _) _ _ eq_refl Hpost).
Qed.

(** X13. Outside the emulator the existence of the topic of the scheduled
    messages is checked by the first [schedule] only.  Whatever became of that
    first call, a later one awaits nothing but its own publication: a check or
    a creation that failed is not tried again. *)
Theorem scheduled_topic_is_checked_once now1 uuid1 msg1 opts1 now2 uuid2 msg2 opts2
    s tr1 r1 s1 tr2 r2 s2 :
  useEmulator s = false ->
  runs (schedule now1 uuid1 msg1 opts1 s) tr1 (r1, s1) ->
  runs (schedule now2 uuid2 msg2 opts2 s1) tr2 (r2, s2) ->
  Forall (fun e => isPublish e = true) tr2
  /\ (length tr2 <= 1)%nat
  /\ s2 = s1.
Proof.
  intros Hnative Hrun1 Hrun2.
  assert (useEmulator s1 = false /\ is_Some (scheduledTopic s1)) as [Hnative1 [topic Htopic]].
  { revert Hrun1. unfold schedule. rewrite Hnative. intros Hrun1.
    destruct (scheduledTopic s) as [topic|] eqn:Htopic.
    - destruct (runs_publishScheduled_known _ _ _ _ _ _ _ _ _ Htopic Hrun1) as [-> _].
      split; [done|]. by eexists.
    - destruct (runs_publishScheduled_fresh _ _ _ _ _ _ _ _ Htopic Hrun1) as [-> _].
      split; [done|]. by eexists. }
  revert Hrun2. unfold schedule. rewrite Hnative1. intros Hrun2.
  destruct (runs_publishScheduled_known _ _ _ _ _ _ _ _ _ Htopic Hrun2)
    as [-> [[-> _]|(buffer & t & ans & _ & _ & -> & _)]].
  - split; [constructor|]. split; [simpl; lia|done].
  - split; [by repeat constructor|]. split; [simpl; lia|done].
Qed.

End QueueLaws.

Lemma dequeue_conserves_dated_entries_witness :
  exists ready,
    fst (dequeue 6000
           (setPendingMessages (newMessageScheduler true None None)
              [{| infoMessage := reminder; infoOptions := Some (AfterInMs 5000);
                  scheduledAt := Some 5000 |};
               {| infoMessage := reminder; infoOptions := Some (AfterInMs 10000);
                  scheduledAt := Some 10000 |}]))
    = List.map released ready
    /\ length ready = 1%nat.
Proof.
  destruct (dequeue_conserves_dated_entries 6000
              (setPendingMessages (newMessageScheduler true None None)
                 [{| infoMessage := reminder; infoOptions := Some (AfterInMs 5000);
                     scheduledAt := Some 5000 |};
                  {| infoMessage := reminder; infoOptions := Some (AfterInMs 10000);
                     scheduledAt := Some 10000 |}]) eq_refl)
    as (ready & Hready & _).
  - repeat constructor; by eexists.
  - exists ready. split; [exact Hready|].
    apply (f_equal (@length _)) in Hready. rewrite length_map in Hready.
    symmetry. exact Hready.
Defined.

Lemma emulator_releases_in_schedule_order_witness :
  exists s1,
    schedule (api := decimalDates) 1000 "id-1" reminder (Some (AfterInMs (-250)))
      (newMessageScheduler true None None) = Ret (Ok tt, s1)
    /\ fst (dequeue 1000 s1) = [{| message := reminder; options := Some (AfterInMs (-250)) |}].
Proof.
  destruct (emulator_releases_in_schedule_order (api := decimalDates) 1000 "id-1" reminder
              (Some (AfterInMs (-250))) (newMessageScheduler true None None) 1000 eq_refl)
    as (s1 & Hs1 & _ & Hout & _).
  exists s1. split; [exact Hs1|exact Hout].
Defined.

Lemma native_schedule_publishes_at_most_once_witness :
  scheduledTopic
    (snd (snd (exec Publication.offline 0
                 (schedule (api := decimalDates) 0 "id-1" reminder None
                    (newMessageScheduler false None None)))))
  = Some {| topicName := "emmett-scheduled-messages" |}.
Proof.
  exact (proj1 (proj2
    (native_schedule_publishes_at_most_once (api := decimalDates) 0 "id-1" reminder None
       (newMessageScheduler false None None) _ _ _ eq_refl
       (exec_runs Publication.offline 0
          (schedule (api := decimalDates) 0 "id-1" reminder None
             (newMessageScheduler false None None)))))).
Defined.

Lemma scheduled_topic_is_checked_once_witness :
  Forall (fun e => isPublish e = true)
    (fst (exec Publication.online 0
            (schedule (api := decimalDates) 5 "id-2" reminder (Some (AfterInMs 1000))
               (setScheduledTopic (newMessageScheduler false None None)
                  {| topicName := "emmett-scheduled-messages" |}))))
  /\ (length
        (fst (exec Publication.online 0
                (schedule (api := decimalDates) 5 "id-2" reminder (Some (AfterInMs 1000))
                   (setScheduledTopic (newMessageScheduler false None None)
                      {| topicName := "emmett-scheduled-messages" |})))) <= 1)%nat
  /\ snd (snd (exec Publication.online 0
                 (schedule (api := decimalDates) 5 "id-2" reminder (Some (AfterInMs 1000))
                    (setScheduledTopic (newMessageScheduler false None None)
                       {| topicName := "emmett-scheduled-messages" |}))))
     = setScheduledTopic (newMessageScheduler false None None)
         {| topicName := "emmett-scheduled-messages" |}.
Proof.
  exact (scheduled_topic_is_checked_once (api := decimalDates)
           0 "id-1" reminder None 5 "id-2" reminder (Some (AfterInMs 1000))
           (newMessageScheduler false None None) _ _ _ _ _ _ eq_refl
           (exec_runs Publication.offline 0
              (schedule (api := decimalDates) 0 "id-1" reminder None
                 (newMessageScheduler false None None)))
           (exec_runs Publication.online 0
              (schedule (api := decimalDates) 5 "id-2" reminder (Some (AfterInMs 1000))
                 (setScheduledTopic (newMessageScheduler false None None)
                    {| topicName := "emmett-scheduled-messages" |})))).
Defined.

End QueueFacts.

(** ** More facts about pubsubMessageBus.ts: publications *)

Module PublicationFacts.
Import Js Effects TopicManager PubSubMessageBus Protocol Publication.
Import Serialization (Message, MessageKind, command, event, kindName, serialize).
Import EffectsFacts TopicManagerFacts.

Lemma runs_publishTo autoCreate name payload attributes wrap tr o :
  runs (publishTo autoCreate name payload attributes wrap) tr o
  <-> published autoCreate name payload attributes wrap tr o.
Proof.
  split.
  - intros H. unfold publishTo in H. destruct autoCreate; cbn in H; run_step H.
    + destruct (truthy v) eqn:Hv; cbn in H.
      * destruct payload as [buffer|e'] eqn:Hp; cbn in H; run_step H.
        -- run_step H.
           apply (published_sent _ _ _ _ _ [(TopicExists name, Resolved v)]); try done.
           by constructor.
        -- run_step H.
           apply (published_refused _ _ _ _ _ [(TopicExists name, Resolved v)]); try done.
           by constructor.
        -- apply published_not_serialized; [by constructor|done].
      * run_step H; [|run_step H; by constructor].
        destruct payload as [buffer|e'] eqn:Hp; cbn in H; run_step H.
        -- run_step H.
           apply (published_sent _ _ _ _ _
                    [(TopicExists name, Resolved v); (TopicCreate name, Resolved v0)]);
             try done. by constructor.
        -- run_step H.
           apply (published_refused _ _ _ _ _
                    [(TopicExists name, Resolved v); (TopicCreate name, Resolved v0)]);
             try done. by constructor.
        -- apply published_not_serialized; [by constructor|done].
    + run_step H. constructor.
    + destruct (truthy v) eqn:Hv; cbn in H.
      * destruct payload as [buffer|e'] eqn:Hp; cbn in H; run_step H.
        -- run_step H.
           apply (published_sent _ _ _ _ _ [(TopicExists name, Resolved v)]); try done.
           by constructor.
        -- run_step H.
           apply (published_refused _ _ _ _ _ [(TopicExists name, Resolved v)]); try done.
           by constructor.
        -- apply published_not_serialized; [by constructor|done].
      * run_step H. by constructor.
    + run_step H. constructor.
  - intros H. unfold publishTo.
    destruct H as [e|v Ha Hv|v e Ha Hv|pre e Hpre Hp|pre buffer e Hpre Hp|pre buffer v Hpre Hp].
    + destruct autoCreate; cbn; constructor; cbn; constructor.
    + subst autoCreate. cbn. constructor. cbn. rewrite Hv. cbn. constructor.
    + subst autoCreate. cbn. constructor. cbn. rewrite Hv. cbn. constructor. cbn.
      constructor.
    + subst payload. destruct Hpre as [v Hv|v w Ha Hv].
      * destruct autoCreate; cbn; constructor; cbn; rewrite Hv; cbn; constructor.
      * subst autoCreate. cbn. constructor. cbn. rewrite Hv. cbn. constructor. cbn.
        constructor.
    + subst payload. destruct Hpre as [v Hv|v w Ha Hv].
      * destruct autoCreate; cbn; constructor; cbn; rewrite Hv; cbn; constructor; cbn;
          constructor.
      * subst autoCreate. cbn. constructor. cbn. rewrite Hv. cbn. constructor. cbn.
        constructor. cbn. constructor.
    + subst payload. destruct Hpre as [v' Hv|v' w Ha Hv].
      * destruct autoCreate; cbn; constructor; cbn; rewrite Hv; cbn; constructor; cbn;
          constructor.
      * subst autoCreate. cbn. constructor. cbn. rewrite Hv. cbn. constructor. cbn.
        constructor. cbn. constructor.
Qed.

Section PublicationRuns.
Context {api : DateApi}.

Lemma publishMessage_shape now uuid bus message k :
  started bus = true ->
  publishMessage now uuid bus message k
  = publishTo (autoCreateResources (config bus)) (topicOf bus message k)
      (serialize now uuid message) (publishAttributes message k)
      (wrapPublishError k (Serialization.type message) (topicOf bus message k)).
Proof. unfold publishMessage, ensureStarted. by intros ->. Qed.

(** X14. On a started bus the runs of [publishMessage] are exactly the
    publications: the existence of the topic is checked, the topic is created
    if it is absent and creation is allowed, then the message is serialized
    and published once; the first failure ends the call and comes out as an
    [Error] that names the kind, the type and the topic. *)
Theorem publishMessage_runs_are_publications now uuid bus message k tr o :
  started bus = true ->
  runs (publishMessage now uuid bus message k) tr o
  <-> published (autoCreateResources (config bus)) (topicOf bus message k)
        (serialize now uuid message) (publishAttributes message k)
        (wrapPublishError k (Serialization.type message) (topicOf bus message k)) tr o.
Proof. intros Hstarted. rewrite publishMessage_shape by done. apply runs_publishTo. Qed.

End PublicationRuns.

Lemma topicReady_calls autoCreate name pre :
  topicReady autoCreate name pre ->
  Forall (fun e => isPublish e = false) pre
  /\ Forall (fun e => fulfilled (snd e) = true) pre
  /\ (autoCreate = false -> Forall (fun e => isTopicCreate e = false) pre).
Proof.
  intros [v Hv|v w Ha Hv]; (split; [|split]); try by repeat constructor.
  by rewrite Ha.
Qed.

Lemma published_limits autoCreate name payload attributes wrap tr o :
  published autoCreate name payload attributes wrap tr o ->
  (autoCreate = false -> Forall (fun e => isTopicCreate e = false) tr)
  /\ (forall c e, (c, Rejected e) ∈ tr -> o = Throw (wrap e))
  /\ (o = Ok tt <->
      exists pre buffer v,
        payload = Ok buffer
        /\ tr = (pre ++ [(TopicPublish name buffer attributes, Resolved v)])%list)
  /\ (exists pre post,
        tr = (pre ++ post)%list /\ Forall (fun e => isPublish e = false) pre
        /\ (post = [] \/ exists e, post = [e] /\ isPublish e = true))
  /\ (forall e, payload = Throw e ->
        Forall (fun e => isPublish e = false) tr /\ o <> Ok tt).
Proof.
  intros H.
  destruct H as [e|v Ha Hv|v e Ha Hv|pre e Hpre Hp|pre buffer e Hpre Hp|pre buffer v Hpre Hp].
  - split; [intros _; by repeat constructor|]. split.
    { intros c e' [[= -> ->]|[]%elem_of_nil]%elem_of_cons. done. }
    split; [split; [done|]; intros (pre & b & v & _ & Htr); by destruct pre as [|? [|]]|].
    split; [exists [(TopicExists name, Rejected e)], []; split; [done|];
            split; [by repeat constructor|by left]|].
    intros e' _. split; [by repeat constructor|done].
  - split; [intros _; by repeat constructor|]. split.
    { intros c e' [[=]|[]%elem_of_nil]%elem_of_cons. }
    split; [split; [done|]; intros (pre & b & w & _ & Htr); by destruct pre as [|? [|]]|].
    split; [exists [(TopicExists name, Resolved v)], []; split; [done|];
            split; [by repeat constructor|by left]|].
    intros e' _. split; [by repeat constructor|done].
  - split; [by rewrite Ha|]. split.
    { intros c e' [[=]|[[= -> ->]|[]%elem_of_nil]%elem_of_cons]%elem_of_cons. done. }
    split; [split; [done|]; intros (pre & b & w & _ & Htr);
            by destruct pre as [|? [|? [|]]]|].
    split; [exists [(TopicExists name, Resolved v); (TopicCreate name, Rejected e)], [];
            split; [done|]; split; [by repeat constructor|by left]|].
    intros e' _. split; [by repeat constructor|done].
  - destruct (topicReady_calls _ _ _ Hpre) as (Hnp & Hok & Hnc).
    split; [done|]. split.
    { intros c e' Hin. apply List.Forall_forall with (x := (c, Rejected e')) in Hok; [done|].
      by apply list_elem_of_In. }
    split; [split; [done|]; intros (? & b & w & Hb & _); congruence|].
    split; [exists pre, []; rewrite app_nil_r; split; [done|]; split; [done|by left]|].
    intros e' _. by split.
  - destruct (topicReady_calls _ _ _ Hpre) as (Hnp & Hok & Hnc).
    split; [intros Ha; apply Forall_app; split; [by apply Hnc|by repeat constructor]|].
    split.
    { intros c e' [Hin|[= -> ->]%list_elem_of_singleton]%elem_of_app; [|done].
      apply List.Forall_forall with (x := (c, Rejected e')) in Hok; [done|].
      by apply list_elem_of_In. }
    split; [split; [done|]; intros (pre' & b & w & _ & [_ [=]]%app_inj_tail)|].
    split; [exists pre; eexists; split; [done|]; split; [done|]; right; by eexists|].
    intros e' He'. congruence.
  - destruct (topicReady_calls _ _ _ Hpre) as (Hnp & Hok & Hnc).
    split; [intros Ha; apply Forall_app; split; [by apply Hnc|by repeat constructor]|].
    split.
    { intros c e' [Hin|[=]%list_elem_of_singleton]%elem_of_app.
      apply List.Forall_forall with (x := (c, Rejected e')) in Hok; [done|].
      by apply list_elem_of_In. }
    split; [split; [intros _; by exists pre, buffer, v|done]|].
    split; [exists pre; eexists; split; [done|]; split; [done|]; right; by eexists|].
    intros e' He'. congruence.
Qed.

Section PublicationLimits.
Context {api : DateApi}.

(** X15. What a publication never does.  It creates no topic unless
    [autoCreateResources] is set; it survives no rejection at all, not even a
    creation rejected because the topic exists by now; it publishes at most
    once, as its last call, and succeeds exactly when that call is fulfilled;
    and a message that cannot be serialized is not published, though its topic
    has been made ready by then. *)
Theorem publication_survives_no_rejection now uuid bus message k tr o :
  started bus = true ->
  runs (publishMessage now uuid bus message k) tr o ->
  (autoCreateResources (config bus) = false ->
     Forall (fun e => isTopicCreate e = false) tr)
  /\ (forall c e, (c, Rejected e) ∈ tr ->
        o = Throw (wrapPublishError k (Serialization.type message)
                     (topicOf bus message k) e))
  /\ (o = Ok tt <->
      exists pre buffer v,
        serialize now uuid message = Ok buffer
        /\ tr = (pre ++ [(TopicPublish (topicOf bus message k) buffer
                            (publishAttributes message k), Resolved v)])%list)
  /\ (exists pre post,
        tr = (pre ++ post)%list /\ Forall (fun e => isPublish e = false) pre
        /\ (post = [] \/ exists e, post = [e] /\ isPublish e = true))
  /\ (forall e, serialize now uuid message = Throw e ->
        Forall (fun e => isPublish e = false) tr /\ o <> Ok tt).
Proof.
  intros Hstarted Hrun. rewrite publishMessage_shape in Hrun by done.
  apply runs_publishTo in Hrun. by apply published_limits.
Qed.

End PublicationLimits.

Lemma publishMessage_runs_are_publications_witness :
  published true "emmett-cmd-Reminder"
    (serialize (api := decimalDates) 5 "id-1" Scheduler.reminder)
    [("messageType", "Reminder"); ("messageKind", "command")]
    (wrapPublishError command "Reminder" "emmett-cmd-Reminder")
    (fst (exec online 0 (send (api := decimalDates) 5 "id-1" startedCartBus Scheduler.reminder)))
    (Ok tt).
Proof.
  apply (proj1 (publishMessage_runs_are_publications (api := decimalDates) 5 "id-1"
                  startedCartBus Scheduler.reminder command _ _ eq_refl)).
  apply (exec_runs online 0
           (send (api := decimalDates) 5 "id-1" startedCartBus Scheduler.reminder)).
Defined.

Lemma publication_survives_no_rejection_witness :
  snd (exec offline 0 (publish (api := decimalDates) 5 "id-1" startedCartBus
                         Scheduler.reminder))
  = Throw (wrapPublishError event "Reminder" "emmett-evt-Reminder"
             (Error "getaddrinfo ENOTFOUND pubsub.googleapis.com")).
Proof.
  apply (proj1 (proj2 (publication_survives_no_rejection (api := decimalDates) 5 "id-1"
                         startedCartBus Scheduler.reminder event _ _ eq_refl
                         (exec_runs offline 0
                            (publish (api := decimalDates) 5 "id-1" startedCartBus
                               Scheduler.reminder))))
           (TopicExists "emmett-evt-Reminder")).
  cbn. left.
Defined.

End PublicationFacts.

(** ** From the publisher to the handlers *)

Module EndToEndFacts.
Import Js Effects MessageHandler TopicManager PubSubMessageBus Protocol Publication.
Import Serialization (Message, MessageKind, kindName, serialize, deserialize, faithful,
                      metadataKept, messageObject, datedOrder).
Import SerializationFacts EffectsFacts MessageHandlerFacts PublicationFacts.

Section EndToEnd.
Context {api : DateApi}.

Lemma faithful_message_decodes now uuid m buffer :
  faithful (Serialization.data m) = true ->
  metadataKept m = true ->
  serialize now uuid m = Ok buffer ->
  deserialize buffer = Ok (messageObject m).
Proof.
  intros Hdata Hmeta Hbuffer.
  destruct (faithful_roundtrip now uuid m Hdata Hmeta) as (buffer' & Hwritten & Hread).
  rewrite Hbuffer in Hwritten. by injection Hwritten as ->.
Qed.

(** X16. What is published is what the handlers get.  When the publication of a
    message that meets the conditions of the round trip ([faithful] data and
    metadata, the metadata absent or truthy) succeeds, its last call handed
    the client a payload; and a delivery of that payload, at whatever attempt,
    makes [handleCommandMessage] await the single handler of the type on the
    message itself, and makes [handleEventMessage] walk the handlers of the
    type on the message itself. *)
Theorem published_message_is_what_handlers_receive now uuid bus m k tr :
  started bus = true ->
  faithful (Serialization.data m) = true ->
  metadataKept m = true ->
  runs (publishMessage now uuid bus m k) tr (Ok tt) ->
  exists pre buffer v,
    tr = (pre ++ [(TopicPublish (topicOf bus m k) buffer (publishAttributes m k),
                   Resolved v)])%list
    /\ forall attempt (handlers : gmap string (list handler)) tr' r,
         (forall h,
            handlers !! Serialization.type m = Some [h] ->
            runs (handleCommandMessage {| data := buffer; deliveryAttempt := attempt |}
                    handlers (Serialization.type m)) tr' r ->
            exists ans,
              tr' = [(InvokeHandler h (messageObject m), ans)]
              /\ r = match ans with
                     | Resolved _ => ack
                     | Rejected e => ackUnlessRetriable e
                     end)
         /\ (forall hs,
              handlers !! Serialization.type m = Some hs -> hs <> [] ->
              (runs (handleEventMessage {| data := buffer; deliveryAttempt := attempt |}
                       handlers (Serialization.type m)) tr' r
               <-> walk (messageObject m) hs tr' r)).
Proof.
  intros Hstarted Hdata Hmeta Hrun. rewrite publishMessage_shape in Hrun by done.
  apply runs_publishTo, published_limits in Hrun as (_ & _ & [Hsent _] & _).
  destruct (Hsent eq_refl) as (pre & buffer & v & Hbuffer & ->).
  exists pre, buffer, v. split; [done|].
  pose proof (faithful_message_decodes _ _ _ _ Hdata Hmeta Hbuffer) as Hdecoded.
  intros attempt handlers tr' r. split.
  - intros h Hh Hrun.
    apply (runs_handleCommandMessage_single _ handlers _ h (messageObject m)) in Hrun
      as [(w & -> & ->)|(e & -> & ->)]; eauto.
  - intros hs Hhs Hne. by apply runs_handleEventMessage.
Qed.

End EndToEnd.

Lemma published_message_is_what_handlers_receive_witness :
  exists pre buffer v,
    fst (exec online 0 (publish (api := decimalDates) 5 "id-1" startedCartBus datedOrder))
    = (pre ++ [(TopicPublish "emmett-evt-OrderCreated" buffer
                  [("messageType", "OrderCreated"); ("messageKind", "event")],
                Resolved v)])%list.
Proof.
  destruct (published_message_is_what_handlers_receive (api := decimalDates) 5 "id-1"
              startedCartBus datedOrder Serialization.event
              (fst (exec online 0
                      (publish (api := decimalDates) 5 "id-1" startedCartBus datedOrder)))
              eq_refl eq_refl eq_refl
              (exec_runs online 0
                 (publish (api := decimalDates) 5 "id-1" startedCartBus datedOrder)))
    as (pre & buffer & v & Htr & Hdelivered).
  exists pre, buffer, v. exact Htr.
Defined.

End EndToEndFacts.

(** ** More facts about pubsubMessageBus.ts: the registry *)

Module RegistryFacts.
Import Js Effects PubSubMessageBus Registry PubSubMessageBusFacts.
Import Serialization (MessageKind, command, event).

Lemma handle_nil h bus : handle h [] bus = (Ok tt, bus).
Proof. reflexivity. Qed.

Lemma subscribe_cons h T rest bus :
  subscribe h (T :: rest) bus = subscribe h rest (registerEvent h T bus).
Proof. reflexivity. Qed.

Lemma handlers_registerCommand h T bus :
  handlers (registerCommand h T bus) = <[T := [h]]> (handlers bus).
Proof. reflexivity. Qed.

Lemma handlers_registerEvent h T bus :
  handlers (registerEvent h T bus) = <[T := (handlersOf bus T ++ [h])%list]> (handlers bus).
Proof. reflexivity. Qed.

Lemma ids_registerEvent h T bus :
  eventSubscriptionIds (registerEvent h T bus)
  = <[T := (subscriptionIdsOf bus T ++ [uuidSource bus (uuidsDrawn bus)])%list]>
      (eventSubscriptionIds bus).
Proof. reflexivity. Qed.

Lemma subscribers_registerEvent h T bus :
  subscriptionHandlers (registerEvent h T bus)
  = <[uuidSource bus (uuidsDrawn bus) := h]> (subscriptionHandlers bus).
Proof. reflexivity. Qed.

Lemma handle_keeps_commandTypes h types bus T :
  T ∈ commandTypes bus -> T ∈ commandTypes (snd (handle h types bus)).
Proof.
  revert bus. induction types as [|x rest IH]; intros bus Hin; [done|]. simpl.
  case_bool_decide; [done|]. apply IH. simpl. set_solver.
Qed.

(** X17. [handle] returns exactly when the types it is given are distinct and
    free; each of them then has the handler as its only one, and is a command
    type.  When it throws, it is for the first type that is taken or repeated,
    and the types before that one stay registered: the call is not undone. *)
Theorem handle_registers_up_to_the_first_taken_type h types bus :
  (fst (handle h types bus) = Ok tt
   <-> NoDup types /\ forall T, T ∈ types -> handlers bus !! T = None)
  /\ (fst (handle h types bus) = Ok tt ->
      forall T, T ∈ types ->
        handlers (snd (handle h types bus)) !! T = Some [h]
        /\ T ∈ commandTypes (snd (handle h types bus)))
  /\ (forall T, T ∉ types ->
        handlers (snd (handle h types bus)) !! T = handlers bus !! T)
  /\ (forall e, fst (handle h types bus) = Throw e ->
        exists before T after,
          types = (before ++ T :: after)%list
          /\ e = duplicateCommandHandler T
          /\ (T ∈ before \/ is_Some (handlers bus !! T))
          /\ handle h before bus = (Ok tt, snd (handle h types bus))).
Proof.
  revert bus. induction types as [|x rest IH]; intros bus.
  { rewrite handle_nil. split; [split; [intros _; split; [constructor|]|done]|].
    - by intros T ?%elem_of_nil.
    - split; [by intros _ T ?%elem_of_nil|]. split; [done|]. by intros e [=]. }
  destruct (handlers bus !! x) as [hs|] eqn:Hx.
  - rewrite handle_taken by (by rewrite Hx). cbn [fst snd].
    split; [split; [done|]|].
    { intros [_ Hfree]. specialize (Hfree x). rewrite Hx in Hfree.
      by specialize (Hfree ltac:(left)). }
    split; [done|]. split; [done|]. intros e [= <-]. exists [], x, rest.
    split; [done|]. split; [done|]. split; [right; by rewrite Hx|done].
  - rewrite handle_free by done.
    destruct (IH (registerCommand h x bus)) as (Hok & Hall & Hother & Hthrow).
    split; [|split; [|split]].
    + rewrite Hok, NoDup_cons. split.
      * intros [Hnodup Hfree]. split.
        -- split; [|done]. intros Hin. specialize (Hfree x Hin).
           by rewrite handlers_registerCommand, lookup_insert_eq in Hfree.
        -- intros T [->|Hin]%elem_of_cons; [done|].
           specialize (Hfree T Hin). rewrite handlers_registerCommand in Hfree.
           by apply lookup_insert_None in Hfree as [? _].
      * intros [[Hnotin Hnodup] Hfree]. split; [done|]. intros T Hin.
        rewrite handlers_registerCommand, lookup_insert_ne by (by intros ->).
        apply Hfree. by right.
    + intros Hret T [->|Hin]%elem_of_cons; [|by apply Hall].
      destruct (decide (x ∈ rest)) as [Hin|Hnotin]; [by apply Hall|].
      rewrite Hother by done. rewrite handlers_registerCommand, lookup_insert_eq.
      split; [done|]. apply handle_keeps_commandTypes. simpl.
      by apply elem_of_union_l, elem_of_singleton.
    + intros T [Hne Hnotin]%not_elem_of_cons. rewrite Hother by done.
      by rewrite handlers_registerCommand, lookup_insert_ne.
    + intros e He. destruct (Hthrow e He) as (before & T & after & -> & -> & Hwhy & Hpre).
      exists (x :: before), T, after. split; [done|]. split; [done|]. split.
      * destruct Hwhy as [Hin|Htaken]; [left; by right|].
        rewrite handlers_registerCommand in Htaken.
        destruct (decide (x = T)) as [->|Hne]; [left; by left|].
        right. by rewrite lookup_insert_ne in Htaken.
      * by rewrite handle_free.
Qed.

Lemma elem_of_add_eq (T : string) (X : gset string) : T ∈ {[T]} ∪ X.
Proof. set_solver. Qed.

Lemma elem_of_add_ne (T T' : string) (X : gset string) :
  T <> T' -> T' ∈ {[T]} ∪ X <-> T' ∈ X.
Proof.
  intros Hne. rewrite elem_of_union, elem_of_singleton.
  split; [by intros [->|?]|by right].
Qed.

Lemma wf_newBus cfg uuids : wellFormed (newBus cfg uuids).
Proof.
  split; unfold handlersOf, subscriptionIdsOf; simpl.
  - intros T hs. by rewrite lookup_empty.
  - intros T. rewrite lookup_empty. split; [by intros [? ?]|].
    by intros [?%elem_of_empty|?%elem_of_empty].
  - intros T. rewrite !lookup_empty. rewrite bool_decide_eq_false_2; [done|].
    apply not_elem_of_empty.
  - intros T. rewrite lookup_empty. split; [by intros ?%elem_of_empty|done].
  - intros T id. rewrite lookup_empty. by intros ?%elem_of_nil.
Qed.

Lemma wf_registerCommand h T bus :
  wellFormed bus -> handlers bus !! T = None -> wellFormed (registerCommand h T bus).
Proof.
  intros [Hne Htypes Hcount Hids Hsubs] Hfree.
  assert (T ∉ commandTypes bus) as HnotC.
  { intros Hin. destruct (proj2 (Htypes T)) as [? Hsome]; [by left|congruence]. }
  assert (T ∉ eventTypes bus) as HnotE.
  { intros Hin. destruct (proj2 (Htypes T)) as [? Hsome]; [by right|congruence]. }
  assert (subscriptionIdsOf bus T = []) as Hnone.
  { destruct (subscriptionIdsOf bus T) eqn:Hi; [done|]. destruct HnotE. apply Hids.
    by rewrite Hi. }
  split; unfold handlersOf, subscriptionIdsOf in *; rewrite ?handlers_registerCommand;
    cbn [commandTypes eventTypes eventSubscriptionIds subscriptionHandlers registerCommand].
  - intros T' hs. destruct (decide (T = T')) as [<-|Hd].
    + rewrite lookup_insert_eq. by intros [= <-].
    + rewrite lookup_insert_ne by done. apply Hne.
  - intros T'. destruct (decide (T = T')) as [<-|Hd].
    + rewrite lookup_insert_eq. split; [intros _; left; apply elem_of_add_eq|by eexists].
    + by rewrite lookup_insert_ne, Htypes, elem_of_add_ne by done.
  - intros T'. destruct (decide (T = T')) as [<-|Hd].
    + rewrite lookup_insert_eq, Hnone.
      by rewrite bool_decide_eq_true_2 by apply elem_of_add_eq.
    + rewrite lookup_insert_ne, Hcount by done.
      by rewrite (bool_decide_ext _ _ (elem_of_add_ne T T' (commandTypes bus) Hd)).
  - done.
  - done.
Qed.

Lemma wf_registerEvent h T bus : wellFormed bus -> wellFormed (registerEvent h T bus).
Proof.
  intros [Hne Htypes Hcount Hids Hsubs].
  split; unfold handlersOf, subscriptionIdsOf in *;
    rewrite ?handlers_registerEvent, ?ids_registerEvent, ?subscribers_registerEvent;
    unfold handlersOf, subscriptionIdsOf;
    cbn [commandTypes eventTypes registerEvent].
  - intros T' hs. destruct (decide (T = T')) as [<-|Hd].
    + rewrite lookup_insert_eq. intros [= <-]. by destruct (default [] _).
    + rewrite lookup_insert_ne by done. apply Hne.
  - intros T'. destruct (decide (T = T')) as [<-|Hd].
    + rewrite lookup_insert_eq. split; [intros _; right; apply elem_of_add_eq|by eexists].
    + by rewrite lookup_insert_ne, Htypes, elem_of_add_ne by done.
  - intros T'. destruct (decide (T = T')) as [<-|Hd].
    + rewrite !lookup_insert_eq. cbn [from_option id]. rewrite !length_app, Hcount. simpl. lia.
    + rewrite !lookup_insert_ne by done. apply Hcount.
  - intros T'. destruct (decide (T = T')) as [<-|Hd].
    + rewrite lookup_insert_eq. cbn [from_option id].
      split; [intros _; by destruct (default [] _)|intros _; apply elem_of_add_eq].
    + by rewrite lookup_insert_ne, <- Hids, elem_of_add_ne by done.
  - intros T' sid. destruct (decide (T = T')) as [<-|Hd].
    + rewrite lookup_insert_eq. cbn [from_option id].
      intros [Hin| ->%list_elem_of_singleton]%elem_of_app.
      * apply lookup_insert_is_Some'. right. by apply (Hsubs T).
      * apply lookup_insert_is_Some'. by left.
    + rewrite lookup_insert_ne by done. intros Hin.
      apply lookup_insert_is_Some'. right. by apply (Hsubs T').
Qed.

Lemma wf_handle h types bus : wellFormed bus -> wellFormed (snd (handle h types bus)).
Proof.
  revert bus. induction types as [|x rest IH]; intros bus Hwf; [done|].
  destruct (handlers bus !! x) as [hs|] eqn:Hx.
  - by rewrite handle_taken by (by rewrite Hx).
  - rewrite handle_free by done. by apply IH, wf_registerCommand.
Qed.

Lemma wf_subscribe h types bus : wellFormed bus -> wellFormed (snd (subscribe h types bus)).
Proof.
  revert bus. induction types as [|x rest IH]; intros bus Hwf; [done|].
  rewrite subscribe_cons. by apply IH, wf_registerEvent.
Qed.

Lemma wf_registered cfg uuids calls : wellFormed (registered cfg uuids calls).
Proof.
  unfold registered. generalize (wf_newBus cfg uuids). generalize (newBus cfg uuids).
  induction calls as [|r calls IH]; intros bus Hwf; [done|]. simpl. apply IH.
  destruct r; [by apply wf_handle|by apply wf_subscribe].
Qed.

(** X18. Whatever calls of [handle] and [subscribe] were made on a new bus, and
    whichever of them threw, its maps and sets agree: a type has handlers
    exactly when it is a command type or an event type, and then at least one;
    it has one handler per subscriber, and one more if it is a command type;
    every subscription identifier has its handler.  So a type that is only a
    command type has exactly one handler, and a type that is both has at least
    two. *)
Theorem registered_bus_is_well_formed cfg uuids calls :
  wellFormed (registered cfg uuids calls)
  /\ (forall T,
        T ∈ commandTypes (registered cfg uuids calls) ->
        T ∉ eventTypes (registered cfg uuids calls) ->
        exists h, handlers (registered cfg uuids calls) !! T = Some [h])
  /\ (forall T,
        T ∈ commandTypes (registered cfg uuids calls) ->
        T ∈ eventTypes (registered cfg uuids calls) ->
        (2 <= length (handlersOf (registered cfg uuids calls) T))%nat)
  /\ (forall T,
        T ∉ commandTypes (registered cfg uuids calls) ->
        length (handlersOf (registered cfg uuids calls) T)
        = length (subscriptionIdsOf (registered cfg uuids calls) T)).
Proof.
  pose proof (wf_registered cfg uuids calls) as Hwf.
  set (bus := registered cfg uuids calls) in *.
  destruct Hwf as [Hne Htypes Hcount Hids Hsubs].
  split; [by split|]. split; [|split].
  - intros T HC HE. specialize (Hcount T). rewrite bool_decide_eq_true_2 in Hcount by done.
    assert (subscriptionIdsOf bus T = []) as Hnone.
    { destruct (subscriptionIdsOf bus T) eqn:Hi; [done|]. destruct HE. apply Hids.
      by rewrite Hi. }
    rewrite Hnone in Hcount. unfold handlersOf in Hcount.
    destruct (handlers bus !! T) as [[|h [|? ?]]|]; try done. by exists h.
  - intros T HC HE. specialize (Hcount T). rewrite bool_decide_eq_true_2 in Hcount by done.
    apply Hids in HE. destruct (subscriptionIdsOf bus T); [done|].
    rewrite Hcount. simpl. lia.
  - intros T HC. specialize (Hcount T).
    rewrite bool_decide_eq_false_2 in Hcount by done. lia.
Qed.

Lemma plannedFor_wellFormed bus T :
  wellFormed bus -> is_Some (handlers bus !! T) ->
  if bool_decide (T ∈ commandTypes bus)
  then plannedFor bus T
       = [{| provisionedType := T; provisionedKind := command; provisionedId := None |}]
  else plannedFor bus T
       = List.map
           (fun subId =>
              {| provisionedType := T; provisionedKind := event;
                 provisionedId := Some subId |})
           (subscriptionIdsOf bus T)
       /\ length (subscriptionIdsOf bus T) = length (handlersOf bus T)
       /\ subscriptionIdsOf bus T <> []
       /\ forall subId, subId ∈ subscriptionIdsOf bus T ->
            is_Some (subscriptionHandlers bus !! subId).
Proof.
  intros [Hne Htypes Hcount Hids Hsubs] Hsome. unfold plannedFor, determineMessageKind.
  case_bool_decide as HC; [done|].
  apply Htypes in Hsome as [?|HE]; [done|]. rewrite bool_decide_eq_true_2 by done.
  specialize (Hcount T). rewrite bool_decide_eq_false_2 in Hcount by done.
  apply Hids in HE. split; [|split; [lia|split; [done|apply Hsubs]]].
  unfold subscriptionIdsOf in *. by destruct (eventSubscriptionIds bus !! T).
Qed.

(** X19. What [start] provisions for a type that has handlers, on a bus that was
    set up by calls of [handle] and [subscribe]: one command subscription if
    the type is a command type, whether or not it has subscribers too;
    otherwise one event subscription per subscriber, each under an identifier
    that has its handler.  The kind is never guessed from the name, and the
    instance identifier never stands in for a subscriber's. *)
Theorem start_plans_by_registration cfg uuids calls T :
  is_Some (handlers (registered cfg uuids calls) !! T) ->
  if bool_decide (T ∈ commandTypes (registered cfg uuids calls))
  then plannedFor (registered cfg uuids calls) T
       = [{| provisionedType := T; provisionedKind := command; provisionedId := None |}]
  else plannedFor (registered cfg uuids calls) T
       = List.map
           (fun subId =>
              {| provisionedType := T; provisionedKind := event;
                 provisionedId := Some subId |})
           (subscriptionIdsOf (registered cfg uuids calls) T)
       /\ length (subscriptionIdsOf (registered cfg uuids calls) T)
          = length (handlersOf (registered cfg uuids calls) T)
       /\ subscriptionIdsOf (registered cfg uuids calls) T <> []
       /\ forall subId, subId ∈ subscriptionIdsOf (registered cfg uuids calls) T ->
            is_Some (subscriptionHandlers (registered cfg uuids calls) !! subId).
Proof. apply plannedFor_wellFormed, wf_registered. Qed.

Lemma subscribeAll_cons h hs T bus :
  subscribeAll (h :: hs) T bus = subscribeAll hs T (registerEvent h T bus).
Proof. reflexivity. Qed.

Lemma subscribeAll_keeps_other_subscribers hs T bus key :
  key ∉ List.map (uuidSource bus) (seq (uuidsDrawn bus) (length hs)) ->
  subscriptionHandlers (subscribeAll hs T bus) !! key = subscriptionHandlers bus !! key.
Proof.
  revert bus. induction hs as [|h hs IH]; intros bus Hkey; [done|].
  rewrite subscribeAll_cons. simpl in Hkey. apply not_elem_of_cons in Hkey as [Hne Hkey].
  rewrite IH by done. rewrite subscribers_registerEvent. by rewrite lookup_insert_ne.
Qed.

(** X20. Subscribers of one event type, registered one after the other: the type
    gets their handlers after those it had, in order, and one fresh
    subscription identifier each; and as long as the identifiers drawn are
    distinct, each identifier leads to the handler of its own subscriber. *)
Theorem each_subscriber_gets_its_own_subscription hs T bus :
  NoDup (List.map (uuidSource bus) (seq (uuidsDrawn bus) (length hs))) ->
  handlersOf (subscribeAll hs T bus) T = (handlersOf bus T ++ hs)%list
  /\ subscriptionIdsOf (subscribeAll hs T bus) T
     = (subscriptionIdsOf bus T
        ++ List.map (uuidSource bus) (seq (uuidsDrawn bus) (length hs)))%list
  /\ forall i h,
       hs !! i = Some h ->
       subscriptionHandlers (subscribeAll hs T bus) !! uuidSource bus (uuidsDrawn bus + i)%nat
       = Some h.
Proof.
  revert bus. induction hs as [|h hs IH]; intros bus Hnodup.
  { simpl. rewrite !app_nil_r. split; [done|]. split; [done|]. by intros i h'. }
  rewrite subscribeAll_cons. simpl in Hnodup. apply NoDup_cons in Hnodup as [Hfresh Hnodup].
  destruct (IH (registerEvent h T bus) Hnodup) as (Hhs & Hids & Hsub).
  rewrite Hhs, Hids. unfold handlersOf at 1, subscriptionIdsOf at 1.
  rewrite handlers_registerEvent, ids_registerEvent, !lookup_insert_eq.
  cbn [from_option id length seq List.map]. rewrite <- !app_assoc.
  split; [done|]. split; [done|]. intros [|i] h'.
  - intros [= <-]. rewrite Nat.add_0_r.
    rewrite subscribeAll_keeps_other_subscribers by done.
    by rewrite subscribers_registerEvent, lookup_insert_eq.
  - intros Hi. specialize (Hsub i h' Hi). cbn [uuidSource uuidsDrawn registerEvent] in Hsub.
    by rewrite Nat.add_succ_r.
Qed.

Lemma start_plans_by_registration_witness :
  plannedFor mixedRegistry "AddProductItem"
  = [{| provisionedType := "AddProductItem"; provisionedKind := command;
        provisionedId := None |}].
Proof.
  exact (start_plans_by_registration (config cartBus) (uuidSource cartBus)
           [Handle (HandlerRef 1) ["AddProductItem"];
            Subscribe (HandlerRef 2) ["AddProductItem"]]
           "AddProductItem" (mk_is_Some _ _ eq_refl)).
Defined.

Lemma each_subscriber_gets_its_own_subscription_witness :
  handlersOf (subscribeAll [HandlerRef 2; HandlerRef 3] "ProductItemAdded" cartBus)
    "ProductItemAdded"
  = [HandlerRef 2; HandlerRef 3]
  /\ subscriptionHandlers
       (subscribeAll [HandlerRef 2; HandlerRef 3] "ProductItemAdded" cartBus)
     !! "subscriber-1"
     = Some (HandlerRef 3).
Proof.
  destruct (each_subscriber_gets_its_own_subscription [HandlerRef 2; HandlerRef 3]
              "ProductItemAdded" cartBus) as (Hhs & _ & Hsub).
  - compute_done.
  - split; [exact Hhs|]. exact (Hsub 1%nat (HandlerRef 3) eq_refl).
Defined.

End RegistryFacts.

(** ** Facts about listeners and clean-up *)

Module DeliveryFacts.
Import Js Effects MessageHandler TopicManager PubSubMessageBus Registry Delivery.
Import Serialization (MessageKind, command, event).
Import EffectsFacts MessageHandlerFacts TopicManagerFacts RegistryFacts.

Lemma performs_Done_inv {A} (a : A) steps b : performs (Done a) steps b -> steps = [] /\ b = a.
Proof. by inversion 1. Qed.

Lemma performs_Perform_inv {A} o (k : answer -> task A) steps b :
  performs (Perform o k) steps b ->
  exists ans rest, steps = (o, ans) :: rest /\ performs (k ans) rest b.
Proof. inversion 1; subst. eauto. Qed.

Lemma performs_andAfter {A B} (t : task A) (f : A -> task B) steps b :
  performs (andAfter t f) steps b <->
  exists s1 s2 a, steps = (s1 ++ s2)%list /\ performs t s1 a /\ performs (f a) s2 b.
Proof.
  revert steps. induction t as [a|o k IH]; intros steps; simpl.
  - split.
    + intros Hf. exists [], steps, a. repeat split; [constructor|done].
    + intros (s1 & s2 & a' & -> & [-> ->]%performs_Done_inv & Hf). done.
  - split.
    + intros (ans & rest & -> & Hk)%performs_Perform_inv.
      apply IH in Hk as (s1 & s2 & a & -> & Hp & Hf).
      exists ((o, ans) :: s1), s2, a. repeat split; [by constructor|done].
    + intros (s1 & s2 & a & -> & (ans & rest & -> & Hk)%performs_Perform_inv & Hf).
      simpl. constructor. apply IH. by exists rest, s2, a.
Qed.

Lemma performs_lift {A} (p : prog A) steps a :
  performs (lift p) steps a <-> exists tr, runs p tr a /\ steps = awaited tr.
Proof.
  revert steps. induction p as [b|c k IH]; intros steps; simpl.
  - split.
    + intros [-> ->]%performs_Done_inv. exists []. split; [constructor|done].
    + intros (tr & [-> ->]%runs_Ret_inv & ->). constructor.
  - split.
    + intros (ans & rest & -> & Hk)%performs_Perform_inv.
      apply IH in Hk as (tr & Hrun & ->). exists ((c, ans) :: tr).
      split; [by constructor|done].
    + intros (tr & (ans & tr' & -> & Hk)%runs_Await_inv & ->). simpl. constructor.
      apply IH. by exists tr'.
Qed.

Lemma performs_attempt o steps r :
  performs (attempt o) steps r <->
  exists ans,
    steps = [(o, ans)]
    /\ r = match ans with Resolved v => Ok v | Rejected e => Throw e end.
Proof.
  unfold attempt. split.
  - intros (ans & rest & -> & Hk)%performs_Perform_inv. exists ans.
    destruct ans; apply performs_Done_inv in Hk as [-> ->]; done.
  - intros (ans & -> & ->). constructor. destruct ans; constructor.
Qed.

Lemma runs_andThen {A B} (p : prog (result A)) (f : A -> prog (result B)) tr o :
  runs (andThen p f) tr o
  <-> (exists e, runs p tr (Throw e) /\ o = Throw e)
      \/ (exists tr1 tr2 a,
            tr = (tr1 ++ tr2)%list /\ runs p tr1 (Ok a) /\ runs (f a) tr2 o).
Proof.
  unfold andThen. change (?q ≫= ?g) with (bind q g). rewrite runs_bind. split.
  - intros (tr1 & tr2 & [a|e] & -> & Hp & Hf).
    + right. by exists tr1, tr2, a.
    + apply runs_Ret_inv in Hf as [-> ->]. left. exists e. by rewrite app_nil_r.
  - intros [(e & Hp & ->)|(tr1 & tr2 & a & -> & Hp & Hf)].
    + exists tr, [], (Throw e). rewrite app_nil_r. split; [done|]. split; [done|constructor].
    + by exists tr1, tr2, (Ok a).
Qed.

Lemma ensured_resource {R} existsCall createCall (resource : R) wrap tr r :
  ensured existsCall createCall resource wrap tr (Ok r) -> r = resource.
Proof. by inversion 1. Qed.

(** X23. [createSubscriptionForType] makes the topic sure, then the
    subscription, by the names of the kind, and stops at the first of the two
    that fails, letting its error through; the subscription is listened to and
    tracked only when both are there.  A command subscription is named after
    the instance, an event subscription after the identifier it is given. *)
Theorem subscription_is_tracked_once_provisioned cfg T kind subId tr o :
  runs (createSubscriptionForType cfg T kind subId) tr o
  <-> (exists e,
         ensured (TopicExists (topicFor cfg T kind)) (TopicCreate (topicFor cfg T kind))
           {| topicName := topicFor cfg T kind |} (wrapTopicError (topicFor cfg T kind))
           tr (Throw e)
         /\ o = Throw e)
      \/ (exists tr1 tr2,
            tr = (tr1 ++ tr2)%list
            /\ ensured (TopicExists (topicFor cfg T kind)) (TopicCreate (topicFor cfg T kind))
                 {| topicName := topicFor cfg T kind |}
                 (wrapTopicError (topicFor cfg T kind)) tr1
                 (Ok {| topicName := topicFor cfg T kind |})
            /\ exists r,
                 ensured
                   (SubscriptionExists (topicFor cfg T kind)
                      (subscriptionFor cfg T kind subId))
                   (SubscriptionCreate (topicFor cfg T kind)
                      (subscriptionFor cfg T kind subId)
                      (subscriptionConfig (subscriptionOptions cfg)))
                   {| subscriptionTopic := {| topicName := topicFor cfg T kind |};
                      subscriptionName := subscriptionFor cfg T kind subId |}
                   (wrapSubscriptionError (subscriptionFor cfg T kind subId)) tr2 r
                 /\ o = match r with
                        | Throw e => Throw e
                        | Ok subscription_ =>
                            Ok (listenAndTrack T kind subId
                                  {| topicName := topicFor cfg T kind |} subscription_)
                        end).
Proof.
  unfold createSubscriptionForType. rewrite runs_andThen.
  rewrite getOrCreateTopic_shape.
  setoid_rewrite runs_ensureResource. apply or_iff_compat_l. split.
  - intros (tr1 & tr2 & topic_ & -> & Htopic & Hrest).
    pose proof (ensured_resource _ _ _ _ _ _ Htopic) as ->.
    exists tr1, tr2. split; [done|]. split; [done|].
    apply runs_andThen in Hrest as [(e & Hsub & ->)|(tr3 & tr4 & sub & -> & Hsub & Hret)].
    + exists (Throw e). split; [|done].
      by rewrite getOrCreateSubscription_shape, runs_ensureResource in Hsub.
    + apply runs_Ret_inv in Hret as [-> ->]. rewrite app_nil_r. exists (Ok sub).
      split; [|done].
      by rewrite getOrCreateSubscription_shape, runs_ensureResource in Hsub.
  - intros (tr1 & tr2 & -> & Htopic & r & Hsub & ->).
    exists tr1, tr2, {| topicName := topicFor cfg T kind |}. split; [done|]. split; [done|].
    apply runs_andThen. rewrite getOrCreateSubscription_shape.
    setoid_rewrite runs_ensureResource. destruct r as [sub|e].
    + right. exists tr2, [], sub. rewrite app_nil_r. split; [done|]. split; [done|].
      constructor.
    + left. by exists e.
Qed.

Section ListeningFacts.
Context {api : DateApi}.

Lemma performs_onMessage T kind (handlers : gmap string (list handler)) message steps o :
  performs (onMessage T kind handlers message) steps o
  <-> exists tr verdict settle,
        runs (match kind with
              | command => handleCommandMessage message handlers T
              | event => handleEventMessage message handlers T
              end) tr verdict
        /\ settles verdict settle o
        /\ steps = (awaited tr ++ settle)%list.
Proof.
  unfold onMessage. rewrite performs_andAfter. split.
  - intros (s1 & s2 & verdict & -> & (tr & Hrun & ->)%performs_lift & Hsettle).
    exists tr, verdict, s2. split; [done|]. split; [|done].
    apply performs_andAfter in Hsettle
      as (s3 & s4 & settled & -> & (ans & -> & ->)%performs_attempt & Hrest).
    destruct ans as [v|e].
    + apply performs_Done_inv in Hrest as [-> ->]. constructor.
    + apply performs_andAfter in Hrest
        as (s5 & s6 & again & -> & (ans & -> & ->)%performs_attempt & Hrest).
      destruct ans as [v|e']; apply performs_Done_inv in Hrest as [-> ->]; constructor.
  - intros (tr & verdict & settle & Hrun & Hsettle & ->).
    exists (awaited tr), settle, verdict. split; [done|].
    split; [apply performs_lift; by exists tr|].
    destruct Hsettle as [v|e v|e e']; cbn; constructor; cbn; repeat constructor.
Qed.

(** X21. The callback of a listener runs the dispatcher of its kind, awaiting
    what the dispatcher awaits and nothing else, and then settles the delivery
    for the dispatcher's verdict: once, with [ack] or [nack] as the verdict
    says; a second time, with [nack], only if the first call threw. *)
Theorem listener_settles_for_the_verdict T kind (handlers : gmap string (list handler))
    message steps o :
  performs (onMessage T kind handlers message) steps o
  <-> exists tr verdict settle,
        runs (match kind with
              | command => handleCommandMessage message handlers T
              | event => handleEventMessage message handlers T
              end) tr verdict
        /\ settles verdict settle o
        /\ steps = (awaited tr ++ settle)%list.
Proof. apply performs_onMessage. Qed.

Lemma settles_isSettlement verdict settle o :
  settles verdict settle o -> Forall (fun s => isSettlement s = true) settle.
Proof. intros [v|e v|e e']; destruct verdict; by repeat constructor. Qed.

(** X24. The subscription made for one subscriber serves that subscriber alone.
    On a bus whose maps agree, the end of [createSubscriptionForType] for an
    event type and the identifier of one of its subscriptions adds a listener
    with a map of its own, holding the handler kept under that identifier and
    no other; and whatever is registered on the bus later, a delivery that
    decodes makes that listener await this one handler, once, before it
    settles. *)
Theorem subscription_of_a_subscriber_serves_it_alone bus T subId topic_ subscription_
    listeners :
  wellFormed bus ->
  subId ∈ subscriptionIdsOf bus T ->
  subId <> "" ->
  exists h,
    subscriptionHandlers bus !! subId = Some h
    /\ snd (listenAndTrack T event (Some subId) topic_ subscription_ (bus, listeners))
       = (listeners
          ++ [{| listenedSubscription := subscription_; listenedType := T;
                 listenedKind := event;
                 listenedHandlers := OwnHandlers {[ T := [h] ]} |}])%list
    /\ forall later message ev steps o,
         Serialization.deserialize (data message) = Ok ev ->
         performs (deliver later
                     {| listenedSubscription := subscription_; listenedType := T;
                        listenedKind := event;
                        listenedHandlers := OwnHandlers {[ T := [h] ]} |} message) steps o ->
         exists ans settle,
           steps = (Awaited (InvokeHandler h ev), ans) :: settle
           /\ Forall (fun s => isSettlement s = true) settle.
Proof.
  intros Hwf Hin Hne. destruct (wf_subscribers _ Hwf T subId Hin) as [h Hh].
  exists h. split; [done|]. split.
  - unfold listenAndTrack, ownSubscriber. apply String.eqb_neq in Hne. by rewrite Hne, Hh.
  - intros later message ev steps o Hev. unfold deliver. cbn [listenedHandlers listenedType
      listenedKind].
    intros (tr & verdict & settle & Hrun & Hsettle & ->)%performs_onMessage.
    apply (runs_handleEventMessage message _ T [h] ev) in Hrun;
      [|by rewrite lookup_singleton_eq|done|done].
    apply settles_isSettlement in Hsettle.
    inversion Hrun as [|? ? v tr' ? Hrest|? ? e tr' ? He Hrest|? ? e He]; subst.
    + inversion Hrest; subst. by eexists _, _.
    + inversion Hrest; subst. by eexists _, _.
    + by eexists _, _.
Qed.

(** X25. A command type that has subscribers too gets no command handled.  On a
    bus whose maps agree, [start] plans a command subscription for such a
    type and nothing for its subscribers; and a delivery to a listener that
    reads the handlers of the bus for that type awaits no handler at all: it
    is settled at once, with [ack] unless the name of the type itself reads
    like a retriable failure. *)
Theorem command_type_with_subscribers_is_not_handled bus T l message steps o :
  wellFormed bus ->
  T ∈ commandTypes bus ->
  T ∈ eventTypes bus ->
  listenedType l = T -> listenedKind l = command -> listenedHandlers l = BusHandlers ->
  performs (deliver bus l message) steps o ->
  plannedFor bus T
  = [{| provisionedType := T; provisionedKind := command; provisionedId := None |}]
  /\ settles (if mentions retryMarkers T then nack else ack) steps o.
Proof.
  intros Hwf HC HE HT Hkind Hsource. unfold deliver. rewrite HT, Hkind, Hsource.
  intros (tr & verdict & settle & Hrun & Hsettle & ->)%performs_onMessage. split.
  - unfold plannedFor, determineMessageKind. by rewrite bool_decide_eq_true_2.
  - pose proof (wf_count _ Hwf T) as Hcount.
    rewrite bool_decide_eq_true_2 in Hcount by done.
    apply (wf_ids _ Hwf) in HE. unfold handlersOf in Hcount.
    destruct (handlers bus !! T) as [hs|] eqn:Hhs;
      [|destruct (subscriptionIdsOf bus T); simpl in Hcount; [done|lia]].
    rewrite (handleCommandMessage_many_handlers message _ T hs Hhs) in Hrun.
    + by apply runs_Ret_inv in Hrun as [-> ->].
    + simpl in Hcount. destruct (subscriptionIdsOf bus T); simpl in Hcount; [done|lia].
Qed.

End ListeningFacts.

(** X22. [deleteSubscription] always returns, whatever the client answers; it
    asks for the deletion only after the subscription was found, and tries
    nothing twice. *)
Theorem deleteSubscription_is_best_effort subscription steps :
  performs (deleteSubscription subscription) steps tt
  <-> deletion (topicName (subscriptionTopic subscription)) (subscriptionName subscription)
        steps.
Proof.
  unfold deleteSubscription. cbv zeta. rewrite performs_andAfter. split.
  - intros (s1 & s2 & found & -> & (ans & -> & ->)%performs_attempt & Hrest).
    destruct ans as [v|e].
    + destruct (truthy v) eqn:Hv.
      * apply performs_andAfter in Hrest
          as (s3 & s4 & r & -> & (ans & -> & ->)%performs_attempt & [-> _]%performs_Done_inv).
        by constructor.
      * apply performs_Done_inv in Hrest as [-> _]. by constructor.
    + apply performs_Done_inv in Hrest as [-> _]. constructor.
  - intros [e|v Hv|v ans Hv]; eexists _, _, _.
    + split; [|split; [apply performs_attempt; by eexists|]]; [done|]. constructor.
    + split; [|split; [apply performs_attempt; by eexists|]]; [by rewrite app_nil_r|].
      cbn. rewrite Hv. constructor.
    + split; [|split; [apply performs_attempt; by eexists|]];
        [by instantiate (1 := [_])|].
      cbn. rewrite Hv. cbn. constructor. destruct ans; constructor.
Qed.

Lemma subscription_of_a_subscriber_serves_it_alone_witness :
  exists h, subscriptionHandlers cartRegistry !! "subscriber-0" = Some h.
Proof.
  destruct (subscription_of_a_subscriber_serves_it_alone (api := decimalDates)
              cartRegistry "ProductItemAdded" "subscriber-0"
              {| topicName := "emmett-evt-ProductItemAdded" |}
              {| subscriptionTopic := {| topicName := "emmett-evt-ProductItemAdded" |};
                 subscriptionName := "emmett-evt-ProductItemAdded-subscriber-0" |} [])
    as (h & Hh & _).
  - apply wf_registered.
  - vm_compute. left.
  - discriminate.
  - exists h. exact Hh.
Defined.

Lemma command_type_with_subscribers_is_not_handled_witness :
  plannedFor mixedRegistry "AddProductItem"
  = [{| provisionedType := "AddProductItem"; provisionedKind := command;
        provisionedId := None |}]
  /\ settles ack [(MessageAck, Resolved VUndefined)] (Ok tt).
Proof.
  apply (command_type_with_subscribers_is_not_handled (api := decimalDates)
           mixedRegistry "AddProductItem"
           {| listenedSubscription :=
                {| subscriptionTopic := {| topicName := "emmett-cmd-AddProductItem" |};
                   subscriptionName := "emmett-cmd-AddProductItem-instance-1" |};
              listenedType := "AddProductItem"; listenedKind := command;
              listenedHandlers := BusHandlers |}
           productItemAdded [(MessageAck, Resolved VUndefined)] (Ok tt)).
  - apply wf_registered.
  - vm_compute. reflexivity.
  - vm_compute. reflexivity.
  - reflexivity.
  - reflexivity.
  - reflexivity.
  - vm_compute. constructor. constructor.
Defined.

End DeliveryFacts.

(** ** More facts about topicManager.ts: the options of a subscription *)

Module ProvisioningFacts.
Import Js Effects TopicManager EffectsFacts TopicManagerFacts.

Lemma subscriptionConfig_idempotent options :
  subscriptionConfig (Some (subscriptionConfig options)) = subscriptionConfig options.
Proof.
  destruct options as [[deadline retry dead]|]; [|done]. unfold subscriptionConfig. simpl.
  f_equal.
  - by destruct deadline as [[| |]|].
  - by destruct retry as [[? ?]|].
  - destruct dead as [[topic attempts]|]; [|done]. simpl. f_equal. f_equal.
    + by destruct topic as [[|? ?]|].
    + by destruct attempts as [[| |]|].
Qed.

(** X26. The options of a subscription reach the client only when the
    subscription is created.  If the subscription is found, nothing but the
    existence check is awaited, and the run is a run of the same call with any
    other options; a creation carries exactly the configuration built from the
    options, in which no deadline or number of attempts is zero and no dead
    letter topic is empty, and building the configuration from a configuration
    changes nothing. *)
Theorem subscription_options_reach_only_new_subscriptions topic name options tr o :
  runs (getOrCreateSubscription topic name options) tr o ->
  (forall v rest,
     tr = (SubscriptionExists (topicName topic) name, Resolved v) :: rest ->
     truthy v = true ->
     rest = []
     /\ forall options', runs (getOrCreateSubscription topic name options') tr o)
  /\ (forall topic' name' config ans,
        (SubscriptionCreate topic' name' config, ans) ∈ tr ->
        config = subscriptionConfig options
        /\ ackDeadlineSeconds config <> Some 0
        /\ forall policy,
             deadLetterPolicy config = Some policy ->
             deadLetterTopic policy <> Some "" /\ maxDeliveryAttempts policy <> Some 0)
  /\ subscriptionConfig (Some (subscriptionConfig options)) = subscriptionConfig options.
Proof.
  rewrite getOrCreateSubscription_shape, runs_ensureResource. intros Hrun.
  split; [|split; [|apply subscriptionConfig_idempotent]].
  - intros v rest -> Hv. inversion Hrun; subst; try congruence.
    split; [done|]. intros options'.
    rewrite getOrCreateSubscription_shape, runs_ensureResource. by constructor.
  - intros topic' name' config ans Hin.
    assert (config = subscriptionConfig options) as ->.
    { inversion Hrun; subst;
        repeat (apply elem_of_cons in Hin as [Hin|Hin]; [by simplify_eq|]);
        by apply elem_of_nil in Hin. }
    split; [done|]. destruct options as [[deadline retry dead]|]; simpl.
    + split; [by destruct deadline as [[| |]|]|].
      intros policy. destruct dead as [[topic_ attempts]|]; [|done]. simpl.
      intros [= <-]. simpl. split; [by destruct topic_ as [[|? ?]|]|].
      by destruct attempts as [[| |]|].
    + split; [done|]. by intros policy.
Qed.

Lemma subscription_options_reach_only_new_subscriptions_witness :
  runs (getOrCreateSubscription {| topicName := "emmett-evt-ProductItemAdded" |}
          "emmett-evt-ProductItemAdded-subscriber-0" None)
    [(SubscriptionExists "emmett-evt-ProductItemAdded"
        "emmett-evt-ProductItemAdded-subscriber-0", Resolved (VBool true))]
    (Ok {| subscriptionTopic := {| topicName := "emmett-evt-ProductItemAdded" |};
           subscriptionName := "emmett-evt-ProductItemAdded-subscriber-0" |}).
Proof.
  apply (proj1 (subscription_options_reach_only_new_subscriptions
                  {| topicName := "emmett-evt-ProductItemAdded" |}
                  "emmett-evt-ProductItemAdded-subscriber-0"
                  (Some {| ackDeadlineSeconds := Some 0; retryPolicy := None;
                           deadLetterPolicy := None |})
                  [(SubscriptionExists "emmett-evt-ProductItemAdded"
                      "emmett-evt-ProductItemAdded-subscriber-0", Resolved (VBool true))]
                  (Ok {| subscriptionTopic := {| topicName := "emmett-evt-ProductItemAdded" |};
                         subscriptionName := "emmett-evt-ProductItemAdded-subscriber-0" |})
                  ltac:(cbn; constructor; cbn; constructor))
           (VBool true) [] eq_refl eq_refl).
Defined.

End ProvisioningFacts.
